(** * Cafeteria queueing simulation: embedding and verified properties

    A shallow embedding of [simulation/cafeteria_model.py],
    [simulation/statistics.py], [simulation/ai_predictor.py] and the
    endpoints and recommendations of [app.py].

    Numbers that are Python floats are modelled by exact rationals [Q]
    (no rounding error, no NaN, no infinities); Python integers that are
    counters are [nat], configuration integers are [Z].

    The discrete-event kernel the engine runs on (SimPy's [Environment],
    [Process], [Timeout] and [Resource]) and the random source
    ([random.expovariate]) are libraries; the part of their behaviour the
    engine depends on is written out below as an explicit event heap, a
    server pool with its waiting line, and a stream of draws. *)

From Stdlib Require Import QArith Qround Qabs Qminmax ZArith List Lia Lqa Bool.
From Stdlib Require Import Permutation Sorted Arith.
From Stdlib Require String.
Import String.StringSyntax.
Delimit Scope string_scope with string.
Import ListNotations.

Open Scope Q_scope.

(* ================================================================ *)
(** * Part I: the embedding *)
(* ================================================================ *)

(** ** Exceptions and outcomes *)

(** The exceptions the libraries can raise under the engine. *)
Inductive exn : Type :=
| ValueError          (* simpy: capacity <= 0, until <= now, negative delay *)
| ZeroDivisionError   (* random.expovariate(0) *)
| RuntimeError.       (* simpy: schedule exhausted before the until event *)

(** What a call does: return a value, raise, or (model only) exhaust the
    step budget given to the event loop. *)
Inductive outcome (A : Type) : Type :=
| Ok (a : A)
| Raise (e : exn)
| OutOfFuel.

Arguments Ok {A} a.
Arguments Raise {A} e.
Arguments OutOfFuel {A}.

(** ** Configuration and the engine's recorded observations *)

(** The five constructor arguments of [CafeteriaSimulation.__init__]. *)
Record Config : Type := mkConfig {
  arrival_rate   : Q;
  service_rate   : Q;
  num_servers    : Z;
  sim_time       : Q;
  queue_capacity : Z
}.

(** The mutable attributes of a [CafeteriaSimulation] instance. *)
Record Sim : Type := mkSim {
  customers_served   : nat;
  customers_rejected : nat;
  wait_times         : list Q;
  service_times      : list Q;
  system_times       : list Q;
  queue_lengths      : list nat;
  arrival_times      : list Q;
  server_busy_time   : Q;
  max_queue_length   : nat
}.

(** [__init__]: every series empty, every counter zero.  Nothing in the
    constructor inspects the configuration. *)
Definition init_sim : Sim :=
  {| customers_served := 0; customers_rejected := 0;
     wait_times := []; service_times := []; system_times := [];
     queue_lengths := []; arrival_times := [];
     server_busy_time := 0; max_queue_length := 0 |}.

(** ** The event heap *)

(** What is used of SimPy:
    - [env.schedule(event, priority, delay)] pushes
      [(now + delay, priority, eid, event)] on a heap, [eid] counting the
      events scheduled so far; [env.step()] pops the least tuple, moves the
      clock to its time and runs the callbacks of its event;
    - [env.process(g)] schedules the initialisation of [g], urgent, at the
      current instant; [env.timeout(d)] refuses [d < 0] and schedules
      itself, normal, [d] later; an event that succeeds is scheduled,
      normal, at the current instant;
    - [env.run(until=t)] refuses [t <= now], schedules an urgent event at
      [t] and steps until that event is popped;
    - a generator that raises fails its process event, which is scheduled
      like a success; [env.step()] re-raises when it pops it;
    - [Resource(env, capacity)] refuses [capacity <= 0]; [request()] joins
      the waiting line and looks whether the head of the line can have a
      server; [release()] takes the user out at once and schedules a
      release event, on which the head of the line is looked at again. *)

(** An event is identified with the continuation it resumes: the local
    variables of the suspended generator travel with it. *)
Inductive Event : Type :=
| InitGenerator                                   (* Initialize(customer_generator) *)
| InitCustomer (customer_id : nat)                (* Initialize(customer_process) *)
| ArrivalTimeout (customer_id : nat)              (* env.timeout(interarrival_time) *)
| RequestGranted (customer_id : nat) (arrival_time : Q)   (* the Request, once succeeded *)
| ServiceTimeout (customer_id : nat) (arrival_time service_time : Q)
| Released                                        (* the Release event *)
| ProcessDone                                     (* a finished customer_process *)
| ProcessFailed (e : exn)                         (* a process that raised *)
| Until.                                          (* env.run(until=...) *)

(** A heap entry [(time, priority, eid, event)]. *)
Record Entry : Type := mkEntry {
  e_time  : Q;
  e_prio  : nat;
  e_eid   : nat;
  e_event : Event
}.

Definition URGENT : nat := 0%nat.
Definition NORMAL : nat := 1%nat.

(** Tuple order of heap entries: time, then priority, then eid. *)
Definition entry_lt (a b : Entry) : bool :=
  match e_time a ?= e_time b with
  | Lt => true
  | Gt => false
  | Eq => (e_prio a <? e_prio b)%nat
          || ((e_prio a =? e_prio b)%nat && (e_eid a <? e_eid b)%nat)
  end.

(** The heap is kept as a list in increasing tuple order, so that
    [heappop] is the head. *)
Fixpoint heappush (x : Entry) (h : list Entry) : list Entry :=
  match h with
  | [] => [x]
  | y :: h' => if entry_lt x y then x :: h else y :: heappush x h'
  end.

(** ** The world: environment, resource, random source, engine *)

Record World : Type := mkWorld {
  now       : Q;                  (* env.now *)
  heap      : list Entry;         (* env._queue *)
  eid       : nat;                (* env._eid *)
  users     : list nat;           (* servers.users, by customer id *)
  put_queue : list (nat * Q);     (* servers.queue: (customer id, arrival_time) *)
  rng       : nat;                (* draws consumed so far *)
  self      : Sim
}.

Definition set_self (s : Sim) (w : World) : World :=
  mkWorld (now w) (heap w) (eid w) (users w) (put_queue w) (rng w) s.

Definition set_resource (u : list nat) (q : list (nat * Q)) (w : World) : World :=
  mkWorld (now w) (heap w) (eid w) u q (rng w) (self w).

(** [env.schedule(event, priority, delay)]. *)
Definition schedule (ev : Event) (prio : nat) (delay : Q) (w : World) : World :=
  mkWorld (now w)
          (heappush (mkEntry (now w + delay) prio (eid w) ev) (heap w))
          (S (eid w)) (users w) (put_queue w) (rng w) (self w).

(** A process that raises: its process event fails and is scheduled; the
    exception leaves [env.run] when that event is popped. *)
Definition fail (e : exn) (w : World) : World :=
  schedule (ProcessFailed e) NORMAL 0 w.

(** [list.remove(x)]: drops the first occurrence, if any. *)
Fixpoint remove_first (x : nat) (l : list nat) : list nat :=
  match l with
  | [] => []
  | y :: l' => if Nat.eqb x y then l' else y :: remove_first x l'
  end.

Section Engine.

Variable cfg : Config.

(** The random source: [rnd n] is the value of [-log(1 - random())] at
    the n-th call of [random.random()]. *)
Variable rnd : nat -> Q.

(** [random.expovariate(lambd)]. *)
Definition expovariate (lambd : Q) (w : World) : (exn + Q) * World :=
  let w' := mkWorld (now w) (heap w) (eid w) (users w) (put_queue w)
                    (S (rng w)) (self w) in
  if Qeq_bool lambd 0 then (inl ZeroDivisionError, w')
  else (inr (rnd (rng w) / lambd), w').

(** *** simpy.Resource *)

(** [_trigger_put]: the head of the waiting line gets a server when one
    is free. *)
Definition trigger_put (w : World) : World :=
  match put_queue w with
  | [] => w
  | (cid, arr) :: rest =>
      if (Z.of_nat (length (users w)) <? num_servers cfg)%Z
      then schedule (RequestGranted cid arr) NORMAL 0
                    (set_resource (users w ++ [cid]) rest w)
      else w
  end.

(** [servers.request()]. *)
Definition request (cid : nat) (arrival_time : Q) (w : World) : World :=
  trigger_put (set_resource (users w) (put_queue w ++ [(cid, arrival_time)]) w).

(** Leaving the [with] block: [servers.release(request)]. *)
Definition release (cid : nat) (w : World) : World :=
  schedule Released NORMAL 0
           (set_resource (remove_first cid (users w)) (put_queue w) w).

(** *** customer_generator *)

(** From the top of the [while True] loop to the [yield]. *)
Definition customer_generator_loop (customer_id : nat) (w : World) : World :=
  match expovariate (arrival_rate cfg) w with
  | (inl e, w1) => fail e w1
  | (inr interarrival_time, w1) =>
      if Qle_bool 0 interarrival_time
      then schedule (ArrivalTimeout customer_id) NORMAL interarrival_time w1
      else fail ValueError w1
  end.

(** From the [yield] to the next [yield]. *)
Definition customer_generator_resume (customer_id : nat) (w : World) : World :=
  let customer_id := S customer_id in
  let s := self w in
  let w1 := set_self
              (mkSim (customers_served s) (customers_rejected s)
                     (wait_times s) (service_times s) (system_times s)
                     (queue_lengths s) (arrival_times s ++ [now w])
                     (server_busy_time s) (max_queue_length s)) w in
  let w2 :=
    if (Z.of_nat (length (put_queue w1)) <? queue_capacity cfg)%Z
    then schedule (InitCustomer customer_id) URGENT 0 w1
    else
      let s1 := self w1 in
      set_self
        (mkSim (customers_served s1) (S (customers_rejected s1))
               (wait_times s1) (service_times s1) (system_times s1)
               (queue_lengths s1) (arrival_times s1)
               (server_busy_time s1) (max_queue_length s1)) w1 in
  customer_generator_loop customer_id w2.

(** *** customer_process *)

(** From the start to [yield request]. *)
Definition customer_process_start (customer_id : nat) (w : World) : World :=
  let arrival_time := now w in
  let queue_length := length (put_queue w) in
  let s := self w in
  let w1 := set_self
              (mkSim (customers_served s) (customers_rejected s)
                     (wait_times s) (service_times s) (system_times s)
                     (queue_lengths s ++ [queue_length]) (arrival_times s)
                     (server_busy_time s)
                     (Nat.max (max_queue_length s) queue_length)) w in
  request customer_id arrival_time w1.

(** From [yield request] to [yield env.timeout(service_time)]. *)
Definition customer_process_granted
           (customer_id : nat) (arrival_time : Q) (w : World) : World :=
  let wait_time := now w - arrival_time in
  let s := self w in
  let w1 := set_self
              (mkSim (customers_served s) (customers_rejected s)
                     (wait_times s ++ [wait_time]) (service_times s)
                     (system_times s) (queue_lengths s) (arrival_times s)
                     (server_busy_time s) (max_queue_length s)) w in
  match expovariate (service_rate cfg) w1 with
  | (inl e, w2) => fail e (release customer_id w2)
  | (inr service_time, w2) =>
      let s2 := self w2 in
      let w3 := set_self
                  (mkSim (customers_served s2) (customers_rejected s2)
                         (wait_times s2) (service_times s2 ++ [service_time])
                         (system_times s2) (queue_lengths s2)
                         (arrival_times s2) (server_busy_time s2)
                         (max_queue_length s2)) w2 in
      if Qle_bool 0 service_time
      then schedule (ServiceTimeout customer_id arrival_time service_time)
                    NORMAL service_time w3
      else fail ValueError (release customer_id w3)
  end.

(** From [yield env.timeout(service_time)] to the end of the process. *)
Definition customer_process_served
           (customer_id : nat) (arrival_time service_time : Q)
           (w : World) : World :=
  let system_time := now w - arrival_time in
  let s := self w in
  let w1 := set_self
              (mkSim (S (customers_served s)) (customers_rejected s)
                     (wait_times s) (service_times s)
                     (system_times s ++ [system_time]) (queue_lengths s)
                     (arrival_times s)
                     (server_busy_time s + service_time)
                     (max_queue_length s)) w in
  schedule ProcessDone NORMAL 0 (release customer_id w1).

(** *** env.step and env.run *)

Inductive StepResult : Type :=
| Continue (w : World)
| Stopped (w : World)      (* StopSimulation *)
| Raised (e : exn).

(** [env.step()]: pop the least entry, move the clock to it, run what
    waits on it. *)
Definition step (w : World) : StepResult :=
  match heap w with
  | [] => Raised RuntimeError   (* not reached while the until event is pending *)
  | x :: h =>
      let w1 := mkWorld (e_time x) h (eid w) (users w) (put_queue w)
                        (rng w) (self w) in
      match e_event x with
      | InitGenerator => Continue (customer_generator_loop 0 w1)
      | InitCustomer cid => Continue (customer_process_start cid w1)
      | ArrivalTimeout cid => Continue (customer_generator_resume cid w1)
      | RequestGranted cid arr => Continue (customer_process_granted cid arr w1)
      | ServiceTimeout cid arr st => Continue (customer_process_served cid arr st w1)
      | Released => Continue (trigger_put w1)
      | ProcessDone => Continue w1
      | ProcessFailed e => Raised e
      | Until => Stopped w1
      end
  end.

(** The [while True: self.step()] loop of [env.run], bounded by [fuel]:
    the loop need not end (draws of zero put infinitely many arrivals at
    one instant), so the model counts its iterations. *)
Fixpoint env_run (fuel : nat) (w : World) : outcome World :=
  match fuel with
  | O => OutOfFuel
  | S fuel' =>
      match step w with
      | Continue w' => env_run fuel' w'
      | Stopped w' => Ok w'
      | Raised e => Raise e
      end
  end.

(** [simpy.Environment()] with a fresh engine. *)
Definition initial_world : World :=
  mkWorld 0 [] 0 [] [] 0 init_sim.

(** The world on which the event loop starts: the generator process is
    registered, then the until event is scheduled.  [simpy.Resource]
    refuses a capacity [<= 0], [env.run] an horizon [<= env.now]. *)
Definition start_world : outcome World :=
  if (num_servers cfg <=? 0)%Z then Raise ValueError
  else
    let w0 := schedule InitGenerator URGENT 0 initial_world in
    if Qle_bool (sim_time cfg) (now w0) then Raise ValueError
    else Ok (schedule Until URGENT (sim_time cfg - now w0) w0).

(** [run] up to and including [env.run(until=self.sim_time)]: the final
    world holds the engine's attributes as [calculate_metrics] reads
    them. *)
Definition run_engine (fuel : nat) : outcome World :=
  match start_world with
  | Ok w => env_run fuel w
  | Raise e => Raise e
  | OutOfFuel => OutOfFuel
  end.

End Engine.

(** ** Numeric helpers: Python's [round] and NumPy's reductions *)

(** Nearest integer, ties to the even neighbour. *)
Definition round_half_even (x : Q) : Z :=
  let f := Qfloor x in
  match Qcompare (x - inject_Z f) (1 # 2) with
  | Lt => f
  | Gt => (f + 1)%Z
  | Eq => if Z.even f then f else (f + 1)%Z
  end.

Definition pow10 (ndigits : nat) : Q := inject_Z (10 ^ Z.of_nat ndigits).

(** [round(x, ndigits)]. *)
Definition round (x : Q) (ndigits : nat) : Q :=
  Qred (inject_Z (round_half_even (x * pow10 ndigits)) / pow10 ndigits).

Definition Qsum (l : list Q) : Q := fold_right Qplus 0 l.

Definition Qlen {A : Type} (l : list A) : Q := inject_Z (Z.of_nat (length l)).

(** [np.mean]. *)
Definition np_mean (l : list Q) : Q := Qsum l / Qlen l.

(** [np.var] (population variance, [ddof = 0]). *)
Definition np_var (l : list Q) : Q :=
  let m := np_mean l in
  np_mean (map (fun x => (x - m) * (x - m)) l).

(** [list[:n]]. *)
Definition slice_to {A : Type} (n : nat) (l : list A) : list A := firstn n l.

(** ** The metrics aggregator *)

(** The dictionary [calculate_metrics] returns, one field per key. *)
Record Result : Type := mkResult {
  res_customers_served       : nat;
  res_customers_rejected     : nat;
  res_avg_wait_time          : Q;
  res_avg_service_time       : Q;
  res_avg_system_time        : Q;
  res_avg_queue_length       : Q;
  res_max_queue_length       : nat;
  res_server_utilization     : Q;
  res_var_wait_time          : Q;
  res_var_service_time       : Q;
  res_std_wait_time          : Q;
  res_std_service_time       : Q;
  res_effective_arrival_rate : Q;
  res_rejection_probability  : Q;
  res_wait_times             : list Q;
  res_service_times          : list Q;
  res_queue_lengths          : list nat;
  res_arrival_times          : list Q;
  res_input_params           : Config
}.

Definition is_empty {A : Type} (l : list A) : bool :=
  match l with [] => true | _ => false end.

Definition Qpos_bool (x : Q) : bool := negb (Qle_bool x 0).

Section Metrics.

(** [np.sqrt], taken as given. *)
Variable np_sqrt : Q -> Q.

Variable cfg : Config.

Definition avg_of (l : list Q) : Q :=
  if is_empty l then 0 else np_mean l.

Definition var_of (l : list Q) : Q :=
  if (1 <? length l)%nat then np_var l else 0.

Definition utilization_of (s : Sim) : Q :=
  let total_server_time := inject_Z (num_servers cfg) * sim_time cfg in
  if Qpos_bool total_server_time
  then server_busy_time s / total_server_time else 0.

Definition effective_arrival_rate_of (s : Sim) : Q :=
  if Qpos_bool (sim_time cfg)
  then Qlen (arrival_times s) / sim_time cfg else 0.

Definition rejection_probability_of (s : Sim) : Q :=
  let total_arrivals := (customers_served s + customers_rejected s)%nat in
  if (0 <? total_arrivals)%nat
  then inject_Z (Z.of_nat (customers_rejected s))
       / inject_Z (Z.of_nat total_arrivals)
  else 0.

(** [calculate_metrics]. *)
Definition calculate_metrics (s : Sim) : Result :=
  let avg_wait_time := avg_of (wait_times s) in
  let avg_service_time := avg_of (service_times s) in
  let avg_system_time := avg_of (system_times s) in
  let avg_queue_length :=
    avg_of (map (fun n => inject_Z (Z.of_nat n)) (queue_lengths s)) in
  let server_utilization := utilization_of s in
  let var_wait_time := var_of (wait_times s) in
  let var_service_time := var_of (service_times s) in
  let effective_arrival_rate := effective_arrival_rate_of s in
  let rejection_probability := rejection_probability_of s in
  {| res_customers_served := customers_served s;
     res_customers_rejected := customers_rejected s;
     res_avg_wait_time := round avg_wait_time 2;
     res_avg_service_time := round avg_service_time 2;
     res_avg_system_time := round avg_system_time 2;
     res_avg_queue_length := round avg_queue_length 2;
     res_max_queue_length := max_queue_length s;
     res_server_utilization := round server_utilization 4;
     res_var_wait_time := round var_wait_time 2;
     res_var_service_time := round var_service_time 2;
     res_std_wait_time := round (np_sqrt var_wait_time) 2;
     res_std_service_time := round (np_sqrt var_service_time) 2;
     res_effective_arrival_rate := round effective_arrival_rate 4;
     res_rejection_probability := round rejection_probability 4;
     res_wait_times :=
       map (fun t => round t 2) (slice_to 100 (wait_times s));
     res_service_times :=
       map (fun t => round t 2) (slice_to 100 (service_times s));
     res_queue_lengths := slice_to 100 (queue_lengths s);
     res_arrival_times :=
       map (fun t => round t 2) (slice_to 100 (arrival_times s));
     res_input_params := cfg |}.

(** [CafeteriaSimulation(...).run()]. *)
Definition run (rnd : nat -> Q) (fuel : nat) : outcome Result :=
  match run_engine cfg rnd fuel with
  | Ok w => Ok (calculate_metrics (self w))
  | Raise e => Raise e
  | OutOfFuel => OutOfFuel
  end.

End Metrics.

(** ** More NumPy reductions, used by the statistics module *)

Fixpoint insert_sorted (x : Q) (l : list Q) : list Q :=
  match l with
  | [] => [x]
  | y :: l' => if Qle_bool x y then x :: l else y :: insert_sorted x l'
  end.

(** [sorted] / [np.sort]. *)
Definition sorted (l : list Q) : list Q := fold_right insert_sorted [] l.

Definition np_min (l : list Q) : Q :=
  match l with [] => 0 | x :: l' => fold_left Qmin l' x end.

Definition np_max (l : list Q) : Q :=
  match l with [] => 0 | x :: l' => fold_left Qmax l' x end.

(** [np.percentile(l, q)] with the default linear interpolation. *)
Definition np_percentile (l : list Q) (q : Q) : Q :=
  let s := sorted l in
  let pos := q / 100 * (Qlen l - 1) in
  let lo := Z.to_nat (Qfloor pos) in
  let frac := pos - inject_Z (Qfloor pos) in
  let a := nth lo s 0 in
  let b := nth (S lo) s a in
  a + frac * (b - a).

(** [np.median]. *)
Definition np_median (l : list Q) : Q := np_percentile l 50.

(** [np.diff]. *)
Fixpoint np_diff (l : list Q) : list Q :=
  match l with
  | x :: (y :: _) as l' => (y - x) :: np_diff l'
  | _ => []
  end.

(** ** The statistical analysis module *)

(** A [StatisticalAnalysis] instance. *)
Record StatisticalAnalysis : Type := mkStatisticalAnalysis {
  sa_results       : Result;
  sa_wait_times    : list Q;
  sa_service_times : list Q
}.

(** [StatisticalAnalysis.__init__]: the two series are read off the result
    bundle (which always carries both keys). *)
Definition new_analysis (simulation_results : Result) : StatisticalAnalysis :=
  {| sa_results := simulation_results;
     sa_wait_times := res_wait_times simulation_results;
     sa_service_times := res_service_times simulation_results |}.

Record WaitStats : Type := mkWaitStats {
  ws_mean : Q; ws_median : Q; ws_std : Q; ws_variance : Q;
  ws_min : Q; ws_max : Q; ws_q25 : Q; ws_q75 : Q;
  ws_skewness : Q; ws_kurtosis : Q
}.

Record ServiceStats : Type := mkServiceStats {
  ss_mean : Q; ss_median : Q; ss_std : Q; ss_variance : Q;
  ss_min : Q; ss_max : Q
}.

Record TestResult : Type := mkTestResult {
  tr_statistic : Q; tr_p_value : Q; tr_conclusion : bool
}.

Record ConfidenceInterval : Type := mkCI {
  ci_confidence_level : Q;
  ci_mean             : Q;
  ci_lower_bound      : Q;
  ci_upper_bound      : Q;
  ci_margin_of_error  : Q
}.

Record TTest : Type := mkTTest {
  tt_t_statistic : Q; tt_p_value : Q; tt_reject_null : bool;
  tt_actual_mean : Q
}.

Inductive Strength : Type := Debil | Moderada | Fuerte.
Inductive Direction : Type := Positiva | Negativa.

(** A float that may be NaN: [scipy.stats.pearsonr] returns NaN for the
    coefficient and the p-value when one of the series is constant.  NaN
    goes through [abs] and [round] unchanged, and every comparison with
    it is false. *)
Inductive pyfloat : Type :=
| Finite (q : Q)
| NaN.

(** [abs(x)]. *)
Definition pyfloat_abs (x : pyfloat) : pyfloat :=
  match x with Finite q => Finite (Qabs q) | NaN => NaN end.

(** [round(x, ndigits)]. *)
Definition pyfloat_round (x : pyfloat) (ndigits : nat) : pyfloat :=
  match x with Finite q => Finite (round q ndigits) | NaN => NaN end.

(** [x < y]. *)
Definition pyfloat_lt (x : pyfloat) (y : Q) : bool :=
  match x with Finite q => negb (Qle_bool y q) | NaN => false end.

(** [x > y]. *)
Definition pyfloat_gt (x : pyfloat) (y : Q) : bool :=
  match x with Finite q => negb (Qle_bool q y) | NaN => false end.

Record Correlation : Type := mkCorrelation {
  co_coefficient : pyfloat; co_p_value : pyfloat;
  co_interpretation : Strength * Direction
}.

(** The dictionary [analyze] returns; a key that may be absent is an
    [option]. *)
Record Analysis : Type := mkAnalysis {
  an_descriptive_stats         : WaitStats * ServiceStats;
  an_wait_times_normality      : option TestResult;
  an_service_times_exponential : option TestResult;
  an_wait_time_ci              : option ConfidenceInterval;
  an_wait_time_ttest           : option TTest;
  an_wait_vs_service           : option Correlation
}.

Section Statistics.

(** NumPy and SciPy functions taken as given. *)
Variable np_sqrt : Q -> Q.
Variable stats_skew : list Q -> Q.
Variable stats_kurtosis : list Q -> Q.
Variable stats_shapiro : list Q -> Q * Q.
Variable stats_kstest_expon : list Q -> Q -> Q -> Q * Q.
Variable stats_t_ppf : Q -> nat -> Q.
Variable stats_ttest_1samp : list Q -> Q -> Q * Q.
Variable stats_pearsonr : list Q -> list Q -> pyfloat * pyfloat.

(** [np.std]. *)
Definition np_std (l : list Q) : Q := np_sqrt (np_var l).

(** [scipy.stats.sem]: sample standard deviation ([ddof = 1]) over the
    square root of the sample size. *)
Definition stats_sem (l : list Q) : Q :=
  let m := np_mean l in
  let var1 := Qsum (map (fun x => (x - m) * (x - m)) l) / (Qlen l - 1) in
  np_sqrt var1 / np_sqrt (Qlen l).

Definition descriptive_statistics (sa : StatisticalAnalysis)
  : WaitStats * ServiceStats :=
  let wait_times := sa_wait_times sa in
  let service_times := sa_service_times sa in
  let some (l : list Q) (v : Q) : Q :=
    if (0 <? length l)%nat then round v 2 else 0 in
  let many (l : list Q) (v : Q) : Q :=
    if (2 <? length l)%nat then round v 2 else 0 in
  ({| ws_mean := some wait_times (np_mean wait_times);
      ws_median := some wait_times (np_median wait_times);
      ws_std := some wait_times (np_std wait_times);
      ws_variance := some wait_times (np_var wait_times);
      ws_min := some wait_times (np_min wait_times);
      ws_max := some wait_times (np_max wait_times);
      ws_q25 := some wait_times (np_percentile wait_times 25);
      ws_q75 := some wait_times (np_percentile wait_times 75);
      ws_skewness := many wait_times (stats_skew wait_times);
      ws_kurtosis := many wait_times (stats_kurtosis wait_times) |},
   {| ss_mean := some service_times (np_mean service_times);
      ss_median := some service_times (np_median service_times);
      ss_std := some service_times (np_std service_times);
      ss_variance := some service_times (np_var service_times);
      ss_min := some service_times (np_min service_times);
      ss_max := some service_times (np_max service_times) |}).

Definition test_distributions (sa : StatisticalAnalysis)
  : option TestResult * option TestResult :=
  let wait_times := sa_wait_times sa in
  let service_times := sa_service_times sa in
  let normality :=
    if (3 <=? length wait_times)%nat then
      let '(stat_wait, p_wait) :=
        stats_shapiro
          (slice_to (Nat.min (length wait_times) 5000) wait_times) in
      Some {| tr_statistic := round stat_wait 4;
              tr_p_value := round p_wait 4;
              tr_conclusion := negb (Qle_bool p_wait (5 # 100)) |}
    else None in
  let exponential :=
    if (3 <=? length service_times)%nat then
      let mean_service := np_mean service_times in
      if Qpos_bool mean_service then
        let '(stat_exp, p_exp) :=
          stats_kstest_expon service_times 0 mean_service in
        Some {| tr_statistic := round stat_exp 4;
                tr_p_value := round p_exp 4;
                tr_conclusion := negb (Qle_bool p_exp (5 # 100)) |}
      else None
    else None in
  (normality, exponential).

(** [confidence_intervals(confidence)]; [None] is the empty dictionary. *)
Definition confidence_intervals (confidence : Q) (sa : StatisticalAnalysis)
  : option ConfidenceInterval :=
  let wait_times := sa_wait_times sa in
  if (length wait_times <? 2)%nat then None
  else
    let mean := np_mean wait_times in
    let std_error := stats_sem wait_times in
    let margin :=
      std_error
      * stats_t_ppf ((1 + confidence) / 2) (length wait_times - 1) in
    Some {| ci_confidence_level := confidence;
            ci_mean := round mean 2;
            ci_lower_bound := round (mean - margin) 2;
            ci_upper_bound := round (mean + margin) 2;
            ci_margin_of_error := round margin 2 |}.

Definition hypothesis_tests (sa : StatisticalAnalysis) : option TTest :=
  let wait_times := sa_wait_times sa in
  if (2 <=? length wait_times)%nat then
    let hypothesized_mean := 5 in
    let '(t_stat, p_value) :=
      stats_ttest_1samp wait_times hypothesized_mean in
    Some {| tt_t_statistic := round t_stat 4;
            tt_p_value := round p_value 4;
            tt_reject_null := negb (Qle_bool (5 # 100) p_value);
            tt_actual_mean := round (np_mean wait_times) 2 |}
  else None.

Definition interpret_correlation (r : pyfloat) : Strength * Direction :=
  let abs_r := pyfloat_abs r in
  let strength :=
    if pyfloat_lt abs_r (3 # 10) then Debil
    else if pyfloat_lt abs_r (7 # 10) then Moderada
    else Fuerte in
  let direction := if pyfloat_gt r 0 then Positiva else Negativa in
  (strength, direction).

Definition correlation_analysis (sa : StatisticalAnalysis)
  : option Correlation :=
  if ((length (sa_wait_times sa) <? 2)
      || (length (sa_service_times sa) <? 2))%nat
  then None
  else
    let min_len :=
      Nat.min (length (sa_wait_times sa)) (length (sa_service_times sa)) in
    let wait := slice_to min_len (sa_wait_times sa) in
    let service := slice_to min_len (sa_service_times sa) in
    if (2 <=? min_len)%nat then
      let '(correlation, p_value) := stats_pearsonr wait service in
      Some {| co_coefficient := pyfloat_round correlation 4;
              co_p_value := pyfloat_round p_value 4;
              co_interpretation := interpret_correlation correlation |}
    else None.

(** [analyze]; the default confidence level is [0.95]. *)
Definition analyze (sa : StatisticalAnalysis) : Analysis :=
  {| an_descriptive_stats := descriptive_statistics sa;
     an_wait_times_normality := fst (test_distributions sa);
     an_service_times_exponential := snd (test_distributions sa);
     an_wait_time_ci := confidence_intervals (95 # 100) sa;
     an_wait_time_ttest := hypothesis_tests sa;
     an_wait_vs_service := correlation_analysis sa |}.

End Statistics.

(** ** The demand predictor *)

Definition Q_of_nat (n : nat) : Q := inject_Z (Z.of_nat n).

(** [np.arange(start, stop, step)]: [ceil((stop - start) / step)] values
    [start + k * step].  The number of values and the values are the
    exact ones; in floating point the quotient can round up past an
    integer, which adds a value, and a product [k * step] can round below
    its exact value. *)
Definition np_arange (start stop step : Q) : list Q :=
  map (fun k => start + Q_of_nat k * step)
      (seq 0 (Z.to_nat (Qceiling ((stop - start) / step)))).

Definition count_if {A : Type} (p : A -> bool) (l : list A) : nat :=
  length (filter p l).

(** [np.histogram(a, bins=edges)[0]]: bin [k] is [edges[k] <= t < edges[k+1]],
    the last bin also takes its right edge. *)
Fixpoint np_histogram (a : list Q) (edges : list Q) : list nat :=
  match edges with
  | lo :: ((hi :: rest) as edges') =>
      count_if (fun t => Qle_bool lo t
                         && (if is_empty rest then Qle_bool t hi
                             else negb (Qle_bool hi t))) a
      :: np_histogram a edges'
  | _ => []
  end.

(** [sklearn.linear_model.LinearRegression] on one feature: ordinary least
    squares with an intercept. *)
Record LinearRegression : Type := mkLinearRegression {
  coef_      : Q;
  intercept_ : Q
}.

Definition fit (X y : list Q) : LinearRegression :=
  let xm := np_mean X in
  let ym := np_mean y in
  let sxy := Qsum (map (fun p => (fst p - xm) * (snd p - ym)) (combine X y)) in
  let sxx := Qsum (map (fun x => (x - xm) * (x - xm)) X) in
  let slope := sxy / sxx in
  {| coef_ := slope; intercept_ := ym - slope * xm |}.

(** [model.predict] at one index. *)
Definition predict (model : LinearRegression) (x : Q) : Q :=
  intercept_ model + coef_ model * x.

(** [model.score]: the coefficient of determination. *)
Definition score (model : LinearRegression) (X y : list Q) : Q :=
  let ym := np_mean y in
  let ss_res :=
    Qsum (map (fun p => (snd p - predict model (fst p))
                        * (snd p - predict model (fst p))) (combine X y)) in
  let ss_tot := Qsum (map (fun v => (v - ym) * (v - ym)) y) in
  if Qeq_bool ss_tot 0 then (if Qeq_bool ss_res 0 then 1 else 0)
  else 1 - ss_res / ss_tot.

Record Patterns : Type := mkPatterns {
  pt_peak_detected    : bool;
  pt_periodicity      : String.string;
  pt_peak_percentage  : option Q;
  pt_avg_interarrival : option Q;
  pt_std_interarrival : option Q
}.

Inductive Priority : Type := High | Medium.

(** The recommendation entries, without their message text. *)
Inductive Insight : Type :=
| IncreasingTrend
| DecreasingTrend
| PeakPeriods (peak_percentage : Q)
| HighVariability.

Record ForecastDetails : Type := mkForecastDetails {
  fd_slope           : Q;
  fd_r_squared       : Q;
  fd_patterns        : Patterns;
  fd_recommendations : list (Insight * Priority)
}.

(** The dictionary [predict_demand] returns: three keys always, four more
    when a line was fitted. *)
Record Forecast : Type := mkForecast {
  fc_predictions : list Q;
  fc_trend       : String.string;
  fc_confidence  : Q;
  fc_details     : option ForecastDetails
}.

Section Predictor.

Variable np_sqrt : Q -> Q.

(** [prepare_time_series]: bin indices and arrivals per bin. *)
Definition prepare_time_series (arrival_times : list Q) : list Q * list Q :=
  if (length arrival_times =? 0)%nat then ([], [])
  else
    let max_time := np_max arrival_times in
    let interval := Qmax 1 (max_time / 20) in
    let bins := np_arange 0 (max_time + interval) interval in
    let counts := np_histogram arrival_times bins in
    (map Q_of_nat (seq 0 (length counts)), map Q_of_nat counts).

Definition interpret_trend (slope : Q) : String.string :=
  if negb (Qle_bool slope (1 # 10)) then "increasing"%string
  else if negb (Qle_bool (- (1 # 10)) slope) then "decreasing"%string
  else "stable"%string.

Definition analyze_patterns (arrival_times : list Q) : Patterns :=
  if (length arrival_times <? 10)%nat
  then {| pt_peak_detected := false;
          pt_periodicity := "unknown"%string;
          pt_peak_percentage := None;
          pt_avg_interarrival := None;
          pt_std_interarrival := None |}
  else
    let intervals := np_diff (sorted arrival_times) in
    let mean_interval := np_mean intervals in
    let std_interval := np_sqrt (np_var intervals) in
    let peak_threshold := mean_interval - std_interval in
    let peak_periods :=
      count_if (fun i => negb (Qle_bool peak_threshold i)) intervals in
    let peak_percentage :=
      if (0 <? length intervals)%nat
      then Q_of_nat peak_periods / Qlen intervals else 0 in
    {| pt_peak_detected := negb (Qle_bool peak_percentage (2 # 10));
       pt_periodicity :=
         if negb (Qle_bool std_interval mean_interval)
         then "high_variability"%string else "regular"%string;
       pt_peak_percentage := Some (round peak_percentage 2);
       pt_avg_interarrival := Some (round mean_interval 2);
       pt_std_interarrival := Some (round std_interval 2) |}.

Definition generate_ai_recommendations
           (trend : String.string) (patterns : Patterns)
  : list (Insight * Priority) :=
  (if String.eqb trend "increasing" then [(IncreasingTrend, High)]
   else if String.eqb trend "decreasing" then [(DecreasingTrend, Medium)]
   else [])
  ++ (if pt_peak_detected patterns
      then match pt_peak_percentage patterns with
           | Some pct => [(PeakPeriods pct, High)]
           | None => []
           end
      else [])
  ++ (if String.eqb (pt_periodicity patterns) "high_variability"
      then [(HighVariability, Medium)] else []).

Definition insufficient_data : Forecast :=
  {| fc_predictions := [];
     fc_trend := "insufficient_data"%string;
     fc_confidence := 0;
     fc_details := None |}.

(** [predict_demand(arrival_times, forecast_periods)], for
    [forecast_periods >= 1]: with no period asked for and enough data,
    [model.predict] is handed an empty one-dimensional array, which
    scikit-learn refuses. *)
Definition predict_demand (arrival_times : list Q) (forecast_periods : nat)
  : Forecast :=
  if (length arrival_times <? 5)%nat then insufficient_data
  else
    let '(X, y) := prepare_time_series arrival_times in
    if (length X <? 3)%nat then insufficient_data
    else
      let model := fit X y in
      let last_index := length arrival_times in
      let future_indices :=
        map Q_of_nat (seq last_index forecast_periods) in
      let predictions := map (predict model) future_indices in
      let slope := coef_ model in
      let trend := interpret_trend slope in
      let confidence := score model X y in
      let patterns := analyze_patterns arrival_times in
      {| fc_predictions := map (fun p => round p 2) predictions;
         fc_trend := trend;
         fc_confidence := round confidence 4;
         fc_details :=
           Some {| fd_slope := round slope 4;
                   fd_r_squared := round confidence 4;
                   fd_patterns := patterns;
                   fd_recommendations :=
                     generate_ai_recommendations trend patterns |} |}.

End Predictor.


(** ** The simulate endpoint *)

Section Endpoint.

Variable np_sqrt : Q -> Q.
Variable stats_skew : list Q -> Q.
Variable stats_kurtosis : list Q -> Q.
Variable stats_shapiro : list Q -> Q * Q.
Variable stats_kstest_expon : list Q -> Q -> Q -> Q * Q.
Variable stats_t_ppf : Q -> nat -> Q.
Variable stats_ttest_1samp : list Q -> Q -> Q * Q.
Variable stats_pearsonr : list Q -> list Q -> pyfloat * pyfloat.

(** [simulate] of [app.py] between the parsing of the request and the
    building of the response: the run, the statistical analysis of its
    result bundle, the forecast from the bundle's arrival times.  An
    exception leaves the three steps together. *)
Definition simulate (cfg : Config) (rnd : nat -> Q) (fuel : nat)
  : outcome (Result * Analysis * Forecast) :=
  match run np_sqrt cfg rnd fuel with
  | Ok results =>
      let stats := new_analysis results in
      let statistical_analysis :=
        analyze np_sqrt stats_skew stats_kurtosis stats_shapiro
                stats_kstest_expon stats_t_ppf stats_ttest_1samp
                stats_pearsonr stats in
      let predictions :=
        predict_demand np_sqrt (res_arrival_times results) 10 in
      Ok (results, statistical_analysis, predictions)
  | Raise e => Raise e
  | OutOfFuel => OutOfFuel
  end.

End Endpoint.


(** ** Recommendations and the optimize endpoint of the application *)

Inductive Severity : Type := Warning | Info | Alert.

(** The entries [generate_recommendations] can produce, with the figure
    each message quotes. *)
Inductive Advice : Type :=
| HighUtilization (utilization : Q)
| LowUtilization (utilization : Q)
| LongWait (avg_wait_time : Q)
| LongQueue (max_queue_length : nat)
| CustomersRejected (customers_rejected : nat).

(** [generate_recommendations(results, num_servers)]. *)
Definition generate_recommendations (results : Result) (num_servers : Z)
  : list (Severity * Advice) :=
  (if negb (Qle_bool (res_server_utilization results) (9 # 10))
   then [(Warning, HighUtilization (res_server_utilization results))]
   else if negb (Qle_bool (5 # 10) (res_server_utilization results))
        then [(Info, LowUtilization (res_server_utilization results))]
        else [])
  ++ (if negb (Qle_bool (res_avg_wait_time results) 10)
      then [(Warning, LongWait (res_avg_wait_time results))] else [])
  ++ (if (20 <? res_max_queue_length results)%nat
      then [(Alert, LongQueue (res_max_queue_length results))] else [])
  ++ (if (0 <? res_customers_rejected results)%nat
      then [(Alert, CustomersRejected (res_customers_rejected results))]
      else []).

(** One row of the table the optimize endpoint builds. *)
Record OptimizeRow : Type := mkOptimizeRow {
  or_servers          : Z;
  or_avg_wait         : Q;
  or_utilization      : Q;
  or_customers_served : nat
}.

(** The key of [min] in the endpoint: the average wait when it is
    positive, infinity ([None]) otherwise. *)
Definition optimize_key (x : OptimizeRow) : option Q :=
  if negb (Qle_bool (or_avg_wait x) 0) then Some (or_avg_wait x) else None.

(** [a < b] on keys. *)
Definition key_lt (a b : option Q) : bool :=
  match a, b with
  | Some x, Some y => negb (Qle_bool y x)
  | Some _, None => true
  | None, _ => false
  end.

(** [min(items, key=...)] on a list with a first item: the first item
    whose key no other item undercuts. *)
Definition py_min {A : Type} (key : A -> option Q) (first : A) (rest : list A)
  : A :=
  fold_left (fun best item => if key_lt (key item) (key best)
                              then item else best)
            rest first.

Section OptimizeEndpoint.

Variable np_sqrt : Q -> Q.

(** The loop [for num_servers in range(1, 6)] over the server counts
    still to come.  The runs share the random source: each run draws
    where the run before it stopped, [offset] draws into the stream. *)
Fixpoint optimize_runs (arrival_rate service_rate : Q) (rnd : nat -> Q)
         (fuel : nat) (servers : list Z) (offset : nat)
         (results : list OptimizeRow) : outcome (list OptimizeRow) :=
  match servers with
  | [] => Ok results
  | num_servers :: servers' =>
      let cfg := mkConfig arrival_rate service_rate num_servers 480 50 in
      match run_engine cfg (fun n => rnd (offset + n)%nat) fuel with
      | Ok w =>
          let result := calculate_metrics np_sqrt cfg (self w) in
          optimize_runs
            arrival_rate service_rate rnd fuel servers' (offset + rng w)
            (results
             ++ [{| or_servers := num_servers;
                    or_avg_wait := res_avg_wait_time result;
                    or_utilization := res_server_utilization result;
                    or_customers_served := res_customers_served result |}])
      | Raise e => Raise e
      | OutOfFuel => OutOfFuel
      end
  end.

(** [optimize] of [app.py] between the parsing of the request and the
    building of the response: the table and its optimal row. *)
Definition optimize (arrival_rate service_rate : Q) (rnd : nat -> Q)
           (fuel : nat) : outcome (list OptimizeRow * OptimizeRow) :=
  match optimize_runs arrival_rate service_rate rnd fuel
                      [1; 2; 3; 4; 5]%Z 0 [] with
  | Ok results =>
      match results with
      | [] => Raise ValueError
      | first :: rest => Ok (results, py_min optimize_key first rest)
      end
  | Raise e => Raise e
  | OutOfFuel => OutOfFuel
  end.

End OptimizeEndpoint.


(* ================================================================ *)
(** * Part II: invariants and measures of the event loop *)
(* ================================================================ *)

(** Heap entries compared as tuples: [a] is not after [b]. *)
Definition entry_le (a b : Entry) : Prop := entry_lt b a = false.

Definition is_init (ev : Event) : bool :=
  match ev with InitGenerator | InitCustomer _ => true | _ => false end.

Definition is_init_customer (ev : Event) : bool :=
  match ev with InitCustomer _ => true | _ => false end.

Definition is_service_timeout (ev : Event) : bool :=
  match ev with ServiceTimeout _ _ _ => true | _ => false end.

Definition is_failed (ev : Event) : bool :=
  match ev with ProcessFailed _ => true | _ => false end.

Definition count_ev (p : Event -> bool) (h : list Entry) : nat :=
  count_if (fun e => p (e_event e)) h.

(** The customer a pending entry keeps on a server: a granted request not
    yet resumed, or a service in progress. *)
Definition holder (e : Entry) : list nat :=
  match e_event e with
  | RequestGranted c _ => [c]
  | ServiceTimeout c _ _ => [c]
  | _ => []
  end.

Definition holders (h : list Entry) : list nat := flat_map holder h.

(** Customers admitted and not yet through: about to start, waiting, or
    holding a server. *)
Definition in_system (w : World) : nat :=
  (count_ev is_init_customer (heap w) + length (put_queue w)
   + length (users w))%nat.

(** Services begun and not completed. *)
Definition in_service (w : World) : nat :=
  count_ev is_service_timeout (heap w).

(** A process has raised and its failure is still to be popped. *)
Definition failing (w : World) : bool :=
  existsb (fun e => is_failed (e_event e)) (heap w).

(** Time a pending service has been running at instant [t]. *)
Definition service_elapsed (t : Q) (e : Entry) : Q :=
  match e_event e with
  | ServiceTimeout _ _ d => t - (e_time e - d)
  | _ => 0
  end.

(** Events that exist only once a customer was admitted. *)
Definition is_customer_event (ev : Event) : bool :=
  match ev with
  | InitCustomer _ | RequestGranted _ _ | ServiceTimeout _ _ _
  | Released | ProcessDone => true
  | _ => false
  end.

(** Nobody was ever admitted: every arrival so far was rejected. *)
Record AllRejected (w : World) : Prop := mkAllRejected {
  rej_heap     : count_ev is_customer_event (heap w) = 0%nat;
  rej_queue    : put_queue w = [];
  rej_users    : users w = [];
  rej_served   : customers_served (self w) = 0%nat;
  rej_rejected : customers_rejected (self w)
                = length (arrival_times (self w));
  rej_wait     : wait_times (self w) = [];
  rej_service  : service_times (self w) = []
}.

(** The instant of the k-th arrival when every draw goes to the
    generator: the running sum of the inter-arrival times. *)
Fixpoint arrival_instant (rate : Q) (rnd : nat -> Q) (k : nat) : Q :=
  match k with
  | O => 0
  | S k' => arrival_instant rate rnd k' + rnd k' / rate
  end.

(** A world in which the generator runs alone: [j] draws made, nobody in
    the pool, and in the heap the next arrival and the until event,
    whichever comes first. *)
Definition generator_alone (cfg : Config) (rnd : nat -> Q) (j : nat)
           (w : World) : Prop :=
  rng w = j /\ users w = [] /\ put_queue w = []
  /\ exists c t u e1 e2,
       t == arrival_instant (arrival_rate cfg) rnd j
       /\ u == sim_time cfg
       /\ ((t < u
            /\ heap w = [mkEntry t NORMAL e1 (ArrivalTimeout c);
                         mkEntry u URGENT e2 Until])
           \/ (u <= t
               /\ heap w = [mkEntry u URGENT e2 Until;
                            mkEntry t NORMAL e1 (ArrivalTimeout c)])).

(** [heappop] and the move of the clock: the world a popped entry's
    callbacks run in. *)
Definition popped (w : World) (x : Entry) (t : list Entry) : World :=
  mkWorld (e_time x) t (eid w) (users w) (put_queue w) (rng w) (self w).

Section Invariants.

Variable cfg : Config.

(** What each kind of entry looks like in the heap. *)
Definition entry_ok (e : Entry) : Prop :=
  match e_event e with
  | InitGenerator | InitCustomer _ =>
      e_prio e = URGENT /\ e_time e < sim_time cfg
  | Until => e_prio e = URGENT /\ e_time e == sim_time cfg
  | ProcessFailed _ => e_prio e = NORMAL /\ e_time e < sim_time cfg
  | _ => e_prio e = NORMAL
  end.

(** The scheduler: a sorted heap of future entries, the until event
    among them, the clock short of the horizon. *)
Record SchedInv (w : World) : Prop := mkSchedInv {
  sched_sorted  : StronglySorted entry_le (heap w);
  sched_future  : Forall (fun e => now w <= e_time e) (heap w);
  sched_entries : Forall entry_ok (heap w);
  sched_nonneg  : 0 <= now w;
  sched_horizon : now w < sim_time cfg;
  sched_until   : Exists (fun e => e_event e = Until) (heap w)
}.

(** A process being initialised is the next entry to be popped; a
    customer being initialised still has room in the waiting line. *)
Definition inits_first (h : list Entry) (waiting : nat) : Prop :=
  match h with
  | [] => True
  | x :: t =>
      Forall (fun e => is_init (e_event e) = false) t
      /\ (is_init_customer (e_event x) = true ->
          (Z.of_nat waiting < queue_capacity cfg)%Z)
  end.

(** The server pool and its waiting line. *)
Record ResInv (w : World) : Prop := mkResInv {
  pool_users   : (Z.of_nat (length (users w)) <= num_servers cfg)%Z;
  pool_queue   : (Z.of_nat (length (put_queue w))
                 <= Z.max 0 (queue_capacity cfg))%Z;
  pool_inits   : inits_first (heap w) (length (put_queue w));
  pool_holders : Permutation (users w) (holders (heap w))
}.

(** The pool between the pop of an entry and the end of its callbacks:
    [owed] lists the customers whose popped entry held a server and who
    have not yet released it or resumed their service. *)
Definition ResMid (owed : list nat) (w : World) : Prop :=
  (Z.of_nat (length (users w)) <= num_servers cfg)%Z
  /\ (Z.of_nat (length (put_queue w)) <= Z.max 0 (queue_capacity cfg))%Z
  /\ Forall (fun e => is_init (e_event e) = false) (heap w)
  /\ Permutation (users w) (owed ++ holders (heap w)).

(** Every arrival is served, rejected or still in the system; every
    completion recorded was counted. *)
Record AcctInv (w : World) : Prop := mkAcctInv {
  acct_arrivals :
    failing w = false ->
    length (arrival_times (self w))
    = (customers_served (self w) + customers_rejected (self w)
       + in_system w)%nat;
  acct_system :
    length (system_times (self w)) = customers_served (self w);
  acct_service :
    failing w = false ->
    length (service_times (self w))
    = (customers_served (self w) + in_service w)%nat
    /\ length (wait_times (self w)) = length (service_times (self w))
}.

(** A pending service began at or before instant [t] and lasts a
    non-negative time. *)
Definition started_by (t : Q) (e : Entry) : Prop :=
  match e_event e with
  | ServiceTimeout _ _ d => 0 <= d /\ e_time e - d <= t
  | _ => True
  end.

(** Busy time credited so far, plus the time the services in progress
    have run, fits in [num_servers] servers over [0, now]. *)
Record BusyInv (w : World) : Prop := mkBusyInv {
  busy_nonneg : 0 <= server_busy_time (self w);
  busy_started : Forall (started_by (now w)) (heap w);
  busy_bound :
    server_busy_time (self w)
    + Qsum (map (service_elapsed (now w)) (heap w))
    <= inject_Z (num_servers cfg) * now w
}.

(** The busy-time bound between a pop and the end of its callbacks:
    [credit] is the running time of the service the popped entry
    completes, not yet added to [server_busy_time]. *)
Definition BusyMid (credit : Q) (w : World) : Prop :=
  0 <= server_busy_time (self w)
  /\ 0 <= credit
  /\ Forall (started_by (now w)) (heap w)
  /\ server_busy_time (self w) + credit
     + Qsum (map (service_elapsed (now w)) (heap w))
     <= inject_Z (num_servers cfg) * now w.

(** A pending service began strictly before the horizon. *)
Definition began_before_horizon (e : Entry) : Prop :=
  match e_event e with
  | ServiceTimeout _ _ d => e_time e - d < sim_time cfg
  | _ => True
  end.

Definition Inv (w : World) : Prop :=
  SchedInv w /\ ResInv w /\ AcctInv w /\ BusyInv w.

(** Worlds the event loop passes through, from the one [env.run]
    starts on. *)
Inductive reachable (rnd : nat -> Q) : World -> Prop :=
| reach_start w :
    start_world cfg = Ok w -> reachable rnd w
| reach_step w w' :
    reachable rnd w -> step cfg rnd w = Continue w' -> reachable rnd w'.

(** The world after [n] iterations of the event loop, if it gets that
    far without stopping or raising. *)
Fixpoint steps (rnd : nat -> Q) (n : nat) (w : World) : option World :=
  match n with
  | O => Some w
  | S n' =>
      match step cfg rnd w with
      | Continue w' => steps rnd n' w'
      | _ => None
      end
  end.

Definition world_at (rnd : nat -> Q) (n : nat) : option World :=
  match start_world cfg with
  | Ok w => steps rnd n w
  | _ => None
  end.

End Invariants.

(** ** Work left, a bound on the events still to be processed *)

(** The least inter-arrival time when no draw is below [delta]. *)
Definition min_gap (cfg : Config) (delta : Q) : Q := delta / arrival_rate cfg.

Section Work.

Variable cfg : Config.

(** A lower bound on the inter-arrival times. *)
Variable gap : Q.

(** Arrivals that can still happen from instant [t] to the horizon. *)
Definition arrivals_left (t : Q) : nat :=
  Z.to_nat (Qceiling ((sim_time cfg - t) / gap)).

(** Events an entry stands for: itself and what it will schedule.  An
    arrival stands for the customer it may admit (six events) and for
    the next arrival. *)
Definition entry_work (e : Entry) : nat :=
  match e_event e with
  | InitGenerator => 2 + 6 * arrivals_left (e_time e)
  | ArrivalTimeout _ => 1 + 6 * arrivals_left (e_time e)
  | InitCustomer _ => 5
  | RequestGranted _ _ => 4
  | ServiceTimeout _ _ _ => 3
  | Released => 1
  | ProcessDone => 1
  | ProcessFailed _ => 1
  | Until => 0
  end.

Definition work (w : World) : nat :=
  (list_sum (map entry_work (heap w)) + 4 * length (put_queue w))%nat.

End Work.

(** ** Concrete runs used to exercise the statements *)

(** One server, horizon 5, room for ten waiting customers. *)
Definition cfg_small : Config := mkConfig 1 1 1 5 10.

(** The first customer arrives at 1 and draws a service time of 10; the
    second arrival is due at 11. *)
Definition rnd_long_service (n : nat) : Q := nth n [1; 10; 10] 100.

(** Arrivals at 1, 2, 3 and 4; services of 1/2, 2, 1/4 and 7, the last
    one cut off by the horizon. *)
Definition rnd_busy (n : nat) : Q :=
  nth n [1; 1; 1 # 2; 1; 2; 1; 1; 1 # 4; 7] 100.

(** A negative queue capacity. *)
Definition cfg_negative_queue : Config := mkConfig 1 1 1 5 (-1).

(** [np.sqrt] replaced by the identity where only its sign matters. *)
Definition sqrt_stub (x : Q) : Q := x.

(** The world of the busy run after twelve events: customer 2 is being
    served, customer 3 waits. *)
Definition world_busy_12 : World := Eval vm_compute in
    match world_at cfg_small rnd_busy 12 with
    | Some w => w
    | None => initial_world
    end.

(** The world the busy run returns in. *)
Definition world_busy_final : World := Eval vm_compute in
    match run_engine cfg_small rnd_busy 40 with
    | Ok w => w
    | _ => initial_world
    end.

(** The world the run with a negative queue capacity returns in. *)
Definition world_rejecting : World := Eval vm_compute in
    match run_engine cfg_negative_queue rnd_busy 40 with
    | Ok w => w
    | _ => initial_world
    end.

(** The result bundle of the busy run. *)
Definition result_busy : Result := Eval vm_compute in
    match run sqrt_stub cfg_small rnd_busy 40 with
    | Ok r => r
    | _ => calculate_metrics sqrt_stub cfg_small init_sim
    end.

(** Stand-ins for the SciPy routines, for concrete evaluation only. *)
Definition pair_stub (l : list Q) : Q * Q := (Qlen l, 1 # 2).
Definition kstest_stub (l : list Q) (loc scale : Q) : Q * Q := (scale, 1 # 2).
Definition t_ppf_stub (p : Q) (df : nat) : Q := 2.
Definition ttest_stub (l : list Q) (m : Q) : Q * Q := (np_mean l - m, 1 # 2).
Definition pearsonr_stub (a b : list Q) : pyfloat * pyfloat :=
  (Finite 0, Finite 1).

(** An engine state with 101 waits: a hundred of 1, then one of 5. *)
Definition sim_101_a : Sim :=
  mkSim 101 0 (repeat 1 100 ++ [5]) (repeat 2 100 ++ [3]) [] [] [] 0 0.

(** Another one: the first hundred entries differ below the second
    decimal, the last entry differs at will. *)
Definition sim_101_b : Sim :=
  mkSim 101 0 (repeat (1001 # 1000) 100 ++ [9]) (repeat (1999 # 1000) 100 ++ [7])
        [] [] [] 0 0.

(** Six arrival timestamps falling into five unit bins. *)
Definition six_arrivals : list Q := [1; 1; 2; 3; 4; 5].

(** Draws of 6: the first arrival is due after the horizon of
    [cfg_small]. *)
Definition rnd_late (n : nat) : Q := 6.

(** The world a run with a zero service rate and no arrival before the
    horizon returns in. *)
Definition world_idle : World := Eval vm_compute in
    match run_engine (mkConfig 1 0 1 5 10) rnd_late 40 with
    | Ok w => w
    | _ => initial_world
    end.

(** Two runs with one customer each, whose service times 1.001 and 1.002
    differ only past the second decimal. *)
Definition rnd_service_a (n : nat) : Q := nth n [1; 10; 1001 # 1000] 100.
Definition rnd_service_b (n : nat) : Q := nth n [1; 10; 1002 # 1000] 100.

Definition world_service_a : World := Eval vm_compute in
    match run_engine cfg_small rnd_service_a 40 with
    | Ok w => w
    | _ => initial_world
    end.

Definition world_service_b : World := Eval vm_compute in
    match run_engine cfg_small rnd_service_b 40 with
    | Ok w => w
    | _ => initial_world
    end.

(** ** What the observations of a run look like *)

Definition is_init_generator (ev : Event) : bool :=
  match ev with InitGenerator => true | _ => false end.

(** A customer whose entry is pending arrived no later than that entry is
    due. *)
Definition arrived_by (e : Entry) : Prop :=
  match e_event e with
  | RequestGranted _ a => a <= e_time e
  | ServiceTimeout _ a _ => a <= e_time e
  | _ => True
  end.

(** The service time of a service in progress. *)
Definition pending_service_time (e : Entry) : Q :=
  match e_event e with
  | ServiceTimeout _ _ d => d
  | _ => 0
  end.

Section Observations.

Variable cfg : Config.

(** The recorded series, the waiting line and the draws made so far. *)
Record ObsInv (w : World) : Prop := mkObsInv {
  obs_waits    : Forall (fun t => 0 <= t) (wait_times (self w));
  obs_systems  : Forall (fun t => 0 <= t) (system_times (self w));
  obs_sorted   : StronglySorted Qle (arrival_times (self w));
  obs_range    : Forall (fun t => 0 <= t /\ t <= now w)
                        (arrival_times (self w));
  obs_line     : StronglySorted Qle (map snd (put_queue w));
  obs_waiting  : Forall (fun p => snd p <= now w) (put_queue w);
  obs_pending  : Forall arrived_by (heap w);
  obs_samples  : Forall (fun q => (Z.of_nat q < queue_capacity cfg)%Z)
                        (queue_lengths (self w));
  obs_max      : max_queue_length (self w)
                 = list_max (queue_lengths (self w));
  obs_entered  : length (arrival_times (self w))
                 = (customers_rejected (self w)
                    + length (queue_lengths (self w))
                    + count_ev is_init_customer (heap w))%nat;
  obs_draws    : (rng w + count_ev is_init_generator (heap w))%nat
                 = (1 + length (arrival_times (self w))
                    + length (wait_times (self w)))%nat
}.

(** The same between the pop of an entry and the end of its callbacks:
    [ci] and [gi] count the popped entry when it is the initialisation
    of a customer or of the generator and has not been acted on. *)
Record ObsMid (ci gi : nat) (w : World) : Prop := mkObsMid {
  mid_waits    : Forall (fun t => 0 <= t) (wait_times (self w));
  mid_systems  : Forall (fun t => 0 <= t) (system_times (self w));
  mid_sorted   : StronglySorted Qle (arrival_times (self w));
  mid_range    : Forall (fun t => 0 <= t /\ t <= now w)
                        (arrival_times (self w));
  mid_line     : StronglySorted Qle (map snd (put_queue w));
  mid_waiting  : Forall (fun p => snd p <= now w) (put_queue w);
  mid_pending  : Forall arrived_by (heap w);
  mid_now      : 0 <= now w;
  mid_samples  : Forall (fun q => (Z.of_nat q < queue_capacity cfg)%Z)
                        (queue_lengths (self w));
  mid_max      : max_queue_length (self w)
                 = list_max (queue_lengths (self w));
  mid_entered  : length (arrival_times (self w))
                 = (customers_rejected (self w)
                    + length (queue_lengths (self w))
                    + (ci + count_ev is_init_customer (heap w)))%nat;
  mid_draws    : (rng w + (gi + count_ev is_init_generator (heap w)))%nat
                 = (1 + length (arrival_times (self w))
                    + length (wait_times (self w)))%nat
}.

(** The service times drawn are the busy time credited plus the service
    times of the services in progress. *)
Definition ServiceSum (w : World) : Prop :=
  failing w = false ->
  Qsum (service_times (self w))
  == server_busy_time (self w)
     + Qsum (map pending_service_time (heap w)).

End Observations.

(** In a world where no failure is pending, every service time drawn so
    far is non-negative. *)
Definition ServiceNonneg (w : World) : Prop :=
  failing w = false -> Forall (fun t => 0 <= t) (service_times (self w)).

(** [l'] is [l] with entries added at the back or taken from the front,
    at most one of each. *)
Definition fifo_change {A : Type} (l l' : list A) : Prop :=
  l' = l \/ l' = tl l \/ exists p, l' = l ++ [p] \/ l' = tl (l ++ [p]).

(** The value [np_percentile] reads off a sorted list at a fractional
    position. *)
Definition interpolate (s : list Q) (pos : Q) : Q :=
  let lo := Z.to_nat (Qfloor pos) in
  let frac := pos - inject_Z (Qfloor pos) in
  let a := nth lo s 0 in
  let b := nth (S lo) s a in
  a + frac * (b - a).

(** Ten arrival timestamps, not in order. *)
Definition ten_arrivals : list Q := [3; 1; 2; 5; 4; 6; 8; 7; 10; 9 # 2].

(** Turn a boolean comparison of lengths in hypothesis [E] into the
    proposition it decides. *)
Ltac ltb_prop E :=
  match type of E with
  | (_ <? _)%nat = true => apply Nat.ltb_lt in E
  | (_ <? _)%nat = false => apply Nat.ltb_ge in E
  end.

(** Draws that are all 1: every inter-arrival time is [1 / arrival_rate]
    and every service time [1 / service_rate]. *)
Definition rnd_unit (n : nat) : Q := 1.

(** The optimize endpoint on one arrival every 100 minutes and services of
    150 minutes. *)
Definition optimize_slow : list OptimizeRow * OptimizeRow := Eval vm_compute in
    match optimize sqrt_stub (1 # 100) (1 # 150) rnd_unit 100 with
    | Ok p => p
    | _ => ([], mkOptimizeRow 0 0 0 0)
    end.

(** What processing the heap entry [x] changes in the records of
    completed services, from the engine state [s] before to [s'] after:
    one more customer served, one more system time and the service time
    added to the busy time when [x] is the end of a service, nothing
    otherwise. *)
Definition completion_recorded (x : Entry) (s s' : Sim) : Prop :=
  match e_event x with
  | ServiceTimeout _ arrival_time service_time =>
      customers_served s' = S (customers_served s)
      /\ system_times s' = system_times s ++ [e_time x - arrival_time]
      /\ server_busy_time s' = server_busy_time s + service_time
  | _ =>
      customers_served s' = customers_served s
      /\ system_times s' = system_times s
      /\ server_busy_time s' = server_busy_time s
  end.

(** Two unit bins and three timestamps, the last one beyond the bins. *)
Definition unit_edges : list Q := [0; 1; 2].
Definition three_stamps : list Q := [1 # 2; 3 # 2; 5 # 2].

(** One arrival a minute, services of 100 minutes, one server and room
    for 22 in the line, over 40 minutes: the line fills up and the later
    arrivals are rejected. *)
Definition cfg_crowded : Config := mkConfig 1 (1 # 100) 1 40 22.

Definition result_crowded : Result := Eval vm_compute in
    match run sqrt_stub cfg_crowded rnd_unit 400 with
    | Ok r => r
    | _ => calculate_metrics sqrt_stub cfg_crowded init_sim
    end.

(** One arrival a minute and services of one minute on one server, over
    40 minutes: the server is busy nearly all the time. *)
Definition cfg_steady : Config := mkConfig 1 1 1 40 10.

Definition result_steady : Result := Eval vm_compute in
    match run sqrt_stub cfg_steady rnd_unit 400 with
    | Ok r => r
    | _ => calculate_metrics sqrt_stub cfg_steady init_sim
    end.

(** What processing the heap entry [x] records of a service that begins,
    from the world [w] before to the world [w'] after: when [x] grants a
    server to a customer, the wait is recorded and, unless the process
    raises, a service time is drawn and recorded and the end of the
    service is scheduled that long after the instant of [x]; otherwise
    neither series changes. *)
Definition service_begun (x : Entry) (w w' : World) : Prop :=
  match e_event x with
  | RequestGranted customer_id arrival_time =>
      wait_times (self w') = wait_times (self w) ++ [e_time x - arrival_time]
      /\ (failing w' = false ->
          exists service_time,
            service_times (self w')
            = service_times (self w) ++ [service_time]
            /\ In (mkEntry (e_time x + service_time) NORMAL (eid w)
                           (ServiceTimeout customer_id arrival_time
                                           service_time))
                  (heap w'))
  | _ =>
      wait_times (self w') = wait_times (self w)
      /\ service_times (self w') = service_times (self w)
  end.

(* ================================================================ *)
(** * Part III: the invariants hold *)
(* ================================================================ *)

(** ** The order of heap entries *)

Lemma entry_lt_true_iff a b :
  entry_lt a b = true <->
  e_time a < e_time b \/
  (e_time a == e_time b /\
   ((e_prio a < e_prio b)%nat \/ (e_prio a = e_prio b /\ (e_eid a < e_eid b)%nat))).
Proof.
  unfold entry_lt.
  destruct (e_time a ?= e_time b) eqn:C.
  - apply Qeq_alt in C.
    rewrite orb_true_iff, andb_true_iff, !Nat.ltb_lt, Nat.eqb_eq.
    split; [intros H; right; split; [exact C | exact H] |].
    intros [H | [_ H]]; [lra | exact H].
  - apply Qlt_alt in C. split; [intros _; left; exact C | reflexivity].
  - apply Qgt_alt in C. split; [discriminate |].
    intros [H | [H _]]; lra.
Qed.

Lemma entry_le_iff a b :
  entry_le a b <->
  e_time a < e_time b \/
  (e_time a == e_time b /\
   ((e_prio a < e_prio b)%nat \/ (e_prio a = e_prio b /\ (e_eid a <= e_eid b)%nat))).
Proof.
  unfold entry_le. rewrite <- not_true_iff_false, entry_lt_true_iff.
  destruct (Qlt_le_dec (e_time a) (e_time b)) as [H | H].
  - split; [intros _; left; exact H |]. intros _ [H1 | [H1 _]]; lra.
  - destruct (Qlt_le_dec (e_time b) (e_time a)) as [H1 | H1].
    + split; [intros N; exfalso; apply N; left; exact H1 |].
      intros [H2 | [H2 _]]; lra.
    + assert (E : e_time a == e_time b) by lra.
      split.
      * intros N. right. split; [exact E |].
        destruct (Nat.lt_trichotomy (e_prio a) (e_prio b)) as [L | [L | L]].
        -- left; exact L.
        -- right. split; [exact L |].
           destruct (Nat.le_gt_cases (e_eid a) (e_eid b)) as [G | G]; [exact G |].
           exfalso. apply N. right. split; [lra |]. right. split; [lia | exact G].
        -- exfalso. apply N. right. split; [lra |]. left. exact L.
      * intros [H2 | [_ H2]] [H3 | [_ H3]]; try lra; lia.
Qed.

Lemma entry_le_time a b : entry_le a b -> e_time a <= e_time b.
Proof. rewrite entry_le_iff. intros [H | [H _]]; lra. Qed.

Lemma entry_le_trans a b c : entry_le a b -> entry_le b c -> entry_le a c.
Proof.
  rewrite !entry_le_iff.
  intros [H1 | [H1 H1']] [H2 | [H2 H2']]; try (left; lra).
  right. split; [lra | lia].
Qed.

Lemma entry_lt_le a b : entry_lt a b = true -> entry_le a b.
Proof.
  rewrite entry_lt_true_iff, entry_le_iff.
  intros [H | [H H']]; [left; exact H | right; split; [exact H | lia]].
Qed.

Lemma heappush_perm x h : Permutation (heappush x h) (x :: h).
Proof.
  induction h as [| y h IH]; simpl; [reflexivity |].
  destruct (entry_lt x y); [reflexivity |].
  rewrite IH. apply perm_swap.
Qed.

Lemma Forall_heappush (P : Entry -> Prop) x h :
  Forall P (heappush x h) <-> P x /\ Forall P h.
Proof.
  split.
  - intros H. apply (Permutation_Forall (heappush_perm x h)) in H.
    inversion H; auto.
  - intros [H1 H2]. apply (Permutation_Forall (Permutation_sym (heappush_perm x h))).
    constructor; assumption.
Qed.

Lemma heappush_sorted x h :
  StronglySorted entry_le h -> StronglySorted entry_le (heappush x h).
Proof.
  induction h as [| y h IH]; intros S; simpl.
  - constructor; constructor.
  - destruct (entry_lt x y) eqn:C.
    + constructor; [exact S |].
      apply StronglySorted_inv in S. destruct S as [_ F].
      constructor; [apply entry_lt_le; exact C |].
      eapply Forall_impl; [| exact F].
      intros z Hz. eapply entry_le_trans; [apply entry_lt_le; exact C | exact Hz].
    + apply StronglySorted_inv in S. destruct S as [S F].
      constructor; [apply IH; exact S |].
      apply Forall_heappush. split; [exact C | exact F].
Qed.

(** ** The scheduler invariant *)

Section SchedulerFacts.

Variable cfg : Config.
Variable rnd : nat -> Q.

Lemma sched_schedule w ev prio d :
  SchedInv cfg w -> 0 <= d ->
  entry_ok cfg (mkEntry (now w + d) prio (eid w) ev) ->
  SchedInv cfg (schedule ev prio d w).
Proof.
  intros [S F E N H U] Hd He.
  constructor; simpl; try assumption.
  - apply heappush_sorted; exact S.
  - apply Forall_heappush. split; [simpl; lra | exact F].
  - apply Forall_heappush. split; assumption.
  - apply Exists_exists in U. destruct U as [u [Hu1 Hu2]].
    apply Exists_exists. exists u. split; [| exact Hu2].
    apply (Permutation_in u (Permutation_sym (heappush_perm _ _))).
    right. exact Hu1.
Qed.

Lemma sched_frame w w' :
  now w' = now w -> heap w' = heap w -> SchedInv cfg w -> SchedInv cfg w'.
Proof.
  intros Hn Hh [S F E N H U].
  constructor; rewrite ?Hn, ?Hh; assumption.
Qed.

Lemma sched_fail w e : SchedInv cfg w -> SchedInv cfg (fail e w).
Proof.
  intros I. apply sched_schedule; [exact I | lra |].
  unfold entry_ok; simpl. split; [reflexivity |].
  pose proof (sched_horizon _ _ I). lra.
Qed.

Lemma sched_trigger_put w : SchedInv cfg w -> SchedInv cfg (trigger_put cfg w).
Proof.
  intros I. unfold trigger_put.
  destruct (put_queue w) as [| [cid arr] rest]; [exact I |].
  destruct (Z.of_nat (length (users w)) <? num_servers cfg)%Z; [| exact I].
  apply sched_schedule; [| lra | reflexivity].
  eapply sched_frame; [| | exact I]; reflexivity.
Qed.

Lemma sched_release w cid : SchedInv cfg w -> SchedInv cfg (release cid w).
Proof.
  intros I. unfold release.
  apply sched_schedule; [| lra | reflexivity].
  eapply sched_frame; [| | exact I]; reflexivity.
Qed.

Lemma sched_generator_loop w c :
  SchedInv cfg w -> SchedInv cfg (customer_generator_loop cfg rnd c w).
Proof.
  intros I. unfold customer_generator_loop, expovariate.
  destruct (Qeq_bool (arrival_rate cfg) 0).
  - apply sched_fail. eapply sched_frame; [| | exact I]; reflexivity.
  - destruct (Qle_bool 0 (rnd (rng w) / arrival_rate cfg)) eqn:D.
    + apply Qle_bool_iff in D.
      apply sched_schedule; [| exact D | reflexivity].
      eapply sched_frame; [| | exact I]; reflexivity.
    + apply sched_fail. eapply sched_frame; [| | exact I]; reflexivity.
Qed.

Lemma sched_generator_resume w c :
  SchedInv cfg w -> SchedInv cfg (customer_generator_resume cfg rnd c w).
Proof.
  intros I. unfold customer_generator_resume.
  apply sched_generator_loop.
  match goal with |- context [if ?b then _ else _] => destruct b end.
  - apply sched_schedule; [| lra |].
    + eapply sched_frame; [| | exact I]; reflexivity.
    + unfold entry_ok; simpl. split; [reflexivity |].
      pose proof (sched_horizon _ _ I). lra.
  - eapply sched_frame; [| | exact I]; reflexivity.
Qed.

Lemma sched_process_start w c :
  SchedInv cfg w -> SchedInv cfg (customer_process_start cfg c w).
Proof.
  intros I. unfold customer_process_start, request.
  apply sched_trigger_put.
  eapply sched_frame; [| | exact I]; reflexivity.
Qed.

Lemma sched_process_granted w c a :
  SchedInv cfg w -> SchedInv cfg (customer_process_granted cfg rnd c a w).
Proof.
  intros I. unfold customer_process_granted, expovariate.
  destruct (Qeq_bool (service_rate cfg) 0).
  - apply sched_fail, sched_release.
    eapply sched_frame; [| | exact I]; reflexivity.
  - cbn [fst snd].
    match goal with |- context [Qle_bool 0 ?d] =>
      destruct (Qle_bool 0 d) eqn:D end.
    + apply Qle_bool_iff in D.
      apply sched_schedule; [| exact D | reflexivity].
      eapply sched_frame; [| | exact I]; reflexivity.
    + apply sched_fail, sched_release.
      eapply sched_frame; [| | exact I]; reflexivity.
Qed.

Lemma sched_process_served w c a d :
  SchedInv cfg w -> SchedInv cfg (customer_process_served c a d w).
Proof.
  intros I. unfold customer_process_served.
  apply sched_schedule; [| lra | reflexivity].
  apply sched_release.
  eapply sched_frame; [| | exact I]; reflexivity.
Qed.

(** An entry popped while the until event is still pending lies
    strictly before the horizon. *)
Lemma popped_before_horizon w x t :
  SchedInv cfg w -> heap w = x :: t -> e_event x <> Until ->
  e_time x < sim_time cfg.
Proof.
  intros [S F E N H U] Hh Hx. rewrite Hh in *.
  apply StronglySorted_inv in S. destruct S as [_ S].
  inversion E as [| ? ? Ex Et]; subst.
  inversion U as [? ? Hu | ? ? Hu]; subst; [contradiction |].
  apply Exists_exists in Hu. destruct Hu as [u [Hin Hu]].
  rewrite Forall_forall in S, Et.
  specialize (S u Hin). specialize (Et u Hin).
  unfold entry_ok in Et. rewrite Hu in Et. destruct Et as [Pu Tu].
  apply entry_le_iff in S.
  destruct S as [L | [Eq [L | [L _]]]]; [lra | rewrite Pu in L; inversion L |].
  rewrite Pu in L. unfold entry_ok in Ex.
  destruct (e_event x); try (destruct Ex; lra); try contradiction;
    try (rewrite Ex in L; discriminate).
Qed.

Lemma sched_pop w x t :
  SchedInv cfg w -> heap w = x :: t -> e_event x <> Until ->
  SchedInv cfg (popped w x t).
Proof.
  intros I Hh Hx.
  pose proof (popped_before_horizon _ _ _ I Hh Hx) as Hlt.
  destruct I as [S F E N H U]. rewrite Hh in *.
  apply StronglySorted_inv in S. destruct S as [S Sx].
  inversion F; subst. inversion E; subst.
  constructor; simpl; try assumption.
  - eapply Forall_impl; [| exact Sx]. intros e. apply entry_le_time.
  - lra.
  - inversion U; subst; [contradiction | assumption].
Qed.

Lemma step_cases w :
  match heap w with
  | [] => step cfg rnd w = Raised RuntimeError
  | x :: t =>
      let w1 := popped w x t in
      step cfg rnd w =
      match e_event x with
      | InitGenerator => Continue (customer_generator_loop cfg rnd 0 w1)
      | InitCustomer cid => Continue (customer_process_start cfg cid w1)
      | ArrivalTimeout cid => Continue (customer_generator_resume cfg rnd cid w1)
      | RequestGranted cid arr =>
          Continue (customer_process_granted cfg rnd cid arr w1)
      | ServiceTimeout cid arr st =>
          Continue (customer_process_served cid arr st w1)
      | Released => Continue (trigger_put cfg w1)
      | ProcessDone => Continue w1
      | ProcessFailed e => Raised e
      | Until => Stopped w1
      end
  end.
Proof. unfold step, popped. destruct (heap w); reflexivity. Qed.

Lemma sched_step w w' :
  SchedInv cfg w -> step cfg rnd w = Continue w' -> SchedInv cfg w'.
Proof.
  intros I Hs. pose proof (step_cases w) as C.
  destruct (heap w) as [| x t] eqn:Hh; [congruence |].
  cbv zeta in C. rewrite C in Hs.
  assert (P : e_event x <> Until -> SchedInv cfg (popped w x t))
    by (intros; apply sched_pop; assumption).
  destruct (e_event x); inversion Hs; subst;
    assert (P' : SchedInv cfg (popped w x t)) by (apply P; discriminate).
  - apply sched_generator_loop; exact P'.
  - apply sched_process_start; exact P'.
  - apply sched_generator_resume; exact P'.
  - apply sched_process_granted; exact P'.
  - apply sched_process_served; exact P'.
  - apply sched_trigger_put; exact P'.
  - exact P'.
Qed.

End SchedulerFacts.

(** ** The server pool invariant *)

Lemma holders_heappush e h :
  Permutation (holders (heappush e h)) (holder e ++ holders h).
Proof.
  unfold holders.
  change (holder e ++ flat_map holder h) with (flat_map holder (e :: h)).
  apply Permutation_flat_map, heappush_perm.
Qed.

Lemma remove_first_perm c l l' :
  Permutation l (c :: l') -> Permutation (remove_first c l) l'.
Proof.
  intros P.
  assert (Hin : In c l)
    by (apply (Permutation_in c (Permutation_sym P)); left; reflexivity).
  assert (Q : Permutation l (c :: remove_first c l)).
  { clear P. induction l as [| y l IH]; [destruct Hin |]. simpl.
    destruct (Nat.eqb c y) eqn:E.
    - apply Nat.eqb_eq in E. subst. reflexivity.
    - destruct Hin as [-> | Hin]; [rewrite Nat.eqb_refl in E; discriminate |].
      rewrite (IH Hin) at 1. apply perm_swap. }
  apply (Permutation_cons_inv (a := c)).
  rewrite <- Q. exact P.
Qed.

Lemma remove_first_length c l : (length (remove_first c l) <= length l)%nat.
Proof.
  induction l as [| y l IH]; simpl; [lia |].
  destruct (Nat.eqb c y); simpl; lia.
Qed.

Section ResourceFacts.

Variable cfg : Config.
Variable rnd : nat -> Q.

Lemma resmid_frame owed w w' :
  heap w' = heap w -> users w' = users w -> put_queue w' = put_queue w ->
  ResMid cfg owed w -> ResMid cfg owed w'.
Proof.
  intros Hh Hu Hq (R1 & R2 & R3 & R4).
  unfold ResMid. rewrite Hh, Hu, Hq. auto.
Qed.

(** Scheduling an entry that is no initialisation and holds no server. *)
Lemma resmid_schedule owed w ev prio d :
  is_init ev = false ->
  holder (mkEntry (now w + d) prio (eid w) ev) = [] ->
  ResMid cfg owed w -> ResMid cfg owed (schedule ev prio d w).
Proof.
  intros Hi Hho (R1 & R2 & R3 & R4).
  unfold ResMid; simpl. repeat split; try assumption.
  - apply Forall_heappush. split; assumption.
  - rewrite holders_heappush, Hho. exact R4.
Qed.

Lemma resmid_fail owed w e : ResMid cfg owed w -> ResMid cfg owed (fail e w).
Proof. apply resmid_schedule; reflexivity. Qed.

Lemma resmid_trigger_put owed w :
  ResMid cfg owed w -> ResMid cfg owed (trigger_put cfg w).
Proof.
  intros (R1 & R2 & R3 & R4). unfold trigger_put.
  destruct (put_queue w) as [| [cid arr] rest] eqn:Hq;
    [unfold ResMid; rewrite Hq; auto |].
  destruct (Z.of_nat (length (users w)) <? num_servers cfg)%Z eqn:Hc;
    [| unfold ResMid; rewrite Hq; auto].
  apply Z.ltb_lt in Hc.
  unfold ResMid; simpl. repeat split.
  - rewrite length_app. simpl. lia.
  - simpl in R2. lia.
  - apply Forall_heappush. split; [reflexivity | exact R3].
  - rewrite holders_heappush. simpl.
    rewrite <- !Permutation_middle, app_nil_r.
    apply perm_skip. exact R4.
Qed.

Lemma resmid_release c w :
  ResMid cfg [c] w -> ResMid cfg [] (release c w).
Proof.
  intros (R1 & R2 & R3 & R4).
  unfold ResMid; simpl. repeat split.
  - pose proof (remove_first_length c (users w)). lia.
  - exact R2.
  - apply Forall_heappush. split; [reflexivity | exact R3].
  - rewrite holders_heappush. simpl.
    apply remove_first_perm. exact R4.
Qed.

Lemma resmid_res w : ResMid cfg [] w -> ResInv cfg w.
Proof.
  intros (R1 & R2 & R3 & R4). constructor; try assumption.
  unfold inits_first. destruct (heap w) as [| x t]; [exact I |].
  inversion R3 as [| ? ? Hx Ht]; subst. split; [exact Ht |].
  intros Hc. destruct (e_event x); discriminate.
Qed.

Lemma resmid_pop w x t :
  ResInv cfg w -> heap w = x :: t -> ResMid cfg (holder x) (popped w x t).
Proof.
  intros [R1 R2 R3 R4] Hh. rewrite Hh in *.
  unfold ResMid; simpl. repeat split; try assumption.
  apply R3.
Qed.

(** What the generator leaves in the heap when it suspends. *)
Lemma generator_loop_effect c w :
  exists e,
    heap (customer_generator_loop cfg rnd c w) = heappush e (heap w)
    /\ is_init (e_event e) = false /\ holder e = []
    /\ is_init_customer (e_event e) = false
    /\ is_service_timeout (e_event e) = false
    /\ e_prio e = NORMAL /\ now w <= e_time e
    /\ (is_failed (e_event e) = false ->
        exists k, e_event e = ArrivalTimeout k)
    /\ now (customer_generator_loop cfg rnd c w) = now w
    /\ users (customer_generator_loop cfg rnd c w) = users w
    /\ put_queue (customer_generator_loop cfg rnd c w) = put_queue w
    /\ self (customer_generator_loop cfg rnd c w) = self w.
Proof.
  unfold customer_generator_loop, expovariate.
  destruct (Qeq_bool (arrival_rate cfg) 0).
  - eexists. split; [reflexivity |]. simpl.
    repeat split; try reflexivity; try lra; try discriminate.
  - destruct (Qle_bool 0 (rnd (rng w) / arrival_rate cfg)) eqn:D.
    + apply Qle_bool_iff in D.
      eexists. split; [reflexivity |]. simpl.
      repeat split; try reflexivity; try lra; try (intros _; eexists; reflexivity).
    + eexists. split; [reflexivity |]. simpl.
      repeat split; try reflexivity; try lra; try discriminate.
Qed.

(** An urgent entry scheduled for the current instant goes to the front
    of the heap. *)
Lemma heappush_urgent_now w ev k :
  SchedInv cfg w ->
  Forall (fun e => is_init (e_event e) = false) (heap w) ->
  heappush (mkEntry (now w + 0) URGENT k ev) (heap w)
  = mkEntry (now w + 0) URGENT k ev :: heap w.
Proof.
  intros [S F E N H U] Hi.
  destruct (heap w) as [| y t]; [reflexivity |]. simpl.
  inversion F as [| ? ? Fy _]; subst.
  inversion E as [| ? ? Ey _]; subst.
  inversion Hi as [| ? ? Iy _]; subst.
  match goal with |- (if ?b then _ else _) = _ =>
    assert (Hb : b = true); [| rewrite Hb; reflexivity] end.
  apply entry_lt_true_iff. simpl.
  destruct (Qlt_le_dec (now w) (e_time y)) as [L | L]; [left; lra |].
  right. split; [lra |]. left.
  unfold entry_ok in Ey.
  destruct (e_event y); try discriminate;
    try (rewrite Ey; unfold NORMAL, URGENT; lia);
    destruct Ey as [Ey1 Ey2]; try (rewrite Ey1; unfold NORMAL, URGENT; lia).
  lra.
Qed.

Lemma heappush_after_urgent e x t :
  e_prio e = NORMAL -> e_prio x = URGENT -> e_time x <= e_time e ->
  heappush e (x :: t) = x :: heappush e t.
Proof.
  intros He Hx Ht. simpl.
  destruct (entry_lt e x) eqn:C; [| reflexivity].
  apply entry_lt_true_iff in C. rewrite He, Hx in C.
  unfold NORMAL, URGENT in C.
  destruct C as [C | [_ [C | [C _]]]]; [lra | lia | discriminate].
Qed.

Lemma res_generator_resume w c :
  SchedInv cfg w -> ResMid cfg [] w ->
  ResInv cfg (customer_generator_resume cfg rnd c w).
Proof.
  intros I (R1 & R2 & R3 & R4). unfold customer_generator_resume.
  match goal with |- context [if ?b then ?x else ?y] =>
    set (w2 := if b then x else y); destruct b eqn:Hc end.
  - destruct (generator_loop_effect (S c) w2)
      as (e & Hh & He1 & He2 & _ & _ & He3 & He4 & _ & Hn & Hu & Hq & _).
    assert (Hw2 : heap w2 = mkEntry (now w + 0) URGENT (eid w) (InitCustomer (S c))
                             :: heap w).
    { subst w2. unfold schedule; simpl.
      apply (heappush_urgent_now w); assumption. }
    rewrite Hw2 in Hh.
    rewrite heappush_after_urgent in Hh;
      [| exact He3 | reflexivity | subst w2; simpl in *; lra].
    apply Z.ltb_lt in Hc. simpl in Hc.
    constructor; rewrite ?Hh, ?Hu, ?Hq; subst w2; simpl; try assumption.
    + split; [apply Forall_heappush; split; assumption |].
      intros _. exact Hc.
    + unfold holders at 1. simpl. fold (holders (heappush e (heap w))).
      rewrite holders_heappush, He2. exact R4.
  - destruct (generator_loop_effect (S c) w2)
      as (e & Hh & He1 & He2 & _ & _ & He3 & He4 & _ & Hn & Hu & Hq & _).
    apply resmid_res. unfold ResMid. rewrite Hh, Hu, Hq. subst w2; simpl.
    repeat split; try assumption.
    + apply Forall_heappush; split; assumption.
    + rewrite holders_heappush, He2. exact R4.
Qed.

Lemma res_generator_loop w c :
  ResMid cfg [] w -> ResInv cfg (customer_generator_loop cfg rnd c w).
Proof.
  intros (R1 & R2 & R3 & R4).
  destruct (generator_loop_effect c w)
    as (e & Hh & He1 & He2 & _ & _ & He3 & He4 & _ & Hn & Hu & Hq & _).
  apply resmid_res. unfold ResMid. rewrite Hh, Hu, Hq.
  repeat split; try assumption.
  - apply Forall_heappush; split; assumption.
  - rewrite holders_heappush, He2. exact R4.
Qed.

Lemma res_process_start w c :
  ResMid cfg [] w ->
  (Z.of_nat (length (put_queue w)) < queue_capacity cfg)%Z ->
  ResInv cfg (customer_process_start cfg c w).
Proof.
  intros (R1 & R2 & R3 & R4) Hc. unfold customer_process_start, request.
  apply resmid_res, resmid_trigger_put.
  unfold ResMid; simpl. repeat split; try assumption.
  rewrite length_app. simpl. lia.
Qed.

Lemma res_process_granted w c a :
  ResMid cfg [c] w -> ResInv cfg (customer_process_granted cfg rnd c a w).
Proof.
  intros R. unfold customer_process_granted, expovariate.
  destruct (Qeq_bool (service_rate cfg) 0).
  - apply resmid_res, resmid_fail, resmid_release.
    eapply resmid_frame; [| | | exact R]; reflexivity.
  - cbn [fst snd].
    match goal with |- context [Qle_bool 0 ?d] =>
      destruct (Qle_bool 0 d) eqn:D end.
    + destruct R as (R1 & R2 & R3 & R4).
      apply resmid_res. unfold ResMid; simpl. repeat split; try assumption.
      * apply Forall_heappush; split; [reflexivity | assumption].
      * rewrite holders_heappush. simpl. exact R4.
    + apply resmid_res, resmid_fail, resmid_release.
      eapply resmid_frame; [| | | exact R]; reflexivity.
Qed.

Lemma res_process_served w c a d :
  ResMid cfg [c] w -> ResInv cfg (customer_process_served c a d w).
Proof.
  intros R. unfold customer_process_served.
  apply resmid_res, resmid_schedule; [reflexivity | reflexivity |].
  apply resmid_release.
  eapply resmid_frame; [| | | exact R]; reflexivity.
Qed.

Lemma res_step w w' :
  SchedInv cfg w -> ResInv cfg w ->
  step cfg rnd w = Continue w' -> ResInv cfg w'.
Proof.
  intros I R Hs. pose proof (step_cases cfg rnd w) as C.
  destruct (heap w) as [| x t] eqn:Hh; [congruence |].
  cbv zeta in C. rewrite C in Hs.
  pose proof (resmid_pop w x t R Hh) as M.
  assert (P : e_event x <> Until -> SchedInv cfg (popped w x t))
    by (intros; apply (sched_pop cfg w x t); assumption).
  pose proof (pool_inits _ _ R) as K. rewrite Hh in K. destruct K as [_ K].
  unfold holder in M.
  destruct (e_event x) eqn:Ex; inversion Hs; subst.
  - apply res_generator_loop; exact M.
  - apply res_process_start; [exact M | apply K; reflexivity].
  - apply res_generator_resume; [apply P; discriminate | exact M].
  - apply res_process_granted; exact M.
  - apply res_process_served; exact M.
  - apply resmid_res, resmid_trigger_put; exact M.
  - apply resmid_res; exact M.
Qed.

End ResourceFacts.

(** ** The accounting invariant *)

Lemma count_ev_heappush p e h :
  count_ev p (heappush e h)
  = ((if p (e_event e) then 1 else 0) + count_ev p h)%nat.
Proof.
  unfold count_ev, count_if.
  induction h as [| y h IH]; simpl.
  - destruct (p (e_event e)); reflexivity.
  - destruct (entry_lt e y); simpl.
    + destruct (p (e_event e)); reflexivity.
    + destruct (p (e_event y)); simpl; rewrite IH;
        destruct (p (e_event e)); simpl; lia.
Qed.

Lemma count_ev_cons p x t :
  count_ev p (x :: t) = ((if p (e_event x) then 1 else 0) + count_ev p t)%nat.
Proof.
  unfold count_ev, count_if. simpl. destruct (p (e_event x)); reflexivity.
Qed.

Lemma existsb_heappush (p : Entry -> bool) e h :
  existsb p (heappush e h) = p e || existsb p h.
Proof.
  induction h as [| y h IH]; simpl; [reflexivity |].
  destruct (entry_lt e y); simpl; [reflexivity |].
  rewrite IH. destruct (p e), (p y); reflexivity.
Qed.

Lemma remove_first_length_in c l :
  In c l -> S (length (remove_first c l)) = length l.
Proof.
  induction l as [| y l IH]; intros Hin; [destruct Hin |]. simpl.
  destruct (Nat.eqb c y) eqn:E; [reflexivity |].
  destruct Hin as [-> | Hin]; [rewrite Nat.eqb_refl in E; discriminate |].
  simpl. rewrite IH; [reflexivity | exact Hin].
Qed.

Lemma failing_schedule ev prio d w :
  failing (schedule ev prio d w) = is_failed ev || failing w.
Proof. unfold failing, schedule; simpl. apply existsb_heappush. Qed.

Section AccountingFacts.

Variable cfg : Config.
Variable rnd : nat -> Q.

(** The quantities the accounting reads, across [_trigger_put]. *)
Lemma trigger_put_effect w :
  self (trigger_put cfg w) = self w
  /\ in_system (trigger_put cfg w) = in_system w
  /\ in_service (trigger_put cfg w) = in_service w
  /\ failing (trigger_put cfg w) = failing w.
Proof.
  unfold trigger_put.
  destruct (put_queue w) as [| [cid arr] rest] eqn:Hq; [auto |].
  destruct (Z.of_nat (length (users w)) <? num_servers cfg)%Z; [| auto].
  unfold in_system, in_service, failing; simpl.
  rewrite !count_ev_heappush, existsb_heappush, Hq, length_app. simpl.
  repeat split. lia.
Qed.

Lemma release_effect c w :
  In c (users w) ->
  self (release c w) = self w
  /\ S (in_system (release c w)) = in_system w
  /\ in_service (release c w) = in_service w
  /\ failing (release c w) = failing w.
Proof.
  intros Hin. unfold release, in_system, in_service, failing; simpl.
  rewrite !count_ev_heappush, existsb_heappush. simpl.
  repeat split. pose proof (remove_first_length_in c _ Hin). lia.
Qed.

Lemma failing_fail e w : failing (fail e w) = true.
Proof. unfold failing, fail; simpl. rewrite existsb_heappush. reflexivity. Qed.

Lemma acct_generator_loop w c :
  let w' := customer_generator_loop cfg rnd c w in
  self w' = self w
  /\ in_system w' = in_system w
  /\ in_service w' = in_service w
  /\ (failing w' = false -> failing w = false).
Proof.
  intros w'. subst w'.
  destruct (generator_loop_effect cfg rnd c w)
    as (e & Hh & _ & _ & He1 & He2 & _ & _ & _ & _ & Hu & Hq & Hs).
  unfold in_system, in_service, failing.
  rewrite Hh, Hu, Hq, Hs, !count_ev_heappush, existsb_heappush, He1, He2.
  repeat split. intros H. apply orb_false_iff in H. apply H.
Qed.

Lemma acct_mid w x t :
  heap w = x :: t -> is_failed (e_event x) = false ->
  failing (popped w x t) = failing w.
Proof. intros Hh Hx. unfold failing. rewrite Hh. simpl. rewrite Hx. reflexivity. Qed.

(** The accounting, read in the world a popped entry's callbacks start
    in. *)
Lemma acct_pop w x t :
  AcctInv w -> heap w = x :: t -> is_failed (e_event x) = false ->
  let w1 := popped w x t in
  (failing w1 = false ->
   length (arrival_times (self w1))
   = (customers_served (self w1) + customers_rejected (self w1)
      + ((if is_init_customer (e_event x) then 1 else 0) + in_system w1))%nat)
  /\ length (system_times (self w1)) = customers_served (self w1)
  /\ (failing w1 = false ->
      length (service_times (self w1))
      = (customers_served (self w1)
         + ((if is_service_timeout (e_event x) then 1 else 0)
            + in_service w1))%nat
      /\ length (wait_times (self w1)) = length (service_times (self w1))).
Proof.
  intros [A1 A2 A3] Hh Hx w1.
  assert (FL : failing w1 = failing w) by (apply acct_mid; assumption).
  assert (IS : in_system w
               = ((if is_init_customer (e_event x) then 1 else 0)
                  + in_system w1)%nat).
  { unfold in_system. rewrite Hh, count_ev_cons. simpl. lia. }
  assert (SV : in_service w
               = ((if is_service_timeout (e_event x) then 1 else 0)
                  + in_service w1)%nat).
  { unfold in_service. rewrite Hh, count_ev_cons. reflexivity. }
  rewrite FL, <- IS, <- SV. auto.
Qed.

Lemma acct_step w w' :
  ResInv cfg w -> AcctInv w ->
  step cfg rnd w = Continue w' -> AcctInv w'.
Proof.
  intros R A Hs. pose proof (step_cases cfg rnd w) as C.
  destruct (heap w) as [| x t] eqn:Hh; [congruence |].
  cbv zeta in C. rewrite C in Hs. clear C.
  pose proof (pool_holders _ _ R) as P. rewrite Hh in P.
  change (users w) with (users (popped w x t)) in P.
  pose proof (acct_pop w x t A Hh) as B. cbv zeta in B.
  clear A R Hh. generalize dependent (popped w x t). clear w.
  intros w Hs P B.
  destruct (e_event x) eqn:Ex; try discriminate Hs; injection Hs as <-;
    destruct (B eq_refl) as (A1 & A2 & A3); clear B; simpl in A1, A3.
  - (* InitGenerator *)
    destruct (acct_generator_loop w 0) as (Es & Ei & Ev & Ef).
    constructor; rewrite ?Es, ?Ei, ?Ev; auto.
  - (* InitCustomer *)
    unfold customer_process_start, request.
    match goal with |- AcctInv (trigger_put _ ?w2) =>
      destruct (trigger_put_effect w2) as (Es & Ei & Ev & Ef) end.
    constructor; rewrite ?Es, ?Ei, ?Ev, ?Ef;
      unfold failing, in_system, in_service in *; simpl.
    + intros F. rewrite (A1 F), length_app. simpl. lia.
    + exact A2.
    + exact A3.
  - (* ArrivalTimeout *)
    unfold customer_generator_resume.
    match goal with |- AcctInv (customer_generator_loop _ _ _ ?w2) =>
      destruct (acct_generator_loop w2 (S customer_id)) as (Es & Ei & Ev & Ef)
    end.
    constructor; rewrite ?Es, ?Ei, ?Ev.
    + intros F. apply Ef in F. revert F.
      destruct (Z.of_nat (length (put_queue (set_self _ w)))
                <? queue_capacity cfg)%Z;
        unfold failing, in_system; simpl;
        rewrite ?existsb_heappush, ?count_ev_heappush; simpl;
        intros F; rewrite length_app, (A1 F); unfold in_system; simpl; lia.
    + destruct (Z.of_nat (length (put_queue (set_self _ w)))
                <? queue_capacity cfg)%Z; simpl; exact A2.
    + intros F. apply Ef in F. revert F.
      destruct (Z.of_nat (length (put_queue (set_self _ w)))
                <? queue_capacity cfg)%Z;
        unfold failing, in_service; simpl;
        rewrite ?existsb_heappush, ?count_ev_heappush; simpl;
        exact A3.
  - (* RequestGranted *)
    unfold customer_process_granted, expovariate.
    destruct (Qeq_bool (service_rate cfg) 0).
    + constructor; try (intros F; rewrite failing_fail in F; discriminate).
      simpl. exact A2.
    + cbn [fst snd].
      match goal with |- context [Qle_bool 0 ?d] => destruct (Qle_bool 0 d) end.
      * constructor; unfold failing, in_system, in_service in *; simpl;
          rewrite ?existsb_heappush, ?count_ev_heappush; simpl.
        -- exact A1.
        -- exact A2.
        -- intros F. destruct (A3 F) as [A4 A5].
           rewrite !length_app, A5, A4. simpl. split; lia.
      * constructor; try (intros F; rewrite failing_fail in F; discriminate).
        simpl. exact A2.
  - (* ServiceTimeout *)
    unfold customer_process_served.
    assert (Hin : In customer_id (users w)).
    { apply (Permutation_in customer_id (Permutation_sym P)).
      unfold holders, holder; simpl. rewrite Ex. left; reflexivity. }
    apply remove_first_length_in in Hin.
    constructor; unfold failing, in_system, in_service in *; simpl in *;
      rewrite ?existsb_heappush, ?count_ev_heappush in *; simpl in *.
    + intros F. rewrite (A1 F). lia.
    + rewrite length_app, A2. simpl. lia.
    + intros F. destruct (A3 F) as [A4 A5].
      rewrite A5, A4. split; lia.
  - (* Released *)
    destruct (trigger_put_effect w) as (Es & Ei & Ev & Ef).
    constructor; rewrite ?Es, ?Ei, ?Ev, ?Ef; auto.
  - (* ProcessDone *)
    constructor; auto.
Qed.

End AccountingFacts.

(** ** The busy-time invariant *)

Lemma Qsum_heappush (f : Entry -> Q) e h :
  Qsum (map f (heappush e h)) == f e + Qsum (map f h).
Proof.
  induction h as [| y h IH]; simpl; [reflexivity |].
  destruct (entry_lt e y); simpl; [reflexivity |].
  rewrite IH. ring.
Qed.

Lemma service_elapsed_other t e :
  is_service_timeout (e_event e) = false -> service_elapsed t e = 0.
Proof. unfold service_elapsed. destruct (e_event e); try reflexivity; discriminate. Qed.

(** Moving the clock adds the move to every service in progress. *)
Lemma elapsed_advance t t' h :
  Qsum (map (service_elapsed t') h)
  == Qsum (map (service_elapsed t) h)
     + Q_of_nat (count_ev is_service_timeout h) * (t' - t).
Proof.
  induction h as [| y h IH]; simpl.
  - unfold Q_of_nat; simpl. ring.
  - rewrite IH, count_ev_cons. unfold service_elapsed at 1 3.
    destruct (e_event y); simpl; unfold Q_of_nat;
      rewrite ?Nat2Z.inj_succ, <- ?Z.add_1_r, ?inject_Z_plus; simpl; ring.
Qed.

Lemma count_service_holders h :
  (count_ev is_service_timeout h <= length (holders h))%nat.
Proof.
  induction h as [| y h IH]; simpl; [apply Nat.le_refl |].
  rewrite count_ev_cons. unfold holders in *. simpl.
  rewrite length_app. unfold holder at 1.
  destruct (e_event y); simpl; lia.
Qed.

Lemma elapsed_nonneg t h :
  Forall (started_by t) h -> 0 <= Qsum (map (service_elapsed t) h).
Proof.
  induction 1 as [| y h Hy _ IH]; simpl; [lra |].
  unfold service_elapsed at 1. unfold started_by in Hy.
  destruct (e_event y); lra.
Qed.

Section BusyFacts.

Variable cfg : Config.
Variable rnd : nat -> Q.

Lemma busymid_frame credit w w' :
  now w' = now w -> heap w' = heap w ->
  server_busy_time (self w') = server_busy_time (self w) ->
  BusyMid cfg credit w -> BusyMid cfg credit w'.
Proof.
  intros Hn Hh Hb M. unfold BusyMid. rewrite Hn, Hh, Hb. exact M.
Qed.

Lemma busymid_schedule credit w ev prio d :
  is_service_timeout ev = false ->
  BusyMid cfg credit w -> BusyMid cfg credit (schedule ev prio d w).
Proof.
  intros He (B1 & B2 & B3 & B4). unfold BusyMid; simpl.
  repeat split; try assumption.
  - apply Forall_heappush. split; [| exact B3].
    unfold started_by; simpl. destruct ev; try exact I; discriminate.
  - rewrite Qsum_heappush, service_elapsed_other by exact He. lra.
Qed.

Lemma busymid_fail credit w e :
  BusyMid cfg credit w -> BusyMid cfg credit (fail e w).
Proof. apply busymid_schedule; reflexivity. Qed.

Lemma busymid_release credit w c :
  BusyMid cfg credit w -> BusyMid cfg credit (release c w).
Proof.
  intros M. unfold release. apply busymid_schedule; [reflexivity |].
  eapply busymid_frame; [| | | exact M]; reflexivity.
Qed.

Lemma busymid_trigger_put credit w :
  BusyMid cfg credit w -> BusyMid cfg credit (trigger_put cfg w).
Proof.
  intros M. unfold trigger_put.
  destruct (put_queue w) as [| [cid arr] rest]; [exact M |].
  destruct (Z.of_nat (length (users w)) <? num_servers cfg)%Z; [| exact M].
  apply busymid_schedule; [reflexivity |].
  eapply busymid_frame; [| | | exact M]; reflexivity.
Qed.

Lemma busymid_generator_loop credit w c :
  BusyMid cfg credit w ->
  BusyMid cfg credit (customer_generator_loop cfg rnd c w).
Proof.
  intros (B1 & B2 & B3 & B4).
  destruct (generator_loop_effect cfg rnd c w)
    as (e & Hh & _ & _ & _ & He & _ & _ & _ & Hn & _ & _ & Hs).
  unfold BusyMid. rewrite Hh, Hn, Hs. repeat split; try assumption.
  - apply Forall_heappush. split; [| exact B3].
    unfold started_by. destruct (e_event e); try exact I; discriminate.
  - rewrite Qsum_heappush, service_elapsed_other by exact He. lra.
Qed.

Lemma busymid_busy w : BusyMid cfg 0 w -> BusyInv cfg w.
Proof.
  intros (B1 & B2 & B3 & B4). constructor; try assumption. lra.
Qed.

(** The bound after the clock moves to the popped entry. *)
Lemma busy_pop w x t :
  SchedInv cfg w -> ResInv cfg w -> BusyInv cfg w -> heap w = x :: t ->
  BusyMid cfg (service_elapsed (e_time x) x) (popped w x t).
Proof.
  intros [S F E N H U] [R1 _ _ R4] [B1 B3 B4] Hh. rewrite Hh in *.
  inversion F as [| ? ? Fx Ft]; subst.
  inversion B3 as [| ? ? Bx Bt]; subst.
  apply StronglySorted_inv in S. destruct S as [_ Sx].
  assert (K : inject_Z (Z.of_nat (count_ev is_service_timeout (x :: t)))
              <= inject_Z (num_servers cfg)).
  { rewrite <- Zle_Qle.
    pose proof (count_service_holders (x :: t)) as C.
    rewrite <- (Permutation_length R4) in C. lia. }
  pose proof (elapsed_advance (now w) (e_time x) (x :: t)) as A.
  simpl in A, B4. unfold Q_of_nat in A.
  assert (M : inject_Z (Z.of_nat (count_ev is_service_timeout (x :: t)))
              * (e_time x - now w)
              <= inject_Z (num_servers cfg) * (e_time x - now w))
    by (apply Qmult_le_compat_r; [exact K | lra]).
  unfold BusyMid; simpl. repeat split.
  - exact B1.
  - unfold service_elapsed. unfold started_by in Bx.
    destruct (e_event x); lra.
  - apply Forall_forall. intros e He.
    rewrite Forall_forall in Bt, Sx. specialize (Bt e He).
    unfold started_by in *. destruct (e_event e); try exact I.
    destruct Bt. split; lra.
  - lra.
Qed.

Lemma busy_step w w' :
  SchedInv cfg w -> ResInv cfg w -> BusyInv cfg w ->
  step cfg rnd w = Continue w' -> BusyInv cfg w'.
Proof.
  intros I R B Hs. pose proof (step_cases cfg rnd w) as C.
  destruct (heap w) as [| x t] eqn:Hh; [congruence |].
  cbv zeta in C. rewrite C in Hs. clear C.
  pose proof (busy_pop w x t I R B Hh) as M.
  clear I R B Hh. generalize dependent (popped w x t). clear w.
  intros w Hs M. unfold service_elapsed in M.
  destruct (e_event x) eqn:Ex; try discriminate Hs; injection Hs as <-.
  - apply busymid_busy, busymid_generator_loop; exact M.
  - unfold customer_process_start, request.
    apply busymid_busy, busymid_trigger_put.
    eapply busymid_frame; [| | | exact M]; reflexivity.
  - unfold customer_generator_resume.
    apply busymid_busy, busymid_generator_loop.
    match goal with |- context [if ?b then _ else _] => destruct b end.
    + apply busymid_schedule; [reflexivity |].
      eapply busymid_frame; [| | | exact M]; reflexivity.
    + eapply busymid_frame; [| | | exact M]; reflexivity.
  - unfold customer_process_granted, expovariate.
    destruct (Qeq_bool (service_rate cfg) 0).
    + apply busymid_busy, busymid_fail, busymid_release.
      eapply busymid_frame; [| | | exact M]; reflexivity.
    + cbn [fst snd].
      match goal with |- context [Qle_bool 0 ?d] =>
        destruct (Qle_bool 0 d) eqn:D end.
      * apply Qle_bool_iff in D. destruct M as (B1 & B2 & B3 & B4).
        constructor; simpl.
        -- exact B1.
        -- apply Forall_heappush. split; [| exact B3].
           unfold started_by; simpl. split; [exact D | lra].
        -- rewrite Qsum_heappush. unfold service_elapsed at 1; simpl. lra.
      * apply busymid_busy, busymid_fail, busymid_release.
        eapply busymid_frame; [| | | exact M]; reflexivity.
  - unfold customer_process_served.
    apply busymid_busy, busymid_schedule; [reflexivity |].
    apply busymid_release.
    destruct M as (B1 & B2 & B3 & B4).
    unfold BusyMid; simpl. repeat split; try assumption; lra.
  - apply busymid_busy, busymid_trigger_put; exact M.
  - apply busymid_busy; exact M.
Qed.

End BusyFacts.

(** ** The invariant holds along every run *)

Section RunFacts.

Variable cfg : Config.
Variable rnd : nat -> Q.

Lemma start_world_ok w :
  start_world cfg = Ok w ->
  (0 < num_servers cfg)%Z /\ 0 < sim_time cfg
  /\ w = mkWorld 0
           [mkEntry (0 + 0) URGENT 0 InitGenerator;
            mkEntry (0 + (sim_time cfg - 0)) URGENT 1 Until]
           2 [] [] 0 init_sim.
Proof.
  unfold start_world.
  destruct (num_servers cfg <=? 0)%Z eqn:Hc; [discriminate |].
  apply Z.leb_gt in Hc. simpl.
  destruct (Qle_bool (sim_time cfg) 0) eqn:Ht; [discriminate |].
  assert (Hpos : 0 < sim_time cfg).
  { destruct (Qlt_le_dec 0 (sim_time cfg)) as [L | L]; [exact L |].
    apply Qle_bool_iff in L. congruence. }
  intros E. injection E as <-. repeat split; try assumption.
  unfold schedule, initial_world; simpl.
  assert (C : entry_lt (mkEntry (0 + (sim_time cfg - 0)) URGENT 1 Until)
                       (mkEntry (0 + 0) URGENT 0 InitGenerator) = false).
  { apply not_true_iff_false. rewrite entry_lt_true_iff. simpl.
    unfold URGENT. intros [L | [L1 [L2 | [_ L2]]]]; try lra; lia. }
  rewrite C. reflexivity.
Qed.

Lemma inv_start w : start_world cfg = Ok w -> Inv cfg w.
Proof.
  intros Hs. apply start_world_ok in Hs. destruct Hs as (Hc & Ht & ->).
  assert (Le : entry_le (mkEntry (0 + 0) URGENT 0 InitGenerator)
                        (mkEntry (0 + (sim_time cfg - 0)) URGENT 1 Until)).
  { apply entry_le_iff; simpl. left. lra. }
  repeat split; simpl;
    try solve [ lra | lia | reflexivity | discriminate | exact Ht
              | apply Exists_cons_tl, Exists_cons_hd; reflexivity
              | repeat constructor; simpl; solve [lra | exact Le] ].
  unfold service_elapsed; simpl. lra.
Qed.

Lemma inv_step w w' :
  Inv cfg w -> step cfg rnd w = Continue w' -> Inv cfg w'.
Proof.
  intros (I & R & A & B) Hs. split; [| split; [| split]].
  - eapply sched_step; eassumption.
  - eapply res_step; eassumption.
  - eapply acct_step; eassumption.
  - eapply busy_step; eassumption.
Qed.

Lemma inv_reachable w : reachable cfg rnd w -> Inv cfg w.
Proof.
  induction 1 as [w Hs | w w' _ IH Hs];
    [apply inv_start; exact Hs | eapply inv_step; eassumption].
Qed.

Lemma steps_reachable n : forall w w',
  reachable cfg rnd w -> steps cfg rnd n w = Some w' -> reachable cfg rnd w'.
Proof.
  induction n as [| n IH]; intros w w' Hr Hs; simpl in Hs.
  - injection Hs as <-. exact Hr.
  - destruct (step cfg rnd w) as [w1 | w1 | e] eqn:E; try discriminate.
    apply (IH w1); [eapply reach_step; eassumption | exact Hs].
Qed.

Lemma world_at_reachable n w :
  world_at cfg rnd n = Some w -> reachable cfg rnd w.
Proof.
  unfold world_at. destruct (start_world cfg) as [w0 | e |] eqn:E;
    try discriminate.
  apply steps_reachable. apply reach_start. exact E.
Qed.

Lemma env_run_stops fuel : forall w wf,
  reachable cfg rnd w -> env_run cfg rnd fuel w = Ok wf ->
  exists wl, reachable cfg rnd wl /\ step cfg rnd wl = Stopped wf.
Proof.
  induction fuel as [| fuel IH]; intros w wf Hr Hs; simpl in Hs;
    [discriminate |].
  destruct (step cfg rnd w) as [w1 | w1 | e] eqn:E; try discriminate.
  - apply (IH w1); [eapply reach_step; eassumption | exact Hs].
  - injection Hs as <-. exists w. split; assumption.
Qed.

(** A run that returns went through a world where the until event was
    the least entry of the heap. *)
Lemma run_engine_stops fuel wf :
  run_engine cfg rnd fuel = Ok wf ->
  exists wl x t,
    Inv cfg wl /\ heap wl = x :: t /\ e_event x = Until
    /\ wf = popped wl x t.
Proof.
  unfold run_engine. destruct (start_world cfg) as [w0 | e |] eqn:E;
    try discriminate.
  intros Hs. apply env_run_stops in Hs; [| apply reach_start; exact E].
  destruct Hs as (wl & Hr & Hs). exists wl.
  pose proof (step_cases cfg rnd wl) as C.
  destruct (heap wl) as [| x t]; [congruence |].
  exists x, t. cbv zeta in C. rewrite C in Hs.
  split; [apply inv_reachable; exact Hr |].
  destruct (e_event x); try discriminate Hs.
  injection Hs as <-. auto.
Qed.

Lemma late_entries t :
  Forall (entry_ok cfg) t ->
  Forall (fun e => sim_time cfg <= e_time e) t ->
  count_ev is_init_customer t = 0%nat
  /\ existsb (fun e => is_failed (e_event e)) t = false.
Proof.
  induction 1 as [| y t Ey _ IH]; intros L; [split; reflexivity |].
  inversion L as [| ? ? Ly Lt]; subst.
  destruct (IH Lt) as [IH1 IH2].
  rewrite count_ev_cons, IH1. simpl. rewrite IH2.
  unfold entry_ok in Ey.
  destruct (e_event y); simpl; split; try reflexivity; destruct Ey; lra.
Qed.

(** When the until event is popped, whatever is left in the heap lies at
    or after the horizon; no initialisation and no failure is left. *)
Lemma at_horizon w x t :
  SchedInv cfg w -> heap w = x :: t -> e_event x = Until ->
  e_time x == sim_time cfg
  /\ Forall (fun e => sim_time cfg <= e_time e) t
  /\ count_ev is_init_customer t = 0%nat
  /\ existsb (fun e => is_failed (e_event e)) t = false.
Proof.
  intros [S F E N H U] Hh Hx. rewrite Hh in *.
  apply StronglySorted_inv in S. destruct S as [_ S].
  inversion E as [| ? ? Ex Et]; subst.
  unfold entry_ok in Ex. rewrite Hx in Ex. destruct Ex as [_ Ex].
  assert (L : Forall (fun e => sim_time cfg <= e_time e) t).
  { eapply Forall_impl; [| exact S]. intros e He.
    apply entry_le_time in He. lra. }
  split; [exact Ex |]. split; [exact L |].
  apply late_entries; assumption.
Qed.

End RunFacts.

(** ** Rounding *)

Lemma round_half_even_bounds x :
  (Qfloor x <= round_half_even x <= Qfloor x + 1)%Z.
Proof.
  unfold round_half_even.
  destruct (Qcompare (x - inject_Z (Qfloor x)) (1 # 2));
    try destruct (Z.even (Qfloor x)); lia.
Qed.

Lemma round_half_even_mono x y :
  x <= y -> (round_half_even x <= round_half_even y)%Z.
Proof.
  intros Hxy.
  pose proof (Qfloor_resp_le _ _ Hxy) as Hf.
  destruct (Z.eq_dec (Qfloor x) (Qfloor y)) as [E | N].
  - unfold round_half_even. rewrite <- E.
    destruct (Qcompare_spec (x - inject_Z (Qfloor x)) (1 # 2));
      destruct (Qcompare_spec (y - inject_Z (Qfloor x)) (1 # 2));
      try destruct (Z.even (Qfloor x)); try lia; lra.
  - pose proof (round_half_even_bounds x). pose proof (round_half_even_bounds y).
    lia.
Qed.

Lemma pow10_pos n : 0 < pow10 n.
Proof.
  unfold pow10. change 0 with (inject_Z 0). rewrite <- Zlt_Qlt.
  apply Z.pow_pos_nonneg; lia.
Qed.

Lemma round_spec x n :
  round x n == inject_Z (round_half_even (x * pow10 n)) / pow10 n.
Proof. unfold round. apply Qred_correct. Qed.

(** Python's [round] is monotone. *)
Lemma round_mono x y n : x <= y -> round x n <= round y n.
Proof.
  intros Hxy. rewrite !round_spec.
  pose proof (pow10_pos n) as Hp.
  apply Qmult_le_compat_r.
  - rewrite <- Zle_Qle. apply round_half_even_mono.
    apply Qmult_le_compat_r; [exact Hxy | lra].
  - apply Qinv_le_0_compat. lra.
Qed.

Lemma Qdiv_nonneg a b : 0 <= a -> 0 <= b -> 0 <= a / b.
Proof.
  intros Ha Hb. unfold Qdiv.
  apply Qmult_le_0_compat; [exact Ha | apply Qinv_le_0_compat; exact Hb].
Qed.


Lemma Qdiv_pos_neg a b : 0 < a -> b < 0 -> a / b < 0.
Proof.
  intros Ha Hb.
  assert (P : 0 < a / - b) by (apply Qlt_shift_div_l; lra).
  assert (E : a / b == - (a / - b)) by (field; lra).
  lra.
Qed.

(** ** Every well-formed run returns *)

Lemma list_sum_heappush (f : Entry -> nat) e h :
  list_sum (map f (heappush e h)) = (f e + list_sum (map f h))%nat.
Proof.
  induction h as [| y h IH]; simpl; [reflexivity |].
  destruct (entry_lt e y); simpl; [reflexivity |].
  rewrite IH. lia.
Qed.

Section Returns.

Variable cfg : Config.
Variable rnd : nat -> Q.
Variable delta : Q.

Hypothesis arrival_rate_positive : 0 < arrival_rate cfg.
Hypothesis service_rate_positive : 0 < service_rate cfg.
Hypothesis delta_positive : 0 < delta.
Hypothesis draws_above : forall n, delta <= rnd n.

Lemma gap_positive : 0 < min_gap cfg delta.
Proof. unfold min_gap. apply Qlt_shift_div_l; lra. Qed.

Lemma interarrival_above n : min_gap cfg delta <= rnd n / arrival_rate cfg.
Proof.
  unfold min_gap, Qdiv. apply Qmult_le_compat_r; [apply draws_above |].
  apply Qinv_le_0_compat. lra.
Qed.

Lemma service_time_nonneg n : 0 <= rnd n / service_rate cfg.
Proof.
  apply Qdiv_nonneg; [| lra].
  pose proof (draws_above n). lra.
Qed.

Lemma arrivals_left_mono t d :
  0 <= d -> (arrivals_left cfg (min_gap cfg delta) (t + d) <= arrivals_left cfg (min_gap cfg delta) t)%nat.
Proof.
  intros Hd. unfold arrivals_left.
  pose proof gap_positive as G.
  assert (L : (Qceiling ((sim_time cfg - (t + d)) / min_gap cfg delta)
               <= Qceiling ((sim_time cfg - t) / min_gap cfg delta))%Z).
  { apply Qceiling_resp_le. unfold Qdiv.
    apply Qmult_le_compat_r; [lra |]. apply Qinv_le_0_compat. lra. }
  lia.
Qed.

(** An arrival before the horizon uses up one of the arrivals left. *)
Lemma arrivals_left_next t d :
  t < sim_time cfg -> (min_gap cfg delta) <= d ->
  (S (arrivals_left cfg (min_gap cfg delta) (t + d)) <= arrivals_left cfg (min_gap cfg delta) t)%nat.
Proof.
  intros Ht Hd. unfold arrivals_left.
  pose proof gap_positive as G.
  set (a := (sim_time cfg - (t + d)) / (min_gap cfg delta)).
  set (b := (sim_time cfg - t) / (min_gap cfg delta)).
  assert (Hab : a + 1 <= b).
  { assert (E : b == a + d / (min_gap cfg delta)) by (unfold a, b; field; lra).
    assert (1 <= d / (min_gap cfg delta)) by (apply Qle_shift_div_l; lra).
    lra. }
  assert (Hb : 0 < b) by (unfold b; apply Qlt_shift_div_l; lra).
  pose proof (Qle_ceiling b) as Cb.
  pose proof (Qceiling_lt a) as Ca.
  assert (La : (Qceiling a < Qceiling b)%Z).
  { rewrite Zlt_Qlt.
    assert (E : inject_Z (Qceiling a - 1) == inject_Z (Qceiling a) - 1).
    { unfold Z.sub. rewrite inject_Z_plus. reflexivity. }
    lra. }
  assert (Lb : (0 < Qceiling b)%Z).
  { rewrite Zlt_Qlt. change (inject_Z 0) with 0. lra. }
  lia.
Qed.

Lemma work_schedule ev prio d w :
  work cfg (min_gap cfg delta) (schedule ev prio d w)
  = (entry_work cfg (min_gap cfg delta) (mkEntry (now w + d) prio (eid w) ev)
     + work cfg (min_gap cfg delta) w)%nat.
Proof.
  unfold work, schedule; simpl. rewrite list_sum_heappush. lia.
Qed.

Lemma work_trigger_put w :
  work cfg (min_gap cfg delta) (trigger_put cfg w) = work cfg (min_gap cfg delta) w
  /\ failing (trigger_put cfg w) = failing w.
Proof.
  unfold trigger_put.
  destruct (put_queue w) as [| [cid arr] rest] eqn:Hq; [auto |].
  destruct (Z.of_nat (length (users w)) <? num_servers cfg)%Z; [| auto].
  rewrite work_schedule, failing_schedule. unfold work; simpl.
  rewrite Hq. unfold entry_work; simpl. split; [lia | reflexivity].
Qed.

Lemma work_generator_loop c w :
  work cfg (min_gap cfg delta) (customer_generator_loop cfg rnd c w)
  = (1 + 6 * arrivals_left cfg (min_gap cfg delta)
                           (now w + rnd (rng w) / arrival_rate cfg)
     + work cfg (min_gap cfg delta) w)%nat
  /\ failing (customer_generator_loop cfg rnd c w) = failing w.
Proof.
  unfold customer_generator_loop, expovariate.
  assert (Za : Qeq_bool (arrival_rate cfg) 0 = false).
  { apply not_true_iff_false. intros E. apply Qeq_bool_iff in E. lra. }
  assert (Ba : Qle_bool 0 (rnd (rng w) / arrival_rate cfg) = true).
  { apply Qle_bool_iff.
    pose proof (interarrival_above (rng w)). pose proof gap_positive. lra. }
  rewrite Za, Ba, work_schedule, failing_schedule.
  unfold entry_work; simpl. split; reflexivity.
Qed.

(** Each event processed takes one unit of work away and leaves no
    failure behind. *)
Lemma work_step w w' :
  SchedInv cfg w -> failing w = false ->
  step cfg rnd w = Continue w' ->
  (work cfg (min_gap cfg delta) w' < work cfg (min_gap cfg delta) w)%nat /\ failing w' = false.
Proof.
  intros I F Hs. pose proof (step_cases cfg rnd w) as C.
  destruct (heap w) as [| x t] eqn:Hh; [congruence |].
  cbv zeta in C. rewrite C in Hs. clear C.
  assert (Hw : work cfg (min_gap cfg delta) w
               = (entry_work cfg (min_gap cfg delta) x + work cfg (min_gap cfg delta) (popped w x t))%nat).
  { unfold work. rewrite Hh. simpl. lia. }
  assert (Hf : failing (popped w x t) = false).
  { unfold failing in *. rewrite Hh in F. simpl in F.
    apply orb_false_iff in F. apply F. }
  assert (Hx : e_event x <> Until -> e_time x < sim_time cfg)
    by (intros N; apply (popped_before_horizon cfg w x t I Hh N)).
  assert (Hn : now (popped w x t) = e_time x) by reflexivity.
  rewrite Hw. clear Hw F I Hh.
  generalize dependent (popped w x t). clear w. intros w Hs Hf Hn.
  assert (Za : Qeq_bool (arrival_rate cfg) 0 = false).
  { apply not_true_iff_false. intros E. apply Qeq_bool_iff in E. lra. }
  assert (Zs : Qeq_bool (service_rate cfg) 0 = false).
  { apply not_true_iff_false. intros E. apply Qeq_bool_iff in E. lra. }
  assert (Ba : forall n, Qle_bool 0 (rnd n / arrival_rate cfg) = true).
  { intros n. apply Qle_bool_iff.
    pose proof (interarrival_above n). pose proof gap_positive. lra. }
  assert (Bs : forall n, Qle_bool 0 (rnd n / service_rate cfg) = true)
    by (intros n; apply Qle_bool_iff, service_time_nonneg).
  unfold entry_work at 1.
  destruct (e_event x) eqn:Ex; try discriminate Hs; injection Hs as <-.
  - (* InitGenerator *)
    destruct (work_generator_loop 0 w) as [Ew Ef]. rewrite Ew, Ef, Hn.
    split; [| exact Hf].
    assert (0 <= rnd (rng w) / arrival_rate cfg)
      by (apply Qle_bool_iff, Ba).
    pose proof (arrivals_left_mono (e_time x)
                  (rnd (rng w) / arrival_rate cfg) H) as M.
    lia.
  - (* InitCustomer *)
    unfold customer_process_start, request.
    match goal with |- context [trigger_put _ ?w2] =>
      destruct (work_trigger_put w2) as [Ew Ef] end.
    rewrite Ew, Ef. split; [| exact Hf].
    unfold work; simpl. rewrite length_app. simpl. lia.
  - (* ArrivalTimeout *)
    unfold customer_generator_resume.
    assert (L : (S (arrivals_left cfg (min_gap cfg delta)
                      (e_time x + rnd (rng w) / arrival_rate cfg))
                 <= arrivals_left cfg (min_gap cfg delta) (e_time x))%nat).
    { apply arrivals_left_next; [apply Hx; discriminate |].
      apply interarrival_above. }
    match goal with |- context [customer_generator_loop _ _ ?c ?w2] =>
      destruct (work_generator_loop c w2) as [Ew Ef] end.
    rewrite Ew, Ef. clear Ew Ef.
    match goal with |- context [if (?a <? ?b)%Z then _ else _] =>
      destruct (a <? b)%Z end.
    + rewrite work_schedule, failing_schedule.
      cbn [now rng schedule set_self]. rewrite Hn.
      unfold entry_work; simpl. split; [| exact Hf].
      unfold work; simpl. lia.
    + cbn [now rng set_self]. rewrite Hn. split; [| exact Hf].
      unfold work; simpl. lia.
  - (* RequestGranted *)
    unfold customer_process_granted, expovariate. rewrite Zs.
    cbn [fst snd rng set_self]. rewrite Bs.
    rewrite work_schedule, failing_schedule. unfold entry_work; simpl.
    split; [| exact Hf]. unfold work; simpl. lia.
  - (* ServiceTimeout *)
    unfold customer_process_served, release.
    rewrite !work_schedule, !failing_schedule. unfold entry_work; simpl.
    split; [| exact Hf]. unfold work; simpl. lia.
  - (* Released *)
    destruct (work_trigger_put w) as [Ew Ef]. rewrite Ew, Ef.
    split; [lia | exact Hf].
  - (* ProcessDone *)
    split; [lia | exact Hf].
Qed.

Lemma env_run_returns n : forall w,
  SchedInv cfg w -> failing w = false ->
  (work cfg (min_gap cfg delta) w < n)%nat ->
  exists wf, env_run cfg rnd n w = Ok wf.
Proof.
  induction n as [| n IH]; intros w I F Hw; [lia |].
  simpl. destruct (step cfg rnd w) as [w' | wf | e] eqn:E.
  - destruct (work_step w w' I F E) as [L F'].
    apply IH; [eapply sched_step; eassumption | exact F' | lia].
  - exists wf. reflexivity.
  - exfalso. pose proof (step_cases cfg rnd w) as C.
    pose proof (sched_until _ _ I) as U.
    destruct (heap w) as [| x t] eqn:Hh; [inversion U |].
    cbv zeta in C. rewrite C in E.
    unfold failing in F. rewrite Hh in F. simpl in F.
    destruct (e_event x); try discriminate E. discriminate F.
Qed.

(** A run with positive rates, at least one server, a positive horizon
    and draws bounded away from zero returns, given enough iterations
    of the event loop. *)
Lemma run_engine_returns :
  (0 < num_servers cfg)%Z -> 0 < sim_time cfg ->
  exists fuel wf, run_engine cfg rnd fuel = Ok wf.
Proof.
  intros Hc Ht. unfold run_engine.
  destruct (start_world cfg) as [w0 | e |] eqn:E.
  - pose proof (inv_start cfg w0 E) as (I & _).
    exists (S (work cfg (min_gap cfg delta) w0)).
    apply env_run_returns; [exact I | | lia].
    apply start_world_ok in E. destruct E as (_ & _ & ->). reflexivity.
  - exfalso. unfold start_world in E.
    destruct (num_servers cfg <=? 0)%Z eqn:C;
      [apply Z.leb_le in C; lia |].
    simpl in E. destruct (Qle_bool (sim_time cfg) 0) eqn:T; [| discriminate].
    apply Qle_bool_iff in T. lra.
  - unfold start_world in E.
    destruct (num_servers cfg <=? 0)%Z; [discriminate |].
    simpl in E. destruct (Qle_bool (sim_time cfg) 0); discriminate.
Qed.

End Returns.

(* ================================================================ *)
(** * Part IV: the engine's properties *)
(* ================================================================ *)

Section EngineProperties.

Variable cfg : Config.
Variable rnd : nat -> Q.

(** The state of a run that returned, in terms of the last world of
    the loop. *)
Lemma final_world fuel wf :
  run_engine cfg rnd fuel = Ok wf ->
  now wf == sim_time cfg
  /\ Forall (fun e => sim_time cfg <= e_time e) (heap wf)
  /\ failing wf = false
  /\ count_ev is_init_customer (heap wf) = 0%nat
  /\ ResMid cfg [] wf
  /\ AcctInv wf
  /\ BusyMid cfg 0 wf.
Proof.
  intros Hr. apply run_engine_stops in Hr.
  destruct Hr as (wl & x & t & (I & R & A & B) & Hh & Hx & ->).
  destruct (at_horizon cfg wl x t I Hh Hx) as (H1 & H2 & H3 & H4).
  pose proof (resmid_pop cfg wl x t R Hh) as RM.
  pose proof (busy_pop cfg wl x t I R B Hh) as BM.
  unfold holder in RM. unfold service_elapsed in BM. rewrite Hx in RM, BM.
  assert (Hf : is_failed (e_event x) = false) by (rewrite Hx; reflexivity).
  destruct (acct_pop wl x t A Hh Hf) as (A1 & A2 & A3).
  rewrite Hx in A1, A3. simpl in A1, A3.
  assert (Ff : failing (popped wl x t) = false) by exact H4.
  split; [exact H1 |]. split; [exact H2 |]. split; [exact Ff |].
  split; [exact H3 |]. split; [exact RM |]. split; [| exact BM].
  constructor; auto.
Qed.

End EngineProperties.

(** C4. At every instant of every run the customers holding a server are
    at most [num_servers] and the waiting line is at most
    [queue_capacity] (a capacity the data model takes non-negative); every
    event processed, an arrival with its admission check included,
    leaves it so, and so does the stop at the horizon. *)
Theorem capacity_respected (cfg : Config) (rnd : nat -> Q) (n : nat) (w : World) :
  (0 <= queue_capacity cfg)%Z ->
  world_at cfg rnd n = Some w ->
  let within (v : World) :=
    (Z.of_nat (length (users v)) <= num_servers cfg)%Z
    /\ (Z.of_nat (length (put_queue v)) <= queue_capacity cfg)%Z in
  within w
  /\ (forall w', step cfg rnd w = Continue w' -> within w')
  /\ (forall wf, step cfg rnd w = Stopped wf -> within wf).
Proof.
  intros Hq Hw within.
  apply world_at_reachable in Hw.
  assert (G : forall v, ResInv cfg v -> within v).
  { intros v [R1 R2 _ _]. split; [exact R1 | lia]. }
  split; [| split].
  - apply G. apply (inv_reachable cfg rnd w Hw).
  - intros w' Hs. apply G.
    apply (inv_reachable cfg rnd w'). eapply reach_step; eassumption.
  - intros wf Hs.
    pose proof (inv_reachable cfg rnd w Hw) as (_ & [R1 R2 _ _] & _).
    pose proof (step_cases cfg rnd w) as C.
    destruct (heap w) as [| x t]; [congruence |].
    cbv zeta in C. rewrite C in Hs.
    destruct (e_event x); try discriminate Hs. injection Hs as <-.
    split; simpl; [exact R1 | lia].
Qed.

Lemma capacity_respected_witness :
  (0 <= queue_capacity cfg_small)%Z
  /\ world_at cfg_small rnd_busy 12 = Some world_busy_12
  /\ users world_busy_12 = [2%nat]
  /\ put_queue world_busy_12 = [(3%nat, 3)]
  /\ (Z.of_nat (length (users world_busy_12)) <= num_servers cfg_small)%Z
  /\ (Z.of_nat (length (put_queue world_busy_12))
      <= queue_capacity cfg_small)%Z.
Proof.
  split; [vm_compute; discriminate |].
  split; [vm_compute; reflexivity |].
  split; [reflexivity |]. split; [reflexivity |].
  refine (proj1 (capacity_respected cfg_small rnd_busy 12 world_busy_12 _ _)).
  - vm_compute; discriminate.
  - vm_compute; reflexivity.
Defined.

Section Accounting.

Variable cfg : Config.
Variable rnd : nat -> Q.

Lemma final_services fuel wf :
  run_engine cfg rnd fuel = Ok wf ->
  Forall (began_before_horizon cfg) (heap wf).
Proof.
  intros Hr. apply run_engine_stops in Hr.
  destruct Hr as (wl & x & t & (I & R & A & B) & Hh & Hx & ->).
  pose proof (busy_started _ _ B) as S. rewrite Hh in S.
  inversion S as [| ? ? _ St]; subst. simpl.
  pose proof (sched_horizon _ _ I) as Hn.
  eapply Forall_impl; [| exact St].
  intros e. unfold started_by, began_before_horizon.
  destruct (e_event e); try exact (fun H => H). intros [_ H]. lra.
Qed.

End Accounting.

(** C1 (as amended). When a run returns, the arrivals recorded are the
    customers served, the customers rejected, and the customers admitted
    that are still waiting or still holding a server at the horizon:
    served plus rejected never exceeds the number of arrivals, and falls
    short of it by the customers in the system. *)
Theorem arrivals_accounted (cfg : Config) (rnd : nat -> Q) (fuel : nat) (wf : World) :
  run_engine cfg rnd fuel = Ok wf ->
  length (arrival_times (self wf))
  = (customers_served (self wf) + customers_rejected (self wf)
     + (length (put_queue wf) + length (users wf)))%nat.
Proof.
  intros Hr. apply final_world in Hr.
  destruct Hr as (_ & _ & Hf & Hi & _ & [A1 _ _] & _).
  rewrite (A1 Hf). unfold in_system. rewrite Hi. lia.
Qed.

Lemma arrivals_accounted_witness :
  run_engine cfg_small rnd_busy 40 = Ok world_busy_final
  /\ length (arrival_times (self world_busy_final)) = 4%nat
  /\ length (arrival_times (self world_busy_final))
     = (customers_served (self world_busy_final)
        + customers_rejected (self world_busy_final)
        + (length (put_queue world_busy_final)
           + length (users world_busy_final)))%nat.
Proof.
  split; [vm_compute; reflexivity |]. split; [reflexivity |].
  apply (arrivals_accounted cfg_small rnd_busy 40 world_busy_final).
  vm_compute; reflexivity.
Defined.

(** C1 as stated fails: one customer arrives at 1 and is still in service
    at the horizon 5; one arrival was recorded, nobody was served or
    rejected. *)
Lemma served_plus_rejected_short_of_arrivals :
  match run_engine cfg_small rnd_long_service 10 with
  | Ok wf =>
      (customers_served (self wf) + customers_rejected (self wf))%nat = 0%nat
      /\ arrival_times (self wf) = [1]
  | _ => False
  end.
Proof. vm_compute. split; reflexivity. Qed.

Section Completions.

Variable cfg : Config.
Variable rnd : nat -> Q.

Lemma trigger_put_keeps w :
  now (trigger_put cfg w) = now w /\ self (trigger_put cfg w) = self w.
Proof.
  unfold trigger_put. destruct (put_queue w) as [| [cid arr] rest];
    [split; reflexivity |].
  destruct (_ <? _)%Z; split; reflexivity.
Qed.

Lemma generator_loop_keeps c w :
  now (customer_generator_loop cfg rnd c w) = now w
  /\ self (customer_generator_loop cfg rnd c w) = self w.
Proof.
  unfold customer_generator_loop, expovariate.
  destruct (Qeq_bool (arrival_rate cfg) 0); [split; reflexivity |].
  destruct (Qle_bool 0 _); split; reflexivity.
Qed.

(** Processing an entry moves the clock to it and touches the records of
    completed services only when the entry is the end of a service. *)
Lemma step_completion w x h w' :
  heap w = x :: h -> step cfg rnd w = Continue w' ->
  now w' = e_time x /\ completion_recorded x (self w) (self w').
Proof.
  intros Hh Hs. pose proof (step_cases cfg rnd w) as C.
  rewrite Hh in C. cbv zeta in C. rewrite C in Hs. clear C.
  unfold completion_recorded.
  destruct (e_event x) as [| cid | cid | cid arr | cid arr st | | | e |];
    try discriminate Hs; injection Hs as <-.
  - destruct (generator_loop_keeps 0 (popped w x h)) as [-> ->].
    repeat split.
  - unfold customer_process_start, request.
    match goal with
    | |- context [trigger_put cfg ?v] =>
        destruct (trigger_put_keeps v) as [-> ->]
    end.
    repeat split.
  - unfold customer_generator_resume.
    match goal with
    | |- context [customer_generator_loop cfg rnd ?c ?v] =>
        destruct (generator_loop_keeps c v) as [-> ->]
    end.
    destruct (_ <? _)%Z; repeat split.
  - unfold customer_process_granted, expovariate.
    destruct (Qeq_bool (service_rate cfg) 0); [repeat split |].
    destruct (Qle_bool 0 _); repeat split.
  - unfold customer_process_served. repeat split.
  - destruct (trigger_put_keeps (popped w x h)) as [-> ->]. repeat split.
  - repeat split.
Qed.

(** Processing an entry touches the waits and the service times only
    when the entry grants a server, which is where a service begins. *)
Lemma step_service w x h w' :
  heap w = x :: h -> step cfg rnd w = Continue w' ->
  service_begun x w w'.
Proof.
  intros Hh Hs. pose proof (step_cases cfg rnd w) as C.
  rewrite Hh in C. cbv zeta in C. rewrite C in Hs. clear C.
  unfold service_begun.
  destruct (e_event x) as [| cid | cid | cid arr | cid arr st | | | e |];
    try discriminate Hs; injection Hs as <-.
  - destruct (generator_loop_keeps 0 (popped w x h)) as [_ ->].
    split; reflexivity.
  - unfold customer_process_start, request.
    match goal with
    | |- context [trigger_put cfg ?v] =>
        destruct (trigger_put_keeps v) as [_ ->]
    end.
    split; reflexivity.
  - unfold customer_generator_resume.
    match goal with
    | |- context [customer_generator_loop cfg rnd ?c ?v] =>
        destruct (generator_loop_keeps c v) as [_ ->]
    end.
    destruct (_ <? _)%Z; split; reflexivity.
  - unfold customer_process_granted, expovariate.
    destruct (Qeq_bool (service_rate cfg) 0).
    + split; [reflexivity |]. intros F.
      rewrite failing_fail in F. discriminate F.
    + destruct (Qle_bool 0 _).
      * split; [reflexivity |]. intros _.
        exists (rnd (rng w) / service_rate cfg).
        split; [reflexivity |].
        cbn [heap schedule set_self popped now eid self].
        apply (Permutation_in _ (Permutation_sym (heappush_perm _ _))).
        left. reflexivity.
      * split; [reflexivity |]. intros F.
        rewrite failing_fail in F. discriminate F.
  - unfold customer_process_served. split; reflexivity.
  - destruct (trigger_put_keeps (popped w x h)) as [_ ->].
    split; reflexivity.
  - split; reflexivity.
Qed.

End Completions.

(** C3 (as amended). A run returns when the clock reaches the horizon,
    without waiting for the services in progress: a service is recorded
    as completed (system time, served count, busy time) only when its
    completion instant lies strictly before [sim_time]; the services
    begun before the horizon and due at or after it have left their wait
    time and service time in the series and nothing else.  And a run does
    return, whenever the rates, the server count and the horizon are
    positive and the draws stay away from zero.

    The second part follows the records through the run.  They are
    empty in the world the event loop starts on.  Every entry the loop
    pops before it returns lies strictly before [sim_time].  The waits
    and the service times change only when the entry popped grants a
    server: the service begins at the instant of that entry, and its end
    is scheduled one service time later.  The records of completed
    services change only when the entry popped is the end of a service,
    which is then recorded at the instant of that entry.  The iteration
    that pops the until event, where the run returns, leaves all records
    as they are. *)
Theorem horizon_cuts_services (cfg : Config) (rnd : nat -> Q) :
  (forall fuel wf,
      run_engine cfg rnd fuel = Ok wf ->
      now wf == sim_time cfg
      /\ length (system_times (self wf)) = customers_served (self wf)
      /\ length (service_times (self wf))
         = (customers_served (self wf) + in_service wf)%nat
      /\ length (wait_times (self wf)) = length (service_times (self wf))
      /\ Forall (fun e => sim_time cfg <= e_time e) (heap wf)
      /\ Forall (began_before_horizon cfg) (heap wf)
      /\ exists wl,
          reachable cfg rnd wl /\ step cfg rnd wl = Stopped wf
          /\ self wf = self wl)
  /\ ((forall w0, start_world cfg = Ok w0 -> self w0 = init_sim)
      /\ forall w x h w',
          reachable cfg rnd w -> heap w = x :: h ->
          step cfg rnd w = Continue w' ->
          e_time x < sim_time cfg
          /\ now w' = e_time x
          /\ service_begun x w w'
          /\ completion_recorded x (self w) (self w'))
  /\ (forall delta,
         0 < arrival_rate cfg -> 0 < service_rate cfg ->
         (0 < num_servers cfg)%Z -> 0 < sim_time cfg ->
         0 < delta -> (forall n, delta <= rnd n) ->
         exists fuel wf, run_engine cfg rnd fuel = Ok wf).
Proof.
  split; [| split; [split |]].
  - intros fuel wf Hr.
    pose proof (final_services cfg rnd fuel wf Hr) as Hb.
    assert (Hl : exists wl,
               reachable cfg rnd wl /\ step cfg rnd wl = Stopped wf
               /\ self wf = self wl).
    { unfold run_engine in Hr.
      destruct (start_world cfg) as [w0 | e |] eqn:E; try discriminate.
      apply env_run_stops in Hr; [| apply reach_start; exact E].
      destruct Hr as (wl & Hw & Hs). exists wl.
      split; [exact Hw |]. split; [exact Hs |].
      pose proof (step_cases cfg rnd wl) as C.
      destruct (heap wl) as [| x t]; [congruence |].
      cbv zeta in C. rewrite C in Hs.
      destruct (e_event x); try discriminate Hs.
      injection Hs as <-. reflexivity. }
    apply final_world in Hr.
    destruct Hr as (Hn & Hle & Hf & _ & _ & [_ A2 A3] & _).
    destruct (A3 Hf) as [A4 A5]. auto 10.
  - intros w0 E. unfold start_world in E.
    destruct (num_servers cfg <=? 0)%Z; [discriminate |].
    destruct (Qle_bool _ _); [discriminate |].
    injection E as <-. reflexivity.
  - intros w x h w' Hw Hh Hs.
    destruct (step_completion cfg rnd w x h w' Hh Hs) as [Hn Hc].
    pose proof (step_service cfg rnd w x h w' Hh Hs) as Hb.
    split; [| split; [| split]; assumption].
    pose proof (inv_reachable cfg rnd w Hw) as (I & _).
    apply (popped_before_horizon cfg w x h I Hh).
    intros Hu. pose proof (step_cases cfg rnd w) as C.
    rewrite Hh in C. cbv zeta in C. rewrite Hu in C. congruence.
  - intros delta Ha Hs Hc Ht Hd Hr.
    apply (run_engine_returns cfg rnd delta); assumption.
Qed.

Lemma horizon_cuts_services_witness :
  (run_engine cfg_small rnd_busy 40 = Ok world_busy_final
   /\ customers_served (self world_busy_final) = 3%nat
   /\ in_service world_busy_final = 1%nat
   /\ length (service_times (self world_busy_final))
      = (customers_served (self world_busy_final)
         + in_service world_busy_final)%nat)
  /\ (world_at cfg_small rnd_busy 12 = Some world_busy_12
      /\ map (fun e => (e_time e, e_event e)) (firstn 1 (heap world_busy_12))
         = [(4, ServiceTimeout 2 2 2)]
      /\ customers_served (self world_busy_12) = 1%nat
      /\ forall w',
          step cfg_small rnd_busy world_busy_12 = Continue w' ->
          4 < sim_time cfg_small
          /\ customers_served (self w') = 2%nat
          /\ system_times (self w')
             = system_times (self world_busy_12) ++ [4 - 2])
  /\ ((forall n, 1 # 4 <= rnd_busy n)
      /\ exists fuel wf, run_engine cfg_small rnd_busy fuel = Ok wf).
Proof.
  assert (Hn : forall n, 1 # 4 <= rnd_busy n).
  { intros n. unfold rnd_busy.
    do 9 (destruct n as [| n]; [simpl; lra |]).
    destruct n; simpl; lra. }
  pose proof (horizon_cuts_services cfg_small rnd_busy) as (P1 & (_ & P2) & P3).
  split; [| split].
  - split; [vm_compute; reflexivity |].
    split; [reflexivity |]. split; [reflexivity |].
    apply (P1 40%nat world_busy_final). vm_compute; reflexivity.
  - split; [vm_compute; reflexivity |]. split; [reflexivity |].
    split; [reflexivity |]. intros w' Hs.
    destruct (heap world_busy_12) as [| x h] eqn:Hh; [discriminate |].
    assert (Hx : e_time x = 4 /\ e_event x = ServiceTimeout 2 2 2).
    { vm_compute in Hh. injection Hh as <- _. split; reflexivity. }
    destruct Hx as [Ht He].
    destruct (P2 world_busy_12 x h w') as (L & _ & _ & C);
      [apply (world_at_reachable cfg_small rnd_busy 12);
       vm_compute; reflexivity
      | exact Hh | exact Hs |].
    unfold completion_recorded in C. rewrite He, Ht in C.
    destruct C as (C1 & C2 & _). rewrite Ht in L.
    split; [exact L |]. split; [rewrite C1; reflexivity | exact C2].
  - split; [exact Hn |].
    apply (P3 (1 # 4)); try reflexivity; exact Hn.
Defined.

(** C3 as stated fails: the service that begins at 1 and lasts 10 is in
    progress when the run returns at 5; its service time is in the series,
    its completion is not recorded and stays in the heap, due at 11. *)
Lemma service_in_progress_not_completed :
  match run_engine cfg_small rnd_long_service 10 with
  | Ok wf =>
      now wf = 5
      /\ service_times (self wf) = [10]
      /\ system_times (self wf) = []
      /\ customers_served (self wf) = 0%nat
      /\ server_busy_time (self wf) = 0
      /\ map (fun e => (e_time e, e_event e)) (heap wf)
         = [(11, ArrivalTimeout 1); (11, ServiceTimeout 1 1 10)]
  | _ => False
  end.
Proof. vm_compute. repeat split; reflexivity. Qed.

(** ** Server utilization *)

Lemma run_returns np_sqrt cfg rnd fuel res :
  run np_sqrt cfg rnd fuel = Ok res ->
  exists wf,
    run_engine cfg rnd fuel = Ok wf
    /\ res = calculate_metrics np_sqrt cfg (self wf).
Proof.
  unfold run. destruct (run_engine cfg rnd fuel) as [wf | e |];
    try discriminate.
  intros E. injection E as <-. exists wf. split; reflexivity.
Qed.

Lemma busy_time_bounded cfg rnd fuel wf :
  run_engine cfg rnd fuel = Ok wf ->
  0 <= server_busy_time (self wf)
  /\ server_busy_time (self wf) <= inject_Z (num_servers cfg) * sim_time cfg.
Proof.
  intros Hr. apply final_world in Hr.
  destruct Hr as (Hn & _ & _ & _ & _ & _ & (B1 & _ & B3 & B4)).
  pose proof (elapsed_nonneg _ _ B3) as He.
  split; [exact B1 |]. rewrite <- Hn. lra.
Qed.

(** C6. The utilization a run reports lies in [[0, 1]].  (A run that
    returns a result has [num_servers >= 1] and [sim_time > 0]: the
    scheduling library refuses anything else.) *)
Theorem server_utilization_in_unit_interval
        (np_sqrt : Q -> Q) (cfg : Config) (rnd : nat -> Q) (fuel : nat)
        (res : Result) :
  run np_sqrt cfg rnd fuel = Ok res ->
  0 <= res_server_utilization res /\ res_server_utilization res <= 1.
Proof.
  intros Hr. apply run_returns in Hr. destruct Hr as (wf & Hr & ->).
  destruct (busy_time_bounded cfg rnd fuel wf Hr) as [B1 B2].
  simpl. unfold utilization_of.
  assert (R0 : round 0 4 = 0) by reflexivity.
  assert (R1 : round 1 4 = 1) by reflexivity.
  destruct (Qpos_bool (inject_Z (num_servers cfg) * sim_time cfg)) eqn:P.
  - assert (Hp : 0 < inject_Z (num_servers cfg) * sim_time cfg).
    { unfold Qpos_bool in P. apply negb_true_iff in P.
      destruct (Qlt_le_dec 0 (inject_Z (num_servers cfg) * sim_time cfg))
        as [L | L]; [exact L |].
      apply Qle_bool_iff in L. congruence. }
    split.
    + rewrite <- R0. apply round_mono.
      apply Qle_shift_div_l; [exact Hp | lra].
    + rewrite <- R1. apply round_mono.
      apply Qle_shift_div_r; [exact Hp | lra].
  - rewrite R0. split; lra.
Qed.

Lemma server_utilization_in_unit_interval_witness :
  run sqrt_stub cfg_small rnd_busy 40 = Ok result_busy
  /\ res_server_utilization result_busy = 11 # 20
  /\ 0 <= res_server_utilization result_busy
  /\ res_server_utilization result_busy <= 1.
Proof.
  split; [vm_compute; reflexivity |]. split; [reflexivity |].
  apply (server_utilization_in_unit_interval sqrt_stub cfg_small rnd_busy 40).
  vm_compute; reflexivity.
Defined.

(** ** Malformed configurations *)

Section Malformed.

Variable cfg : Config.
Variable rnd : nat -> Q.

Lemma all_rejected_generator_loop w c :
  AllRejected w -> AllRejected (customer_generator_loop cfg rnd c w).
Proof.
  intros [N1 N2 N3 N4 N5 N6 N7].
  destruct (generator_loop_effect cfg rnd c w)
    as (e & Hh & _ & _ & _ & _ & _ & _ & He & _ & Hu & Hq & Hs).
  constructor; rewrite ?Hh, ?Hu, ?Hq, ?Hs; try assumption.
  rewrite count_ev_heappush, N1.
  destruct (is_failed (e_event e)) eqn:F.
  - destruct (e_event e); try discriminate F. reflexivity.
  - destruct (He eq_refl) as [k ->]. reflexivity.
Qed.

Lemma all_rejected_step w w' :
  (queue_capacity cfg < 0)%Z -> AllRejected w ->
  step cfg rnd w = Continue w' -> AllRejected w'.
Proof.
  intros Hq N Hs. pose proof (step_cases cfg rnd w) as C.
  destruct (heap w) as [| x t] eqn:Hh; [congruence |].
  cbv zeta in C. rewrite C in Hs. clear C.
  assert (M : AllRejected (popped w x t)
              /\ is_customer_event (e_event x) = false).
  { destruct N as [N1 N2 N3 N4 N5 N6 N7]. rewrite Hh in N1.
    rewrite count_ev_cons in N1.
    destruct (is_customer_event (e_event x)); [discriminate |].
    split; [constructor; assumption | reflexivity]. }
  destruct M as [M Hx].
  destruct (e_event x) eqn:Ex; try discriminate Hs; try discriminate Hx;
    injection Hs as <-.
  - apply all_rejected_generator_loop; exact M.
  - unfold customer_generator_resume. apply all_rejected_generator_loop.
    destruct M as [N1 N2 N3 N4 N5 N6 N7]. simpl in *.
    rewrite N2. simpl.
    assert (Hc : (0 <? queue_capacity cfg)%Z = false)
      by (apply Z.ltb_ge; lia).
    rewrite Hc. constructor; simpl; try assumption.
    rewrite length_app, N5. simpl. lia.
Qed.

Lemma all_rejected_reachable w :
  (queue_capacity cfg < 0)%Z -> reachable cfg rnd w -> AllRejected w.
Proof.
  intros Hq. induction 1 as [w Hs | w w' _ IH Hs].
  - apply start_world_ok in Hs. destruct Hs as (_ & _ & ->).
    constructor; reflexivity.
  - eapply all_rejected_step; eassumption.
Qed.

Lemma all_rejected_final fuel wf :
  (queue_capacity cfg < 0)%Z -> run_engine cfg rnd fuel = Ok wf ->
  AllRejected wf.
Proof.
  intros Hq. unfold run_engine.
  destruct (start_world cfg) as [w0 | e |] eqn:E; try discriminate.
  intros Hs. apply env_run_stops in Hs; [| apply reach_start; exact E].
  destruct Hs as (wl & Hr & Hs).
  pose proof (all_rejected_reachable wl Hq Hr) as [N1 N2 N3 N4 N5 N6 N7].
  pose proof (step_cases cfg rnd wl) as C.
  destruct (heap wl) as [| x t]; [congruence |].
  cbv zeta in C. rewrite C in Hs.
  destruct (e_event x) eqn:Ex; try discriminate Hs. injection Hs as <-.
  rewrite count_ev_cons, Ex in N1. simpl in N1.
  constructor; assumption.
Qed.

(** With a zero arrival rate the generator fails at its first draw and
    the failure leaves [env.run] at the second event. *)
Lemma zero_arrival_rate fuel :
  (0 < num_servers cfg)%Z -> 0 < sim_time cfg ->
  arrival_rate cfg == 0 ->
  run_engine cfg rnd (S (S fuel)) = Raise ZeroDivisionError.
Proof.
  intros Hc Ht Hr. unfold run_engine.
  destruct (start_world cfg) as [w0 | e |] eqn:E.
  - apply start_world_ok in E. destruct E as (_ & _ & ->).
    cbn [env_run step heap e_event].
    unfold customer_generator_loop, expovariate.
    apply Qeq_bool_iff in Hr. rewrite Hr. unfold fail, schedule.
    cbn [now heap eid heappush].
    match goal with |- context [entry_lt ?a ?b] =>
      assert (L : entry_lt a b = true) end.
    { apply entry_lt_true_iff. simpl. left. lra. }
    rewrite L. reflexivity.
  - exfalso. unfold start_world in E.
    destruct (num_servers cfg <=? 0)%Z eqn:C;
      [apply Z.leb_le in C; lia |].
    simpl in E. destruct (Qle_bool (sim_time cfg) 0) eqn:T; [| discriminate].
    apply Qle_bool_iff in T. lra.
  - unfold start_world in E.
    destruct (num_servers cfg <=? 0)%Z; [discriminate |].
    simpl in E. destruct (Qle_bool (sim_time cfg) 0); discriminate.
Qed.

(** With a negative arrival rate the first positive draw is a negative
    delay, which [env.timeout] refuses. *)
Lemma negative_arrival_rate fuel :
  (0 < num_servers cfg)%Z -> 0 < sim_time cfg ->
  arrival_rate cfg < 0 -> 0 < rnd 0%nat ->
  run_engine cfg rnd (S (S fuel)) = Raise ValueError.
Proof.
  intros Hc Ht Hr Hd. unfold run_engine.
  destruct (start_world cfg) as [w0 | e |] eqn:E.
  - apply start_world_ok in E. destruct E as (_ & _ & ->).
    cbn [env_run step heap e_event].
    unfold customer_generator_loop, expovariate.
    assert (Hz : Qeq_bool (arrival_rate cfg) 0 = false).
    { apply not_true_iff_false. intros E. apply Qeq_bool_iff in E. lra. }
    rewrite Hz. cbn [rng].
    assert (Hb : Qle_bool 0 (rnd 0%nat / arrival_rate cfg) = false).
    { apply not_true_iff_false. intros E. apply Qle_bool_iff in E.
      assert (N : rnd 0%nat / arrival_rate cfg < 0).
      { apply Qdiv_pos_neg; lra. }
      lra. }
    rewrite Hb. unfold fail, schedule.
    cbn [now heap eid heappush].
    match goal with |- context [entry_lt ?a ?b] =>
      assert (L : entry_lt a b = true) end.
    { apply entry_lt_true_iff. simpl. left. lra. }
    rewrite L. reflexivity.
  - exfalso. unfold start_world in E.
    destruct (num_servers cfg <=? 0)%Z eqn:C;
      [apply Z.leb_le in C; lia |].
    simpl in E. destruct (Qle_bool (sim_time cfg) 0) eqn:T; [| discriminate].
    apply Qle_bool_iff in T. lra.
  - unfold start_world in E.
    destruct (num_servers cfg <=? 0)%Z; [discriminate |].
    simpl in E. destruct (Qle_bool (sim_time cfg) 0); discriminate.
Qed.

(** *** A service rate that cannot serve *)

Lemma failing_generator_loop c w :
  failing (customer_generator_loop cfg rnd c w) = false -> failing w = false.
Proof. apply acct_generator_loop. Qed.

(** No service starts unless a failure is on its way out. *)
Lemma no_service_step w w' :
  service_rate cfg == 0 \/ (service_rate cfg < 0 /\ forall n, 0 < rnd n) ->
  (failing w = false -> wait_times (self w) = []) ->
  step cfg rnd w = Continue w' ->
  failing w' = false -> wait_times (self w') = [].
Proof.
  intros Hr N Hs. pose proof (step_cases cfg rnd w) as C.
  destruct (heap w) as [| x t] eqn:Hh; [congruence |].
  cbv zeta in C. rewrite C in Hs. clear C.
  assert (M : is_failed (e_event x) = false ->
              failing (popped w x t) = false ->
              wait_times (self (popped w x t)) = []).
  { intros Hx F. apply N. rewrite <- (acct_mid w x t Hh Hx). exact F. }
  clear N Hh. generalize dependent (popped w x t). clear w. intros w Hs M.
  destruct (e_event x) eqn:Ex; try discriminate Hs; injection Hs as <-;
    specialize (M eq_refl).
  - intros F. pose proof (failing_generator_loop _ _ F) as F'.
    destruct (generator_loop_effect cfg rnd 0 w)
      as (_ & _ & _ & _ & _ & _ & _ & _ & _ & _ & _ & _ & Hs).
    rewrite Hs. auto.
  - unfold customer_process_start, request. intros F.
    match goal with |- context [trigger_put _ ?w2] =>
      destruct (trigger_put_effect cfg w2) as (Es & _ & _ & Ef) end.
    rewrite Es. rewrite Ef in F. simpl. apply M. exact F.
  - unfold customer_generator_resume. intros F.
    apply failing_generator_loop in F.
    match goal with |- context [customer_generator_loop _ _ ?c ?w2] =>
      destruct (generator_loop_effect cfg rnd c w2)
        as (_ & _ & _ & _ & _ & _ & _ & _ & _ & _ & _ & _ & Hs) end.
    rewrite Hs. revert F.
    match goal with |- context [if ?b then _ else _] => destruct b end;
      rewrite ?failing_schedule; simpl; intros F; apply M; exact F.
  - unfold customer_process_granted, expovariate. intros F. exfalso.
    destruct (Qeq_bool (service_rate cfg) 0) eqn:Z.
    + unfold fail in F. rewrite failing_schedule in F. discriminate.
    + cbn [fst snd] in F.
      assert (Hn : Qle_bool 0 (rnd (rng w) / service_rate cfg) = false).
      { destruct Hr as [Hr | [Hr Hd]].
        - apply Qeq_bool_iff in Hr. congruence.
        - apply not_true_iff_false. intros E. apply Qle_bool_iff in E.
          assert (G : rnd (rng w) / service_rate cfg < 0)
            by (apply Qdiv_pos_neg; [apply Hd | lra]).
          lra. }
      cbn [rng set_self] in F. rewrite Hn in F.
      unfold fail in F. rewrite failing_schedule in F. discriminate.
  - unfold customer_process_served, release. intros F.
    rewrite !failing_schedule in F. simpl in *. apply M. exact F.
  - intros F. destruct (trigger_put_effect cfg w) as (Es & _ & _ & Ef).
    rewrite Es. rewrite Ef in F. auto.
  - exact M.
Qed.

Lemma no_service_final fuel wf :
  service_rate cfg == 0 \/ (service_rate cfg < 0 /\ forall n, 0 < rnd n) ->
  run_engine cfg rnd fuel = Ok wf ->
  wait_times (self wf) = [] /\ customers_served (self wf) = 0%nat.
Proof.
  intros Hr Hs.
  assert (G : forall w, reachable cfg rnd w ->
                        failing w = false -> wait_times (self w) = []).
  { induction 1 as [w E | w w' _ IH E].
    - apply start_world_ok in E. destruct E as (_ & _ & ->). reflexivity.
    - eapply no_service_step; eassumption. }
  pose proof (final_world cfg rnd fuel wf Hs)
    as (_ & _ & Hf & _ & _ & [_ A2 A3] & _).
  assert (W : wait_times (self wf) = []).
  { unfold run_engine in Hs.
    destruct (start_world cfg) as [w0 | e |] eqn:E; try discriminate.
    apply env_run_stops in Hs; [| apply reach_start; exact E].
    destruct Hs as (wl & Hr' & Hs).
    pose proof (step_cases cfg rnd wl) as C.
    destruct (heap wl) as [| x t] eqn:Hh; [congruence |].
    cbv zeta in C. rewrite C in Hs.
    destruct (e_event x) eqn:Ex; try discriminate Hs. injection Hs as <-.
    simpl. apply (G wl Hr').
    rewrite <- (acct_mid wl x t Hh); [exact Hf | rewrite Ex; reflexivity]. }
  split; [exact W |].
  destruct (A3 Hf) as [A4 A5]. rewrite W in A5. simpl in A5.
  rewrite <- A5 in A4. lia.
Qed.

(** *** A run that rejects everybody does return *)

Hypothesis queue_negative : (queue_capacity cfg < 0)%Z.
Hypothesis rate_positive : 0 < arrival_rate cfg.
Hypothesis draws_nonneg : forall n, 0 <= rnd n.

Lemma generator_alone_stops j w :
  generator_alone cfg rnd j w ->
  sim_time cfg <= arrival_instant (arrival_rate cfg) rnd j ->
  exists wf, step cfg rnd w = Stopped wf.
Proof.
  intros (_ & _ & _ & c & t & u & e1 & e2 & Ht & Hu & [[L Hh] | [L Hh]]) Hs.
  - lra.
  - unfold step. rewrite Hh. simpl. eexists; reflexivity.
Qed.

Lemma generator_alone_continues j w :
  generator_alone cfg rnd j w ->
  arrival_instant (arrival_rate cfg) rnd j < sim_time cfg ->
  exists w', step cfg rnd w = Continue w'
             /\ generator_alone cfg rnd (S j) w'.
Proof.
  intros (Hr & Hu' & Hq & c & t & u & e1 & e2 & Ht & Hu & [[L Hh] | [L Hh]]) Hs;
    [| lra].
  unfold step. rewrite Hh. cbn [e_event e_time].
  eexists. split; [reflexivity |].
  unfold customer_generator_resume. cbn [put_queue set_self].
  rewrite Hq. cbn [length].
  assert (Hc : (Z.of_nat 0 <? queue_capacity cfg)%Z = false)
    by (apply Z.ltb_ge; simpl; lia).
  rewrite Hc. unfold customer_generator_loop, expovariate.
  assert (Hz : Qeq_bool (arrival_rate cfg) 0 = false).
  { apply not_true_iff_false. intros E. apply Qeq_bool_iff in E. lra. }
  rewrite Hz. cbn [rng set_self].
  assert (Hd : 0 <= rnd (rng w) / arrival_rate cfg)
    by (apply Qdiv_nonneg; [apply draws_nonneg | lra]).
  assert (Hb : Qle_bool 0 (rnd (rng w) / arrival_rate cfg) = true)
    by (apply Qle_bool_iff; exact Hd).
  rewrite Hb. unfold generator_alone, schedule.
  cbn [rng users put_queue heap now eid set_self heappush].
  rewrite Hr in *. repeat split; try assumption.
  exists (S c), (t + rnd j / arrival_rate cfg), u, (eid w), e2.
  split; [simpl; rewrite Ht; reflexivity |]. split; [exact Hu |].
  match goal with |- context [entry_lt ?a ?b] =>
    destruct (entry_lt a b) eqn:C end.
  - left. split; [| reflexivity].
    apply entry_lt_true_iff in C. simpl in C. unfold NORMAL, URGENT in C.
    destruct C as [C | [_ [C | [C _]]]]; [exact C | lia | discriminate].
  - right. split; [| reflexivity].
    apply not_true_iff_false in C. rewrite entry_lt_true_iff in C.
    simpl in C. destruct (Qlt_le_dec (t + rnd j / arrival_rate cfg) u)
      as [G | G]; [exfalso; apply C; left; exact G | exact G].
Qed.

Lemma generator_alone_returns m : forall j w,
  generator_alone cfg rnd j w ->
  sim_time cfg <= arrival_instant (arrival_rate cfg) rnd (j + m) ->
  exists wf, env_run cfg rnd (S m) w = Ok wf.
Proof.
  induction m as [| m IH]; intros j w G Hs.
  - rewrite Nat.add_0_r in Hs.
    destruct (generator_alone_stops j w G Hs) as [wf E].
    exists wf. simpl. rewrite E. reflexivity.
  - destruct (Qlt_le_dec (arrival_instant (arrival_rate cfg) rnd j)
                         (sim_time cfg)) as [L | L].
    + destruct (generator_alone_continues j w G L) as (w' & E & G').
      destruct (IH (S j) w' G') as [wf Ew];
        [rewrite Nat.add_succ_comm; exact Hs |].
      exists wf. change (env_run cfg rnd (S (S m)) w)
        with (match step cfg rnd w with
              | Continue w' => env_run cfg rnd (S m) w'
              | Stopped w' => Ok w'
              | Raised e => Raise e
              end).
      rewrite E. exact Ew.
    + destruct (generator_alone_stops j w G L) as [wf E].
      exists wf. simpl. rewrite E. reflexivity.
Qed.

(** Once the running sum of the inter-arrival times reaches the horizon
    the run returns. *)
Lemma rejecting_run_returns N :
  (0 < num_servers cfg)%Z -> 0 < sim_time cfg ->
  sim_time cfg <= arrival_instant (arrival_rate cfg) rnd N ->
  exists wf, run_engine cfg rnd (S N) = Ok wf.
Proof.
  intros Hc Ht Hs.
  destruct N as [| m]; [simpl in Hs; lra |].
  unfold run_engine.
  destruct (start_world cfg) as [w0 | e |] eqn:E.
  - apply start_world_ok in E. destruct E as (_ & _ & ->).
    change (env_run cfg rnd (S (S m)) ?w)
      with (match step cfg rnd w with
            | Continue w' => env_run cfg rnd (S m) w'
            | Stopped w' => Ok w'
            | Raised e => Raise e
            end).
    cbn [step heap e_event e_time].
    apply (generator_alone_returns m 1); [| exact Hs].
    unfold customer_generator_loop, expovariate.
    assert (Hz : Qeq_bool (arrival_rate cfg) 0 = false).
    { apply not_true_iff_false. intros E. apply Qeq_bool_iff in E. lra. }
    rewrite Hz. cbn [rng].
    assert (Hd : 0 <= rnd 0%nat / arrival_rate cfg)
      by (apply Qdiv_nonneg; [apply draws_nonneg | lra]).
    assert (Hb : Qle_bool 0 (rnd 0%nat / arrival_rate cfg) = true)
      by (apply Qle_bool_iff; exact Hd).
    rewrite Hb. unfold generator_alone, schedule.
    cbn [rng users put_queue heap now eid heappush].
    repeat split.
    exists 0%nat, (0 + 0 + rnd 0%nat / arrival_rate cfg),
      (0 + (sim_time cfg - 0)), 2%nat, 1%nat.
    split; [simpl; ring |]. split; [ring |].
    match goal with |- context [entry_lt ?a ?b] =>
      destruct (entry_lt a b) eqn:C end.
    + left. split; [| reflexivity].
      apply entry_lt_true_iff in C. simpl in C. unfold NORMAL, URGENT in C.
      destruct C as [C | [_ [C | [C _]]]]; [exact C | lia | discriminate].
    + right. split; [| reflexivity].
      apply not_true_iff_false in C. rewrite entry_lt_true_iff in C.
      simpl in C.
      destruct (Qlt_le_dec (0 + 0 + rnd 0%nat / arrival_rate cfg)
                           (0 + (sim_time cfg - 0)))
        as [G | G]; [exfalso; apply C; left; exact G | exact G].
  - exfalso. unfold start_world in E.
    destruct (num_servers cfg <=? 0)%Z eqn:C;
      [apply Z.leb_le in C; lia |].
    simpl in E. destruct (Qle_bool (sim_time cfg) 0) eqn:T; [| discriminate].
    apply Qle_bool_iff in T. lra.
  - unfold start_world in E.
    destruct (num_servers cfg <=? 0)%Z; [discriminate |].
    simpl in E. destruct (Qle_bool (sim_time cfg) 0); discriminate.
Qed.

End Malformed.

(** C2 (as amended). The engine validates nothing itself and knows no
    configuration error of its own; what a malformed configuration does
    is decided by the libraries underneath.
    - A server count [<= 0] or an horizon [<= 0] makes [run] fail with the
      scheduling library's [ValueError] before any event is processed.
    - A zero arrival rate makes it fail with [ZeroDivisionError] at the
      generator's first draw; a negative one with [ValueError] when the
      first draw is positive.
    - A service rate that is zero, or negative with positive draws, goes
      unnoticed until a customer is granted a server: a run that returns
      has started no service.
    - A negative queue capacity is no error at all: every arrival is
      rejected, nobody is served, and the run returns as soon as the
      arrivals have passed the horizon. *)
Theorem malformed_configurations
        (np_sqrt : Q -> Q) (cfg : Config) (rnd : nat -> Q) (fuel : nat) :
  ((num_servers cfg <= 0)%Z \/ sim_time cfg <= 0 ->
   run np_sqrt cfg rnd fuel = Raise ValueError)
  /\ ((0 < num_servers cfg)%Z -> 0 < sim_time cfg ->
      arrival_rate cfg == 0 ->
      run np_sqrt cfg rnd (S (S fuel)) = Raise ZeroDivisionError)
  /\ ((0 < num_servers cfg)%Z -> 0 < sim_time cfg ->
      arrival_rate cfg < 0 -> 0 < rnd 0%nat ->
      run np_sqrt cfg rnd (S (S fuel)) = Raise ValueError)
  /\ (service_rate cfg == 0
      \/ (service_rate cfg < 0 /\ forall n, 0 < rnd n) ->
      forall wf, run_engine cfg rnd fuel = Ok wf ->
                 wait_times (self wf) = []
                 /\ customers_served (self wf) = 0%nat)
  /\ ((queue_capacity cfg < 0)%Z ->
      (forall wf, run_engine cfg rnd fuel = Ok wf ->
                  customers_served (self wf) = 0%nat
                  /\ customers_rejected (self wf)
                     = length (arrival_times (self wf))
                  /\ wait_times (self wf) = []
                  /\ service_times (self wf) = [])
      /\ ((0 < num_servers cfg)%Z -> 0 < sim_time cfg ->
          0 < arrival_rate cfg -> (forall n, 0 <= rnd n) ->
          sim_time cfg <= arrival_instant (arrival_rate cfg) rnd fuel ->
          exists res, run np_sqrt cfg rnd (S fuel) = Ok res
                      /\ res_customers_served res = 0%nat)).
Proof.
  split; [| split; [| split; [| split]]].
  - intros H. unfold run, run_engine, start_world.
    destruct (num_servers cfg <=? 0)%Z eqn:C; [reflexivity |].
    apply Z.leb_gt in C. simpl.
    destruct (Qle_bool (sim_time cfg) 0) eqn:T; [reflexivity |].
    destruct H as [H | H]; [lia |].
    apply Qle_bool_iff in H. congruence.
  - intros Hc Ht Hr. unfold run.
    rewrite zero_arrival_rate by assumption. reflexivity.
  - intros Hc Ht Hr Hd. unfold run.
    rewrite negative_arrival_rate by assumption. reflexivity.
  - intros Hr wf Hs. apply (no_service_final cfg rnd fuel wf Hr Hs).
  - intros Hq. split.
    + intros wf Hr.
      destruct (all_rejected_final cfg rnd fuel wf Hq Hr) as [_ _ _ N4 N5 N6 N7].
      auto.
    + intros Hc Ht Hr Hd Hs.
      destruct (rejecting_run_returns cfg rnd Hq Hr Hd fuel Hc Ht Hs)
        as [wf Hw].
      exists (calculate_metrics np_sqrt cfg (self wf)).
      unfold run. rewrite Hw. split; [reflexivity |].
      destruct (all_rejected_final cfg rnd (S fuel) wf Hq Hw) as [_ _ _ N4 _ _ _].
      exact N4.
Qed.

Lemma malformed_configurations_witness :
  ((num_servers (mkConfig 1 1 0 5 10) <= 0)%Z
   /\ run sqrt_stub (mkConfig 1 1 0 5 10) rnd_busy 40 = Raise ValueError)
  /\ (sim_time (mkConfig 1 1 1 0 10) <= 0
      /\ run sqrt_stub (mkConfig 1 1 1 0 10) rnd_busy 40 = Raise ValueError)
  /\ (arrival_rate (mkConfig 0 1 1 5 10) == 0
      /\ run sqrt_stub (mkConfig 0 1 1 5 10) rnd_busy 40
         = Raise ZeroDivisionError)
  /\ (arrival_rate (mkConfig (-1) 1 1 5 10) < 0 /\ 0 < rnd_busy 0
      /\ run sqrt_stub (mkConfig (-1) 1 1 5 10) rnd_busy 40
         = Raise ValueError)
  /\ (service_rate (mkConfig 1 0 1 5 10) == 0
      /\ run_engine (mkConfig 1 0 1 5 10) rnd_late 40 = Ok world_idle
      /\ wait_times (self world_idle) = []
      /\ customers_served (self world_idle) = 0%nat)
  /\ ((queue_capacity cfg_negative_queue < 0)%Z
      /\ run_engine cfg_negative_queue rnd_busy 40 = Ok world_rejecting
      /\ customers_rejected (self world_rejecting) = 4%nat
      /\ customers_served (self world_rejecting) = 0%nat
      /\ customers_rejected (self world_rejecting)
         = length (arrival_times (self world_rejecting)))
  /\ (sim_time cfg_negative_queue
      <= arrival_instant (arrival_rate cfg_negative_queue) rnd_busy 40
      /\ exists res, run sqrt_stub cfg_negative_queue rnd_busy 41 = Ok res
                     /\ res_customers_served res = 0%nat).
Proof.
  assert (Hn : forall n, 0 <= rnd_busy n).
  { intros n. unfold rnd_busy.
    do 9 (destruct n as [| n]; [simpl; lra |]).
    destruct n; simpl; lra. }
  assert (Hs : sim_time cfg_negative_queue
               <= arrival_instant (arrival_rate cfg_negative_queue) rnd_busy 40)
    by (vm_compute; discriminate).
  split; [| split; [| split; [| split; [| split; [| split]]]]].
  - split; [vm_compute; discriminate |].
    apply (proj1 (malformed_configurations sqrt_stub (mkConfig 1 1 0 5 10)
                                           rnd_busy 40)).
    left. vm_compute; discriminate.
  - split; [vm_compute; discriminate |].
    apply (proj1 (malformed_configurations sqrt_stub (mkConfig 1 1 1 0 10)
                                           rnd_busy 40)).
    right. vm_compute; discriminate.
  - split; [reflexivity |].
    apply (proj1 (proj2 (malformed_configurations
                          sqrt_stub (mkConfig 0 1 1 5 10) rnd_busy 38)));
      reflexivity.
  - split; [reflexivity |]. split; [reflexivity |].
    apply (proj1 (proj2 (proj2 (malformed_configurations
                          sqrt_stub (mkConfig (-1) 1 1 5 10) rnd_busy 38))));
      reflexivity.
  - split; [reflexivity |]. split; [vm_compute; reflexivity |].
    apply (proj1 (proj2 (proj2 (proj2 (malformed_configurations
                          sqrt_stub (mkConfig 1 0 1 5 10) rnd_late 40))))).
    + left. reflexivity.
    + vm_compute; reflexivity.
  - split; [reflexivity |]. split; [vm_compute; reflexivity |].
    split; [reflexivity |].
    destruct (proj1 (proj2 (proj2 (proj2 (proj2 (malformed_configurations
                sqrt_stub cfg_negative_queue rnd_busy 40)))) eq_refl)
                world_rejecting) as (N1 & N2 & _); [vm_compute; reflexivity |].
    split; [exact N1 | exact N2].
  - split; [exact Hs |].
    apply (proj2 (proj2 (proj2 (proj2 (proj2 (malformed_configurations
                sqrt_stub cfg_negative_queue rnd_busy 40)))) eq_refl));
      try reflexivity; assumption.
Defined.

(** C2 as stated fails: a queue capacity of -1 raises nothing; [run]
    returns a result in which all four arrivals were rejected. *)
Lemma negative_queue_capacity_accepted :
  match run sqrt_stub cfg_negative_queue rnd_busy 40 with
  | Ok res =>
      res_customers_served res = 0%nat
      /\ res_customers_rejected res = 4%nat
      /\ res_rejection_probability res = 1
      /\ res_input_params res = cfg_negative_queue
  | _ => False
  end.
Proof. vm_compute. repeat split; reflexivity. Qed.

(* ================================================================ *)
(** * Part V: the metrics aggregator and the statistics module *)
(* ================================================================ *)

(** C7. Every aggregate of the result bundle is computed over the full
    series of the run; only the four series copied into the bundle are
    cut to their first 100 entries. *)
Theorem aggregates_use_full_series (np_sqrt : Q -> Q) (cfg : Config) (s : Sim) :
  let r := calculate_metrics np_sqrt cfg s in
  let mean (l : list Q) := if is_empty l then 0 else Qsum l / Qlen l in
  let var (l : list Q) := if (1 <? length l)%nat then np_var l else 0 in
  (* the series, truncated *)
  (res_wait_times r = map (fun t => round t 2) (firstn 100 (wait_times s))
   /\ res_service_times r
      = map (fun t => round t 2) (firstn 100 (service_times s))
   /\ res_queue_lengths r = firstn 100 (queue_lengths s)
   /\ res_arrival_times r
      = map (fun t => round t 2) (firstn 100 (arrival_times s)))
  (* the aggregates, over everything *)
  /\ res_avg_wait_time r = round (mean (wait_times s)) 2
  /\ res_avg_service_time r = round (mean (service_times s)) 2
  /\ res_avg_system_time r = round (mean (system_times s)) 2
  /\ res_avg_queue_length r
     = round (mean (map (fun n => inject_Z (Z.of_nat n)) (queue_lengths s))) 2
  /\ res_max_queue_length r = max_queue_length s
  /\ res_var_wait_time r = round (var (wait_times s)) 2
  /\ res_var_service_time r = round (var (service_times s)) 2
  /\ res_std_wait_time r = round (np_sqrt (var (wait_times s))) 2
  /\ res_std_service_time r = round (np_sqrt (var (service_times s))) 2
  /\ res_server_utilization r
     = round (if Qpos_bool (inject_Z (num_servers cfg) * sim_time cfg)
              then server_busy_time s
                   / (inject_Z (num_servers cfg) * sim_time cfg)
              else 0) 4
  /\ res_effective_arrival_rate r
     = round (if Qpos_bool (sim_time cfg)
              then inject_Z (Z.of_nat (length (arrival_times s)))
                   / sim_time cfg
              else 0) 4
  /\ res_rejection_probability r
     = round (if (0 <? customers_served s + customers_rejected s)%nat
              then inject_Z (Z.of_nat (customers_rejected s))
                   / inject_Z (Z.of_nat (customers_served s
                                         + customers_rejected s))
              else 0) 4.
Proof.
  cbv zeta. unfold calculate_metrics, avg_of, var_of, utilization_of,
    effective_arrival_rate_of, rejection_probability_of, slice_to, np_mean, Qlen.
  cbn [res_wait_times res_service_times res_queue_lengths res_arrival_times
       res_avg_wait_time res_avg_service_time res_avg_system_time
       res_avg_queue_length res_max_queue_length res_var_wait_time
       res_var_service_time res_std_wait_time res_std_service_time
       res_server_utilization res_effective_arrival_rate
       res_rejection_probability].
  repeat split; reflexivity.
Qed.

(** The aggregates do see past the hundredth entry: with a hundred waits
    of 1 and one of 5 the bundle carries a hundred entries and a mean
    that only the full series gives. *)
Example mean_over_all_waits :
  let r := calculate_metrics sqrt_stub cfg_small sim_101_a in
  length (res_wait_times r) = 100%nat
  /\ res_avg_wait_time r = round (105 # 101) 2
  /\ res_avg_wait_time r <> round (np_mean (firstn 100 (wait_times sim_101_a))) 2.
Proof.
  vm_compute. repeat split; try reflexivity. discriminate.
Qed.

Section StatisticsProperties.

Variable np_sqrt : Q -> Q.
Variable stats_skew : list Q -> Q.
Variable stats_kurtosis : list Q -> Q.
Variable stats_shapiro : list Q -> Q * Q.
Variable stats_kstest_expon : list Q -> Q -> Q -> Q * Q.
Variable stats_t_ppf : Q -> nat -> Q.
Variable stats_ttest_1samp : list Q -> Q -> Q * Q.
Variable stats_pearsonr : list Q -> list Q -> pyfloat * pyfloat.

(** [analyze] reads nothing of its object but the two series. *)
Lemma analyze_reads_series sa sa' :
  sa_wait_times sa = sa_wait_times sa' ->
  sa_service_times sa = sa_service_times sa' ->
  analyze np_sqrt stats_skew stats_kurtosis stats_shapiro
          stats_kstest_expon stats_t_ppf stats_ttest_1samp stats_pearsonr sa
  = analyze np_sqrt stats_skew stats_kurtosis stats_shapiro
            stats_kstest_expon stats_t_ppf stats_ttest_1samp stats_pearsonr
            sa'.
Proof.
  intros Hw Hs. unfold analyze, descriptive_statistics,
    test_distributions, confidence_intervals, hypothesis_tests,
    correlation_analysis.
  rewrite Hw, Hs. reflexivity.
Qed.

Lemma analysis_of_states (cfg cfg' : Config) (s s' : Sim) :
  map (fun t => round t 2) (firstn 100 (wait_times s))
  = map (fun t => round t 2) (firstn 100 (wait_times s')) ->
  map (fun t => round t 2) (firstn 100 (service_times s))
  = map (fun t => round t 2) (firstn 100 (service_times s')) ->
  analyze np_sqrt stats_skew stats_kurtosis stats_shapiro
          stats_kstest_expon stats_t_ppf stats_ttest_1samp stats_pearsonr
          (new_analysis (calculate_metrics np_sqrt cfg s))
  = analyze np_sqrt stats_skew stats_kurtosis stats_shapiro
            stats_kstest_expon stats_t_ppf stats_ttest_1samp stats_pearsonr
            (new_analysis (calculate_metrics np_sqrt cfg' s')).
Proof.
  intros Hw Hs. apply analyze_reads_series; assumption.
Qed.

(** C10. The statistics module is fed the bundle's [wait_times] and
    [service_times]: at most the first 100 observations of each series,
    rounded to two decimals.  Whatever it reports is a function of these
    two lists: two runs whose series agree on that much get the same
    analysis, whatever the rest of the series, the other observations
    and the configurations are. *)
Theorem analysis_sees_truncated_rounded_series
        (cfg cfg' : Config) (rnd rnd' : nat -> Q) (fuel fuel' : nat)
        (wf wf' : World) :
  run_engine cfg rnd fuel = Ok wf ->
  run_engine cfg' rnd' fuel' = Ok wf' ->
  map (fun t => round t 2) (firstn 100 (wait_times (self wf)))
  = map (fun t => round t 2) (firstn 100 (wait_times (self wf'))) ->
  map (fun t => round t 2) (firstn 100 (service_times (self wf)))
  = map (fun t => round t 2) (firstn 100 (service_times (self wf'))) ->
  exists results analysis forecast results' analysis' forecast',
    simulate np_sqrt stats_skew stats_kurtosis stats_shapiro
             stats_kstest_expon stats_t_ppf stats_ttest_1samp
             stats_pearsonr cfg rnd fuel
    = Ok (results, analysis, forecast)
    /\ simulate np_sqrt stats_skew stats_kurtosis stats_shapiro
                stats_kstest_expon stats_t_ppf stats_ttest_1samp
                stats_pearsonr cfg' rnd' fuel'
       = Ok (results', analysis', forecast')
    /\ analysis
       = analyze np_sqrt stats_skew stats_kurtosis stats_shapiro
                 stats_kstest_expon stats_t_ppf stats_ttest_1samp
                 stats_pearsonr
                 (mkStatisticalAnalysis
                    results
                    (map (fun t => round t 2)
                         (firstn 100 (wait_times (self wf))))
                    (map (fun t => round t 2)
                         (firstn 100 (service_times (self wf)))))
    /\ (length (res_wait_times results) <= 100)%nat
    /\ (length (res_service_times results) <= 100)%nat
    /\ analysis = analysis'.
Proof.
  intros Hr Hr' Hw Hs. unfold simulate, run. rewrite Hr, Hr'.
  do 6 eexists. split; [reflexivity |]. split; [reflexivity |].
  split; [reflexivity |].
  split; [unfold calculate_metrics, slice_to; cbn [res_wait_times];
          rewrite length_map; apply firstn_le_length |].
  split; [unfold calculate_metrics, slice_to; cbn [res_service_times];
          rewrite length_map; apply firstn_le_length |].
  apply analysis_of_states; assumption.
Qed.

End StatisticsProperties.

Lemma analysis_sees_truncated_rounded_series_witness :
  run_engine cfg_small rnd_service_a 40 = Ok world_service_a
  /\ run_engine cfg_small rnd_service_b 40 = Ok world_service_b
  /\ service_times (self world_service_a) = [1001 # 1000]
  /\ service_times (self world_service_b) = [1002 # 1000]
  /\ exists results analysis forecast results' analysis' forecast',
       simulate sqrt_stub np_mean np_mean pair_stub kstest_stub t_ppf_stub
                ttest_stub pearsonr_stub cfg_small rnd_service_a 40
       = Ok (results, analysis, forecast)
       /\ simulate sqrt_stub np_mean np_mean pair_stub kstest_stub t_ppf_stub
                   ttest_stub pearsonr_stub cfg_small rnd_service_b 40
          = Ok (results', analysis', forecast')
       /\ analysis = analysis'.
Proof.
  assert (Ha : run_engine cfg_small rnd_service_a 40 = Ok world_service_a)
    by (vm_compute; reflexivity).
  assert (Hb : run_engine cfg_small rnd_service_b 40 = Ok world_service_b)
    by (vm_compute; reflexivity).
  split; [exact Ha |]. split; [exact Hb |].
  split; [reflexivity |]. split; [reflexivity |].
  destruct (analysis_sees_truncated_rounded_series
              sqrt_stub np_mean np_mean pair_stub kstest_stub t_ppf_stub
              ttest_stub pearsonr_stub cfg_small cfg_small
              rnd_service_a rnd_service_b 40 40
              world_service_a world_service_b Ha Hb)
    as (r & a & f & r' & a' & f' & E & E' & _ & _ & _ & Eq);
    [vm_compute; reflexivity | vm_compute; reflexivity |].
  exists r, a, f, r', a', f'. auto.
Defined.

(** ** Confidence interval *)

Lemma Qsquare_nonneg (a : Q) : 0 <= a * a.
Proof.
  destruct a as [n d]. unfold Qle, Qmult; simpl.
  rewrite Z.mul_1_r. apply Z.square_nonneg.
Qed.

Lemma Qsum_squares_nonneg (m : Q) (l : list Q) :
  0 <= Qsum (map (fun x => (x - m) * (x - m)) l).
Proof.
  induction l as [| x l IH]; simpl; [lra |].
  pose proof (Qsquare_nonneg (x - m)). lra.
Qed.

Section ConfidenceInterval.

Variable np_sqrt : Q -> Q.
Variable stats_t_ppf : Q -> nat -> Q.

(** What is used of the two library functions: the square root of a
    non-negative number is not negative, and the Student quantile at a
    level in [[1/2, 1)], with at least one degree of freedom, is not
    negative. *)
Hypothesis np_sqrt_nonneg : forall x, 0 <= x -> 0 <= np_sqrt x.
Hypothesis t_ppf_nonneg :
  forall p df, 1 # 2 <= p -> p < 1 -> (1 <= df)%nat ->
               0 <= stats_t_ppf p df.

Lemma stats_sem_nonneg l : (2 <= length l)%nat -> 0 <= stats_sem np_sqrt l.
Proof.
  intros Hl. unfold stats_sem.
  assert (Hn : 2 <= Qlen l).
  { unfold Qlen. change 2 with (inject_Z 2).
    rewrite <- Zle_Qle. lia. }
  apply Qdiv_nonneg; apply np_sqrt_nonneg.
  - apply Qdiv_nonneg; [apply Qsum_squares_nonneg | lra].
  - lra.
Qed.

(** C8. With at least two waits, the interval is the mean plus and minus
    the standard error times the Student quantile at [(1 + confidence)/2]
    with [n - 1] degrees of freedom, and it brackets the mean, for every
    confidence level in [[0, 1)], the default 0.95 included; with fewer
    than two waits the result is empty. *)
Theorem confidence_interval_brackets_mean
        (confidence : Q) (sa : StatisticalAnalysis) :
  0 <= confidence -> confidence < 1 ->
  ((length (sa_wait_times sa) < 2)%nat ->
   confidence_intervals np_sqrt stats_t_ppf confidence sa = None)
  /\ ((2 <= length (sa_wait_times sa))%nat ->
      exists ci,
        confidence_intervals np_sqrt stats_t_ppf confidence sa = Some ci
        /\ ci_margin_of_error ci
           = round (stats_sem np_sqrt (sa_wait_times sa)
                    * stats_t_ppf ((1 + confidence) / 2)
                                  (length (sa_wait_times sa) - 1)) 2
        /\ ci_lower_bound ci <= ci_mean ci
        /\ ci_mean ci <= ci_upper_bound ci).
Proof.
  intros Hc0 Hc1. unfold confidence_intervals. split.
  - intros Hl. apply Nat.ltb_lt in Hl. rewrite Hl. reflexivity.
  - intros Hl. assert (Hb : (length (sa_wait_times sa) <? 2)%nat = false)
      by (apply Nat.ltb_ge; exact Hl).
    rewrite Hb. eexists. split; [reflexivity |]. cbn [ci_margin_of_error
      ci_lower_bound ci_mean ci_upper_bound].
    split; [reflexivity |].
    assert (Hm : 0 <= stats_sem np_sqrt (sa_wait_times sa)
                      * stats_t_ppf ((1 + confidence) / 2)
                                    (length (sa_wait_times sa) - 1)).
    { apply Qmult_le_0_compat; [apply stats_sem_nonneg; exact Hl |].
      apply t_ppf_nonneg.
      - apply Qle_shift_div_l; lra.
      - apply Qlt_shift_div_r; lra.
      - lia. }
    split; apply round_mono; lra.
Qed.

End ConfidenceInterval.

Lemma confidence_interval_brackets_mean_witness :
  let sa := mkStatisticalAnalysis result_busy [1; 2; 3] [] in
  (forall x, 0 <= x -> 0 <= sqrt_stub x)
  /\ (forall p df, 1 # 2 <= p -> p < 1 -> (1 <= df)%nat ->
                   0 <= t_ppf_stub p df)
  /\ 0 <= 95 # 100 /\ 95 # 100 < 1
  /\ (2 <= length (sa_wait_times sa))%nat
  /\ exists ci,
       confidence_intervals sqrt_stub t_ppf_stub (95 # 100) sa = Some ci
       /\ ci_lower_bound ci <= ci_mean ci
       /\ ci_mean ci <= ci_upper_bound ci.
Proof.
  cbv zeta.
  assert (H1 : forall x, 0 <= x -> 0 <= sqrt_stub x)
    by (intros x Hx; exact Hx).
  assert (H2 : forall (p : Q) (df : nat),
             1 # 2 <= p -> p < 1 -> (1 <= df)%nat -> 0 <= t_ppf_stub p df)
    by (intros; unfold t_ppf_stub; lra).
  assert (H3 : 0 <= 95 # 100) by lra.
  assert (H4 : 95 # 100 < 1) by lra.
  split; [exact H1 |]. split; [exact H2 |]. split; [exact H3 |].
  split; [exact H4 |]. split; [simpl; lia |].
  destruct (proj2 (confidence_interval_brackets_mean
                     sqrt_stub t_ppf_stub H1 H2 (95 # 100)
                     (mkStatisticalAnalysis result_busy [1; 2; 3] []) H3 H4))
    as (ci & E & _ & L & U); [simpl; lia |].
  exists ci. auto.
Defined.

(* ================================================================ *)
(** * Part VI: the demand predictor *)
(* ================================================================ *)

(** C9. With fewer than five timestamps the predictor answers
    ["insufficient_data"], no prediction and confidence zero; the answer
    is computed before anything is done with the timestamps. *)
Theorem too_few_arrivals (np_sqrt : Q -> Q) (arrival_times : list Q)
        (forecast_periods : nat) :
  (length arrival_times < 5)%nat ->
  let f := predict_demand np_sqrt arrival_times forecast_periods in
  fc_trend f = "insufficient_data"%string
  /\ fc_predictions f = []
  /\ fc_confidence f = 0
  /\ fc_details f = None.
Proof.
  intros Hl. unfold predict_demand.
  apply Nat.ltb_lt in Hl. rewrite Hl. repeat split.
Qed.

Lemma too_few_arrivals_witness :
  (length [1; 2; 3; 4] < 5)%nat
  /\ predict_demand sqrt_stub [1; 2; 3; 4] 10 = insufficient_data.
Proof.
  split; [simpl; lia |].
  destruct (too_few_arrivals sqrt_stub [1; 2; 3; 4] 10) as (_ & _ & _ & _);
    [simpl; lia |].
  reflexivity.
Defined.

Lemma seq_from (a n : nat) : seq a n = map (fun k => (a + k)%nat) (seq 0 n).
Proof.
  induction n as [| n IH]; [reflexivity |].
  rewrite !seq_S, map_app, IH. reflexivity.
Qed.

(** With at least five timestamps and three bins, the predictor returns
    [forecast_periods] values: the fitted line at the indices
    [len(arrival_times)], [len(arrival_times) + 1], ... *)
Lemma predictions_of_fitted_line np_sqrt arrival_times forecast_periods :
  (5 <= length arrival_times)%nat ->
  (3 <= length (fst (prepare_time_series arrival_times)))%nat ->
  let X := fst (prepare_time_series arrival_times) in
  let y := snd (prepare_time_series arrival_times) in
  let f := predict_demand np_sqrt arrival_times forecast_periods in
  length (fc_predictions f) = forecast_periods
  /\ fc_predictions f
     = map (fun k => round (predict (fit X y)
                                    (Q_of_nat (length arrival_times + k))) 2)
           (seq 0 forecast_periods).
Proof.
  intros H5 H3 X y f. subst f. unfold predict_demand.
  assert (E5 : (length arrival_times <? 5)%nat = false)
    by (apply Nat.ltb_ge; exact H5).
  rewrite E5.
  destruct (prepare_time_series arrival_times) as [X' y'] eqn:E.
  simpl in H3, X, y. subst X y.
  assert (E3 : (length X' <? 3)%nat = false) by (apply Nat.ltb_ge; exact H3).
  rewrite E3. cbn [fc_predictions].
  rewrite !length_map, length_seq. split; [reflexivity |].
  rewrite (seq_from (length arrival_times)), !map_map. reflexivity.
Qed.

(** C5, evaluated on six timestamps that fall into five bins (indices 0
    to 4) with three periods asked for.  Three values come back, as many
    as asked; they are the fitted line at 6, 7 and 8, the number of
    timestamps and the two integers after it, and not the line at the
    next bin indices 5, 6 and 7. *)
Theorem forecast_starts_at_sample_count :
  let X := fst (prepare_time_series six_arrivals) in
  let y := snd (prepare_time_series six_arrivals) in
  let line (i : Q) := round (predict (fit X y) i) 2 in
  let f := predict_demand sqrt_stub six_arrivals 3 in
  X = [0; 1; 2; 3; 4]
  /\ y = [0; 2; 1; 1; 2]
  /\ length six_arrivals = 6%nat
  /\ length (fc_predictions f) = 3%nat
  /\ fc_predictions f = map line [6; 7; 8]
  /\ fc_predictions f = [12 # 5; 27 # 10; 3]
  /\ map line [5; 6; 7] = [21 # 10; 12 # 5; 27 # 10]
  /\ fc_predictions f <> map line [5; 6; 7].
Proof.
  vm_compute. repeat split; try reflexivity. discriminate.
Qed.

(* ================================================================ *)
(** * Part VII: further properties of the engine *)
(* ================================================================ *)

(** ** The observations along a run *)

Lemma sorted_snoc (l : list Q) (x : Q) :
  StronglySorted Qle l -> Forall (fun t => t <= x) l ->
  StronglySorted Qle (l ++ [x]).
Proof.
  induction l as [| y l IH]; intros S F; simpl.
  - constructor; constructor.
  - apply StronglySorted_inv in S. destruct S as [S Fy].
    inversion F as [| ? ? Hy Fl]; subst.
    constructor; [apply IH; assumption |].
    apply Forall_app. split; [exact Fy | constructor; [exact Hy | constructor]].
Qed.

Lemma list_max_snoc (l : list nat) (x : nat) :
  list_max (l ++ [x]) = Nat.max (list_max l) x.
Proof. rewrite list_max_app. simpl. rewrite Nat.max_0_r. reflexivity. Qed.

Section ObservationFacts.

Variable cfg : Config.
Variable rnd : nat -> Q.

Lemma obs_pop w x t :
  SchedInv cfg w -> ResInv cfg w -> ObsInv cfg w -> heap w = x :: t ->
  ObsMid cfg (if is_init_customer (e_event x) then 1 else 0)
             (if is_init_generator (e_event x) then 1 else 0)
             (popped w x t)
  /\ arrived_by x
  /\ (is_init_customer (e_event x) = true ->
      (Z.of_nat (length (put_queue w)) < queue_capacity cfg)%Z).
Proof.
  intros [S F E N H U] [_ _ R3 _] [O1 O2 O3 O4 O5 O6 O7 O8 O9 O10 O11] Hh.
  rewrite Hh in *. inversion F as [| ? ? Fx _]; subst.
  inversion O7 as [| ? ? Ax At]; subst.
  rewrite !count_ev_cons in *.
  split; [| split; [exact Ax | apply R3]].
  constructor; simpl.
  - exact O1.
  - exact O2.
  - exact O3.
  - eapply Forall_impl; [| exact O4]. simpl. intros a [A1 A2]. split; lra.
  - exact O5.
  - eapply Forall_impl; [| exact O6]. simpl. intros a A. lra.
  - exact At.
  - lra.
  - exact O8.
  - exact O9.
  - lia.
  - lia.
Qed.

Lemma obsmid_obs w : ObsMid cfg 0 0 w -> ObsInv cfg w.
Proof.
  intros [M1 M2 M3 M4 M5 M6 M7 M8 M9 M10 M11 M12].
  constructor; try assumption; lia.
Qed.

(** What the generator does between two suspensions, seen from the
    observations. *)
Lemma generator_loop_obs c w :
  exists e,
    heap (customer_generator_loop cfg rnd c w) = heappush e (heap w)
    /\ arrived_by e
    /\ is_init_customer (e_event e) = false
    /\ is_init_generator (e_event e) = false
    /\ now (customer_generator_loop cfg rnd c w) = now w
    /\ put_queue (customer_generator_loop cfg rnd c w) = put_queue w
    /\ self (customer_generator_loop cfg rnd c w) = self w
    /\ rng (customer_generator_loop cfg rnd c w) = S (rng w).
Proof.
  unfold customer_generator_loop, expovariate.
  destruct (Qeq_bool (arrival_rate cfg) 0);
    [eexists; split; [reflexivity |]; repeat split; exact I |].
  destruct (Qle_bool 0 (rnd (rng w) / arrival_rate cfg));
    eexists; (split; [reflexivity |]); repeat split; exact I.
Qed.

Lemma obs_generator_loop ci c w :
  ObsMid cfg ci 1 w ->
  ObsMid cfg ci 0 (customer_generator_loop cfg rnd c w).
Proof.
  intros [M1 M2 M3 M4 M5 M6 M7 M8 M9 M10 M11 M12].
  destruct (generator_loop_obs c w)
    as (e & Hh & Ha & Hi & Hg & Hn & Hq & Hf & Hr).
  constructor; rewrite ?Hh, ?Hn, ?Hq, ?Hf, ?Hr, ?count_ev_heappush,
    ?Hi, ?Hg; try assumption; try lia.
  apply Forall_heappush. split; assumption.
Qed.

Lemma obs_trigger_put ci gi w :
  ObsMid cfg ci gi w -> ObsMid cfg ci gi (trigger_put cfg w).
Proof.
  intros M. unfold trigger_put.
  destruct (put_queue w) as [| [cid arr] rest] eqn:Hq; [exact M |].
  destruct (Z.of_nat (length (users w)) <? num_servers cfg)%Z; [| exact M].
  destruct M as [M1 M2 M3 M4 M5 M6 M7 M8 M9 M10 M11 M12].
  rewrite Hq in *. simpl in M5.
  apply StronglySorted_inv in M5. destruct M5 as [M5 _].
  inversion M6 as [| ? ? Ha M6']; subst. simpl in Ha.
  constructor; simpl; rewrite ?count_ev_heappush; simpl; try assumption.
  apply Forall_heappush. split; [| exact M7].
  unfold arrived_by; simpl. lra.
Qed.

Lemma obs_schedule_plain ci gi w ev prio d :
  is_init_customer ev = false -> is_init_generator ev = false ->
  arrived_by (mkEntry (now w + d) prio (eid w) ev) ->
  ObsMid cfg ci gi w -> ObsMid cfg ci gi (schedule ev prio d w).
Proof.
  intros H1 H2 Ha [M1 M2 M3 M4 M5 M6 M7 M8 M9 M10 M11 M12].
  constructor; simpl; rewrite ?count_ev_heappush; simpl;
    rewrite ?H1, ?H2; simpl; try assumption.
  apply Forall_heappush. split; assumption.
Qed.

Lemma obs_release ci gi c w :
  ObsMid cfg ci gi w -> ObsMid cfg ci gi (release c w).
Proof.
  intros [M1 M2 M3 M4 M5 M6 M7 M8 M9 M10 M11 M12]. unfold release.
  apply obs_schedule_plain; [reflexivity | reflexivity | exact I |].
  constructor; simpl; assumption.
Qed.

Lemma obs_step w w' :
  SchedInv cfg w -> ResInv cfg w -> ObsInv cfg w ->
  step cfg rnd w = Continue w' -> ObsInv cfg w'.
Proof.
  intros I R O Hs. pose proof (step_cases cfg rnd w) as C.
  destruct (heap w) as [| x t] eqn:Hh; [congruence |].
  cbv zeta in C. rewrite C in Hs. clear C.
  destruct (obs_pop w x t I R O Hh) as (M & Ax & Room).
  assert (Hn : now (popped w x t) = e_time x) by reflexivity.
  change (put_queue w) with (put_queue (popped w x t)) in Room.
  clear I R O Hh. generalize dependent (popped w x t). clear w.
  intros w Hs M Room Hn. unfold arrived_by in Ax. rewrite <- Hn in Ax.
  destruct (e_event x) eqn:Ex; try discriminate Hs; injection Hs as <-;
    simpl in M; apply obsmid_obs.
  - (* InitGenerator *)
    apply obs_generator_loop. exact M.
  - (* InitCustomer *)
    unfold customer_process_start, request. apply obs_trigger_put.
    destruct M as [M1 M2 M3 M4 M5 M6 M7 M8 M9 M10 M11 M12].
    specialize (Room eq_refl).
    constructor; simpl; try assumption.
    + rewrite map_app. simpl. apply sorted_snoc; [exact M5 |].
      apply Forall_map. exact M6.
    + apply Forall_app. split; [exact M6 |].
      constructor; [simpl; lra | constructor].
    + apply Forall_app. split; [exact M9 |].
      constructor; [exact Room | constructor].
    + rewrite list_max_snoc, M10. reflexivity.
    + rewrite length_app. simpl. lia.
  - (* ArrivalTimeout *)
    unfold customer_generator_resume. apply obs_generator_loop.
    destruct M as [M1 M2 M3 M4 M5 M6 M7 M8 M9 M10 M11 M12].
    assert (S' : StronglySorted Qle (arrival_times (self w) ++ [now w])).
    { apply sorted_snoc; [exact M3 |].
      eapply Forall_impl; [| exact M4]. simpl. intros a [_ A]. exact A. }
    assert (F' : Forall (fun t => 0 <= t /\ t <= now w)
                        (arrival_times (self w) ++ [now w])).
    { apply Forall_app. split; [exact M4 |].
      constructor; [split; lra | constructor]. }
    match goal with |- context [if ?b then _ else _] => destruct b end.
    + constructor; simpl; rewrite ?count_ev_heappush; simpl;
        try assumption.
      * apply Forall_heappush. split; [exact I | exact M7].
      * rewrite length_app. simpl. lia.
      * rewrite length_app. simpl. lia.
    + constructor; simpl; try assumption.
      * rewrite length_app. simpl. lia.
      * rewrite length_app. simpl. lia.
  - (* RequestGranted *)
    unfold customer_process_granted, expovariate.
    assert (M' : ObsMid cfg 0 0
                   (set_self
                      (mkSim (customers_served (self w))
                             (customers_rejected (self w))
                             (wait_times (self w) ++ [now w - arrival_time])
                             (service_times (self w)) (system_times (self w))
                             (queue_lengths (self w)) (arrival_times (self w))
                             (server_busy_time (self w))
                             (max_queue_length (self w)))
                      (mkWorld (now w) (heap w) (eid w) (users w)
                               (put_queue w) (S (rng w)) (self w)))).
    { destruct M as [M1 M2 M3 M4 M5 M6 M7 M8 M9 M10 M11 M12].
      constructor; simpl; try assumption.
      - apply Forall_app. split; [exact M1 |].
        constructor; [lra | constructor].
      - rewrite length_app. simpl. lia. }
    destruct (Qeq_bool (service_rate cfg) 0).
    + unfold fail. apply obs_schedule_plain; [reflexivity | reflexivity | exact I |].
      apply obs_release. exact M'.
    + cbn [fst snd].
      match goal with |- context [Qle_bool 0 ?d] =>
        destruct (Qle_bool 0 d) eqn:D end.
      * apply Qle_bool_iff in D.
        apply obs_schedule_plain; [reflexivity | reflexivity | |].
        -- unfold arrived_by; simpl in *. lra.
        -- destruct M' as [M1 M2 M3 M4 M5 M6 M7 M8 M9 M10 M11 M12].
           constructor; simpl in *; assumption.
      * unfold fail. apply obs_schedule_plain; [reflexivity | reflexivity | exact I |].
        apply obs_release.
        destruct M' as [M1 M2 M3 M4 M5 M6 M7 M8 M9 M10 M11 M12].
        constructor; simpl in *; assumption.
  - (* ServiceTimeout *)
    unfold customer_process_served.
    apply obs_schedule_plain; [reflexivity | reflexivity | exact I |].
    apply obs_release.
    destruct M as [M1 M2 M3 M4 M5 M6 M7 M8 M9 M10 M11 M12].
    constructor; simpl; try assumption.
    apply Forall_app. split; [exact M2 |].
    constructor; [lra | constructor].
  - (* Released *)
    apply obs_trigger_put. exact M.
  - (* ProcessDone *)
    exact M.
Qed.

Lemma obs_reachable w : reachable cfg rnd w -> ObsInv cfg w.
Proof.
  induction 1 as [w Hs | w w' Hr IH Hs].
  - apply start_world_ok in Hs. destruct Hs as (_ & _ & ->).
    constructor; simpl; try reflexivity; repeat constructor.
  - pose proof (inv_reachable cfg rnd w Hr) as (I & R & _).
    eapply obs_step; eassumption.
Qed.

End ObservationFacts.

(** ** Service times and busy time *)

Lemma Qsum_snoc (l : list Q) (x : Q) : Qsum (l ++ [x]) == Qsum l + x.
Proof.
  induction l as [| y l IH]; simpl; [ring |]. rewrite IH. ring.
Qed.

Lemma pending_service_time_other e :
  is_service_timeout (e_event e) = false -> pending_service_time e = 0.
Proof.
  unfold pending_service_time. destruct (e_event e); try reflexivity.
  discriminate.
Qed.

Section ServiceSumFacts.

Variable cfg : Config.
Variable rnd : nat -> Q.

Lemma service_sum_schedule ev prio d w :
  Qsum (map pending_service_time (heap (schedule ev prio d w)))
  == pending_service_time (mkEntry (now w + d) prio (eid w) ev)
     + Qsum (map pending_service_time (heap w)).
Proof. unfold schedule; simpl. apply Qsum_heappush. Qed.

Lemma service_sum_trigger_put w :
  Qsum (map pending_service_time (heap (trigger_put cfg w)))
  == Qsum (map pending_service_time (heap w)).
Proof.
  unfold trigger_put.
  destruct (put_queue w) as [| [cid arr] rest]; [reflexivity |].
  destruct (Z.of_nat (length (users w)) <? num_servers cfg)%Z;
    [| reflexivity].
  rewrite service_sum_schedule. unfold pending_service_time; simpl. ring.
Qed.

Lemma service_sum_step w w' :
  ServiceSum w -> step cfg rnd w = Continue w' -> ServiceSum w'.
Proof.
  unfold ServiceSum. intros N Hs. pose proof (step_cases cfg rnd w) as C.
  destruct (heap w) as [| x t] eqn:Hh; [congruence |].
  cbv zeta in C. rewrite C in Hs. clear C.
  assert (M : is_failed (e_event x) = false ->
              failing (popped w x t) = false ->
              Qsum (service_times (self (popped w x t)))
              == server_busy_time (self (popped w x t))
                 + (pending_service_time x
                    + Qsum (map pending_service_time
                                (heap (popped w x t))))).
  { intros Hx F. rewrite <- (acct_mid w x t Hh Hx) in N.
    simpl in N. simpl. apply N. exact F. }
  clear N Hh. generalize dependent (popped w x t). clear w. intros w Hs M.
  unfold pending_service_time at 1 in M.
  destruct (e_event x) eqn:Ex; try discriminate Hs; injection Hs as <-;
    specialize (M eq_refl).
  - intros F. pose proof (failing_generator_loop cfg rnd _ _ F) as F'.
    destruct (generator_loop_effect cfg rnd 0 w)
      as (e & Hh & _ & _ & _ & He & _ & _ & _ & _ & _ & _ & Hs).
    rewrite Hs, Hh, Qsum_heappush, (pending_service_time_other e He).
    rewrite (M F'). ring.
  - unfold customer_process_start, request. intros F.
    match goal with |- context [trigger_put _ ?w2] =>
      destruct (trigger_put_effect cfg w2) as (Es & _ & _ & Ef);
      pose proof (service_sum_trigger_put w2) as Et end.
    rewrite Es, Et. rewrite Ef in F. simpl. rewrite (M F). ring.
  - unfold customer_generator_resume. intros F.
    apply failing_generator_loop in F.
    match goal with |- context [customer_generator_loop _ _ ?c ?w2] =>
      destruct (generator_loop_effect cfg rnd c w2)
        as (e & Hh & _ & _ & _ & He & _ & _ & _ & _ & _ & _ & Hs) end.
    rewrite Hs, Hh, Qsum_heappush, (pending_service_time_other e He).
    revert F.
    match goal with |- context [if ?b then _ else _] => destruct b end.
    + rewrite failing_schedule. simpl. intros F.
      rewrite Qsum_heappush. unfold pending_service_time at 1; simpl.
      rewrite (M F). ring.
    + simpl. intros F. rewrite (M F). ring.
  - unfold customer_process_granted, expovariate. intros F. revert F.
    destruct (Qeq_bool (service_rate cfg) 0).
    + unfold fail. rewrite failing_schedule. discriminate.
    + cbn [fst snd].
      match goal with |- context [Qle_bool 0 ?d] => destruct (Qle_bool 0 d) end.
      * rewrite failing_schedule. simpl. intros F.
        rewrite Qsum_snoc, Qsum_heappush.
        unfold pending_service_time at 1; simpl. rewrite (M F). ring.
      * unfold fail. rewrite failing_schedule. discriminate.
  - unfold customer_process_served, release. intros F.
    rewrite !failing_schedule in F. simpl in F. simpl.
    rewrite !Qsum_heappush. unfold pending_service_time at 1 2; simpl.
    rewrite (M F). ring.
  - intros F. destruct (trigger_put_effect cfg w) as (Es & _ & _ & Ef).
    rewrite Es, service_sum_trigger_put. rewrite Ef in F.
    rewrite (M F). ring.
  - intros F. rewrite (M F). ring.
Qed.

Lemma service_sum_reachable w : reachable cfg rnd w -> ServiceSum w.
Proof.
  induction 1 as [w Hs | w w' _ IH Hs].
  - apply start_world_ok in Hs. destruct Hs as (_ & _ & ->).
    intros _. unfold pending_service_time; simpl. ring.
  - eapply service_sum_step; eassumption.
Qed.

(** The last world of a run that returns. *)
Lemma run_engine_last fuel wf :
  run_engine cfg rnd fuel = Ok wf ->
  exists wl x t,
    reachable cfg rnd wl /\ heap wl = x :: t /\ e_event x = Until
    /\ wf = popped wl x t.
Proof.
  unfold run_engine. destruct (start_world cfg) as [w0 | e |] eqn:E;
    try discriminate.
  intros Hs. apply env_run_stops in Hs; [| apply reach_start; exact E].
  destruct Hs as (wl & Hr & Hs). exists wl.
  pose proof (step_cases cfg rnd wl) as C.
  destruct (heap wl) as [| x t]; [congruence |].
  exists x, t. cbv zeta in C. rewrite C in Hs.
  split; [exact Hr |].
  destruct (e_event x); try discriminate Hs.
  injection Hs as <-. auto.
Qed.

(** The observations of a run that returns. *)
Lemma final_observations fuel wf :
  run_engine cfg rnd fuel = Ok wf ->
  ObsMid cfg 0 0 wf
  /\ Forall (fun t => t < sim_time cfg) (arrival_times (self wf))
  /\ count_ev is_init_customer (heap wf) = 0%nat
  /\ count_ev is_init_generator (heap wf) = 0%nat
  /\ Qsum (service_times (self wf))
     == server_busy_time (self wf)
        + Qsum (map pending_service_time (heap wf)).
Proof.
  intros Hr. pose proof (final_world cfg rnd fuel wf Hr)
    as (_ & _ & Hf & Hi & (_ & _ & Hn & _) & _).
  apply run_engine_last in Hr.
  destruct Hr as (wl & x & t & Hr & Hh & Hx & ->).
  pose proof (inv_reachable cfg rnd wl Hr) as (I & R & _).
  pose proof (obs_reachable cfg rnd wl Hr) as O.
  pose proof (service_sum_reachable wl Hr) as SS.
  destruct (obs_pop cfg wl x t I R O Hh) as (M & _ & _).
  rewrite Hx in M. simpl in M.
  split; [exact M |]. split; [| split; [exact Hi | split]].
  - pose proof (obs_range _ _ O) as Rg. pose proof (sched_horizon _ _ I).
    eapply Forall_impl; [| exact Rg]. simpl. intros a [_ A]. simpl. lra.
  - clear - Hn. simpl in *. induction t as [| y t IH]; [reflexivity |].
    inversion Hn as [| ? ? Hy Ht]; subst.
    rewrite count_ev_cons, (IH Ht).
    destruct (e_event y); try discriminate Hy; reflexivity.
  - unfold ServiceSum in SS. unfold failing in SS, Hf. rewrite Hh in SS.
    simpl in SS, Hf. rewrite Hx in SS. simpl in SS.
    rewrite (SS Hf). unfold pending_service_time at 1. rewrite Hx.
    simpl. ring.
Qed.

End ServiceSumFacts.

(** ** Statements about runs *)

Lemma Qsum_nonneg (l : list Q) : Forall (fun t => 0 <= t) l -> 0 <= Qsum l.
Proof. induction 1 as [| x l Hx _ IH]; simpl; lra. Qed.

Lemma Qlen_nonneg {A : Type} (l : list A) : 0 <= Qlen l.
Proof.
  unfold Qlen. change 0 with (inject_Z 0). rewrite <- Zle_Qle. lia.
Qed.

Lemma np_mean_nonneg (l : list Q) :
  Forall (fun t => 0 <= t) l -> 0 <= np_mean l.
Proof.
  intros H. unfold np_mean.
  apply Qdiv_nonneg; [apply Qsum_nonneg; exact H | apply Qlen_nonneg].
Qed.

Lemma round2_nonneg (x : Q) : 0 <= x -> 0 <= round x 2.
Proof.
  intros H. change 0 with (round 0 2) at 1. apply round_mono. exact H.
Qed.

Lemma round4_nonneg (x : Q) : 0 <= x -> 0 <= round x 4.
Proof.
  intros H. change 0 with (round 0 4) at 1. apply round_mono. exact H.
Qed.

Lemma Forall_firstn {A : Type} (P : A -> Prop) (n : nat) (l : list A) :
  Forall P l -> Forall P (firstn n l).
Proof.
  revert l. induction n as [| n IH]; intros l H; simpl; [constructor |].
  destruct l as [| x l]; [constructor |].
  inversion H; subst. constructor; auto.
Qed.

Lemma sorted_firstn (n : nat) (l : list Q) :
  StronglySorted Qle l -> StronglySorted Qle (firstn n l).
Proof.
  revert l. induction n as [| n IH]; intros l H; simpl; [constructor |].
  destruct l as [| x l]; [constructor |].
  apply StronglySorted_inv in H. destruct H as [H F].
  constructor; [apply IH; exact H | apply Forall_firstn; exact F].
Qed.

Lemma sorted_map_round (n : nat) (l : list Q) :
  StronglySorted Qle l -> StronglySorted Qle (map (fun t => round t n) l).
Proof.
  induction 1 as [| x l _ IH F]; simpl; constructor; [exact IH |].
  apply Forall_map. eapply Forall_impl; [| exact F].
  intros a. apply round_mono.
Qed.

Section ServiceNonnegFacts.

Variable cfg : Config.
Variable rnd : nat -> Q.

Lemma service_nonneg_step w w' :
  ServiceNonneg w -> step cfg rnd w = Continue w' -> ServiceNonneg w'.
Proof.
  unfold ServiceNonneg. intros N Hs. pose proof (step_cases cfg rnd w) as C.
  destruct (heap w) as [| x t] eqn:Hh; [congruence |].
  cbv zeta in C. rewrite C in Hs. clear C.
  assert (M : is_failed (e_event x) = false ->
              failing (popped w x t) = false ->
              Forall (fun t => 0 <= t)
                     (service_times (self (popped w x t)))).
  { intros Hx F. apply N. rewrite <- (acct_mid w x t Hh Hx). exact F. }
  clear N Hh. generalize dependent (popped w x t). clear w. intros w Hs M.
  destruct (e_event x) eqn:Ex; try discriminate Hs; injection Hs as <-;
    specialize (M eq_refl).
  - intros F. pose proof (failing_generator_loop cfg rnd _ _ F) as F'.
    destruct (generator_loop_effect cfg rnd 0 w)
      as (_ & _ & _ & _ & _ & _ & _ & _ & _ & _ & _ & _ & Hs).
    rewrite Hs. auto.
  - unfold customer_process_start, request. intros F.
    match goal with |- context [trigger_put _ ?w2] =>
      destruct (trigger_put_effect cfg w2) as (Es & _ & _ & Ef) end.
    rewrite Es. rewrite Ef in F. simpl. apply M. exact F.
  - unfold customer_generator_resume. intros F.
    apply failing_generator_loop in F.
    match goal with |- context [customer_generator_loop _ _ ?c ?w2] =>
      destruct (generator_loop_effect cfg rnd c w2)
        as (_ & _ & _ & _ & _ & _ & _ & _ & _ & _ & _ & _ & Hs) end.
    rewrite Hs. revert F.
    match goal with |- context [if ?b then _ else _] => destruct b end;
      rewrite ?failing_schedule; simpl; intros F; apply M; exact F.
  - unfold customer_process_granted, expovariate. intros F. revert F.
    destruct (Qeq_bool (service_rate cfg) 0).
    + unfold fail. rewrite failing_schedule. discriminate.
    + cbn [fst snd].
      match goal with |- context [Qle_bool 0 ?d] =>
        destruct (Qle_bool 0 d) eqn:D end.
      * rewrite failing_schedule. simpl. intros F.
        apply Forall_app. split; [apply M; exact F |].
        apply Qle_bool_iff in D. constructor; [exact D | constructor].
      * unfold fail. rewrite failing_schedule. discriminate.
  - unfold customer_process_served, release. intros F.
    rewrite !failing_schedule in F. simpl in *. apply M. exact F.
  - intros F. destruct (trigger_put_effect cfg w) as (Es & _ & _ & Ef).
    rewrite Es. rewrite Ef in F. auto.
  - exact M.
Qed.

Lemma service_nonneg_final fuel wf :
  run_engine cfg rnd fuel = Ok wf ->
  Forall (fun t => 0 <= t) (service_times (self wf)).
Proof.
  intros Hr.
  assert (G : forall w, reachable cfg rnd w -> ServiceNonneg w).
  { induction 1 as [w E | w w' _ IH E].
    - apply start_world_ok in E. destruct E as (_ & _ & ->).
      intros _. constructor.
    - eapply service_nonneg_step; eassumption. }
  pose proof (final_world cfg rnd fuel wf Hr) as (_ & _ & Hf & _).
  apply run_engine_last in Hr.
  destruct Hr as (wl & x & t & Hr & Hh & Hx & ->).
  simpl. apply (G wl Hr).
  rewrite <- (acct_mid wl x t Hh); [exact Hf | rewrite Hx; reflexivity].
Qed.

(** How one event changes the waiting line. *)
Lemma trigger_put_line w :
  put_queue (trigger_put cfg w) = put_queue w
  \/ put_queue (trigger_put cfg w) = tl (put_queue w).
Proof.
  unfold trigger_put.
  destruct (put_queue w) as [| [cid arr] rest] eqn:Hq; [left; exact Hq |].
  destruct (Z.of_nat (length (users w)) <? num_servers cfg)%Z;
    [right; reflexivity | left; exact Hq].
Qed.

Lemma step_line w w' :
  step cfg rnd w = Continue w' -> fifo_change (put_queue w) (put_queue w').
Proof.
  intros Hs. pose proof (step_cases cfg rnd w) as C.
  destruct (heap w) as [| x t] eqn:Hh; [congruence |].
  cbv zeta in C. rewrite C in Hs. clear C.
  change (put_queue w) with (put_queue (popped w x t)).
  clear Hh. generalize dependent (popped w x t). clear w. intros w Hs.
  unfold fifo_change.
  destruct (e_event x) eqn:Ex; try discriminate Hs; injection Hs as <-.
  - destruct (generator_loop_obs cfg rnd 0 w)
      as (_ & _ & _ & _ & _ & _ & Hq & _). left. exact Hq.
  - unfold customer_process_start, request.
    match goal with |- context [trigger_put _ ?w2] =>
      destruct (trigger_put_line w2) as [E | E]; rewrite E end;
      right; right; exists (customer_id, now w); [left | right];
      reflexivity.
  - unfold customer_generator_resume.
    match goal with |- context [customer_generator_loop _ _ ?c ?w2] =>
      destruct (generator_loop_obs cfg rnd c w2)
        as (_ & _ & _ & _ & _ & _ & Hq & _) end.
    rewrite Hq. left.
    match goal with |- context [if ?b then _ else _] => destruct b end;
      reflexivity.
  - unfold customer_process_granted, expovariate. left.
    destruct (Qeq_bool (service_rate cfg) 0); [reflexivity |].
    cbn [fst snd].
    match goal with |- context [Qle_bool 0 ?d] => destruct (Qle_bool 0 d) end;
      reflexivity.
  - left. reflexivity.
  - destruct (trigger_put_line w) as [E | E]; rewrite E; auto.
  - left. reflexivity.
Qed.

End ServiceNonnegFacts.

(** X1. Every wait, service time and time in the system a run records is
    non-negative, and so are the averages and the series of its result
    bundle. *)
Theorem recorded_times_nonnegative
        (np_sqrt : Q -> Q) (cfg : Config) (rnd : nat -> Q) (fuel : nat)
        (wf : World) :
  run_engine cfg rnd fuel = Ok wf ->
  let r := calculate_metrics np_sqrt cfg (self wf) in
  Forall (fun t => 0 <= t) (wait_times (self wf))
  /\ Forall (fun t => 0 <= t) (service_times (self wf))
  /\ Forall (fun t => 0 <= t) (system_times (self wf))
  /\ 0 <= res_avg_wait_time r
  /\ 0 <= res_avg_service_time r
  /\ 0 <= res_avg_system_time r
  /\ Forall (fun t => 0 <= t) (res_wait_times r)
  /\ Forall (fun t => 0 <= t) (res_service_times r).
Proof.
  intros Hr r.
  pose proof (service_nonneg_final cfg rnd fuel wf Hr) as Hs.
  destruct (final_observations cfg rnd fuel wf Hr) as ([M1 M2 _ _ _ _ _ _ _ _ _ _] & _).
  assert (A : forall l, Forall (fun t => 0 <= t) l -> 0 <= round (avg_of l) 2).
  { intros l H. apply round2_nonneg. unfold avg_of.
    destruct (is_empty l); [lra | apply np_mean_nonneg; exact H]. }
  assert (B : forall l, Forall (fun t => 0 <= t) l ->
                        Forall (fun t => 0 <= t)
                               (map (fun t => round t 2) (slice_to 100 l))).
  { intros l H. apply Forall_map. unfold slice_to.
    eapply Forall_impl; [| apply Forall_firstn; exact H].
    intros a. apply round2_nonneg. }
  subst r. unfold calculate_metrics.
  cbn [res_avg_wait_time res_avg_service_time res_avg_system_time
       res_wait_times res_service_times].
  auto 12.
Qed.

Lemma recorded_times_nonnegative_witness :
  run_engine cfg_small rnd_busy 40 = Ok world_busy_final
  /\ wait_times (self world_busy_final) = [0; 0; 1; 1 # 4]
  /\ Forall (fun t => 0 <= t) (wait_times (self world_busy_final))
  /\ 0 <= res_avg_wait_time
            (calculate_metrics sqrt_stub cfg_small (self world_busy_final)).
Proof.
  split; [vm_compute; reflexivity |]. split; [reflexivity |].
  destruct (recorded_times_nonnegative sqrt_stub cfg_small rnd_busy 40
              world_busy_final) as (H1 & _ & _ & H4 & _);
    [vm_compute; reflexivity |].
  split; [exact H1 | exact H4].
Defined.

Lemma list_max_bounds (l : list nat) : Forall (fun q => (q <= list_max l)%nat) l.
Proof. apply list_max_le. apply Nat.le_refl. Qed.

(** X2. Every queue-length sample taken at an admission is strictly below
    [queue_capacity], the running maximum is the maximum of the samples,
    and in the result bundle [max_queue_length] bounds every sample
    reported and is itself below the capacity once somebody was
    admitted. *)
Theorem queue_samples_bounded
        (np_sqrt : Q -> Q) (cfg : Config) (rnd : nat -> Q) (fuel : nat)
        (wf : World) :
  run_engine cfg rnd fuel = Ok wf ->
  let r := calculate_metrics np_sqrt cfg (self wf) in
  Forall (fun q => (Z.of_nat q < queue_capacity cfg)%Z)
         (queue_lengths (self wf))
  /\ max_queue_length (self wf) = list_max (queue_lengths (self wf))
  /\ Forall (fun q => (q <= res_max_queue_length r)%nat) (res_queue_lengths r)
  /\ (queue_lengths (self wf) <> [] ->
      (Z.of_nat (res_max_queue_length r) < queue_capacity cfg)%Z).
Proof.
  intros Hr r.
  destruct (final_observations cfg rnd fuel wf Hr)
    as ([_ _ _ _ _ _ _ _ M9 M10 _ _] & _).
  split; [exact M9 |]. split; [exact M10 |]. subst r.
  unfold calculate_metrics. cbn [res_max_queue_length res_queue_lengths].
  split.
  - unfold slice_to. apply Forall_firstn. rewrite M10. apply list_max_bounds.
  - intros Hne. rewrite M10.
    assert (L : (list_max (queue_lengths (self wf))
                 < Z.to_nat (queue_capacity cfg))%nat).
    { apply list_max_lt; [exact Hne |].
      eapply Forall_impl; [| exact M9]. simpl. intros q Hq. lia. }
    lia.
Qed.

Lemma queue_samples_bounded_witness :
  run_engine cfg_small rnd_busy 40 = Ok world_busy_final
  /\ queue_lengths (self world_busy_final) = [0; 0; 0; 1]%nat
  /\ max_queue_length (self world_busy_final) = 1%nat
  /\ max_queue_length (self world_busy_final)
     = list_max (queue_lengths (self world_busy_final))
  /\ (Z.of_nat (max_queue_length (self world_busy_final))
      < queue_capacity cfg_small)%Z.
Proof.
  split; [vm_compute; reflexivity |]. split; [reflexivity |].
  split; [reflexivity |].
  destruct (queue_samples_bounded sqrt_stub cfg_small rnd_busy 40
              world_busy_final) as (_ & H2 & _ & H4);
    [vm_compute; reflexivity |].
  split; [exact H2 |]. apply H4. discriminate.
Defined.

(** X3. When a run returns, every arrival was either rejected or admitted,
    and every admission left exactly one queue-length sample: the samples
    number the customers served plus those still waiting or holding a
    server. *)
Theorem admissions_sampled (cfg : Config) (rnd : nat -> Q) (fuel : nat)
        (wf : World) :
  run_engine cfg rnd fuel = Ok wf ->
  length (arrival_times (self wf))
  = (customers_rejected (self wf) + length (queue_lengths (self wf)))%nat
  /\ length (queue_lengths (self wf))
     = (customers_served (self wf)
        + (length (put_queue wf) + length (users wf)))%nat.
Proof.
  intros Hr.
  destruct (final_observations cfg rnd fuel wf Hr)
    as ([_ _ _ _ _ _ _ _ _ _ M11 _] & _ & Hi & _).
  pose proof (final_world cfg rnd fuel wf Hr)
    as (_ & _ & Hf & _ & _ & [A1 _ _] & _).
  specialize (A1 Hf). unfold in_system in A1. rewrite Hi in *.
  split; lia.
Qed.

Lemma admissions_sampled_witness :
  run_engine cfg_small rnd_busy 40 = Ok world_busy_final
  /\ length (queue_lengths (self world_busy_final)) = 4%nat
  /\ length (arrival_times (self world_busy_final))
     = (customers_rejected (self world_busy_final)
        + length (queue_lengths (self world_busy_final)))%nat.
Proof.
  split; [vm_compute; reflexivity |]. split; [reflexivity |].
  apply (admissions_sampled cfg_small rnd_busy 40 world_busy_final).
  vm_compute; reflexivity.
Defined.

(** X4. The arrival instants a run records are in non-decreasing order and
    lie in [[0, sim_time)]; the arrival times of the result bundle are in
    non-decreasing order too. *)
Theorem arrivals_in_order
        (np_sqrt : Q -> Q) (cfg : Config) (rnd : nat -> Q) (fuel : nat)
        (wf : World) :
  run_engine cfg rnd fuel = Ok wf ->
  StronglySorted Qle (arrival_times (self wf))
  /\ Forall (fun t => 0 <= t /\ t < sim_time cfg) (arrival_times (self wf))
  /\ StronglySorted Qle
       (res_arrival_times (calculate_metrics np_sqrt cfg (self wf))).
Proof.
  intros Hr.
  destruct (final_observations cfg rnd fuel wf Hr)
    as ([_ _ M3 M4 _ _ _ _ _ _ _ _] & Hl & _).
  split; [exact M3 |]. split.
  - rewrite Forall_forall in *. intros a Ha.
    split; [apply (M4 a Ha) | apply (Hl a Ha)].
  - unfold calculate_metrics. cbn [res_arrival_times].
    apply sorted_map_round. unfold slice_to.
    apply sorted_firstn. exact M3.
Qed.

Lemma arrivals_in_order_witness :
  run_engine cfg_small rnd_busy 40 = Ok world_busy_final
  /\ arrival_times (self world_busy_final) = [1; 2; 3; 4]
  /\ StronglySorted Qle (arrival_times (self world_busy_final))
  /\ Forall (fun t => 0 <= t /\ t < sim_time cfg_small)
            (arrival_times (self world_busy_final)).
Proof.
  split; [vm_compute; reflexivity |]. split; [reflexivity |].
  destruct (arrivals_in_order sqrt_stub cfg_small rnd_busy 40
              world_busy_final) as (H1 & H2 & _);
    [vm_compute; reflexivity |].
  split; assumption.
Defined.

(** X5. The waiting line is first in, first out: at every instant it is in
    order of arrival, nobody in it arrived after the current instant, and
    an event changes it only by adding a customer at the back or taking
    the one at the front. *)
Theorem waiting_line_fifo (cfg : Config) (rnd : nat -> Q) (n : nat) (w : World) :
  world_at cfg rnd n = Some w ->
  StronglySorted Qle (map snd (put_queue w))
  /\ Forall (fun p => snd p <= now w) (put_queue w)
  /\ (forall w', step cfg rnd w = Continue w' ->
                 fifo_change (put_queue w) (put_queue w')).
Proof.
  intros Hw. apply world_at_reachable in Hw.
  pose proof (obs_reachable cfg rnd w Hw) as O.
  split; [apply (obs_line _ _ O) |]. split; [apply (obs_waiting _ _ O) |].
  intros w'. apply step_line.
Qed.

Lemma waiting_line_fifo_witness :
  world_at cfg_small rnd_busy 12 = Some world_busy_12
  /\ put_queue world_busy_12 = [(3%nat, 3)]
  /\ StronglySorted Qle (map snd (put_queue world_busy_12))
  /\ Forall (fun p => snd p <= now world_busy_12) (put_queue world_busy_12).
Proof.
  split; [vm_compute; reflexivity |]. split; [reflexivity |].
  destruct (waiting_line_fifo cfg_small rnd_busy 12 world_busy_12)
    as (H1 & H2 & _); [vm_compute; reflexivity |].
  split; assumption.
Defined.



(** X7. A run that returns has drawn from the random source once for the
    generator's first wait, once per arrival and once per service
    started, and nothing else. *)
Theorem draws_consumed (cfg : Config) (rnd : nat -> Q) (fuel : nat)
        (wf : World) :
  run_engine cfg rnd fuel = Ok wf ->
  rng wf = (1 + length (arrival_times (self wf))
            + length (wait_times (self wf)))%nat.
Proof.
  intros Hr.
  destruct (final_observations cfg rnd fuel wf Hr)
    as ([_ _ _ _ _ _ _ _ _ _ _ M12] & _ & _ & Hg & _).
  rewrite Hg in M12. lia.
Qed.

Lemma draws_consumed_witness :
  run_engine cfg_small rnd_busy 40 = Ok world_busy_final
  /\ rng world_busy_final = 9%nat
  /\ rng world_busy_final
     = (1 + length (arrival_times (self world_busy_final))
        + length (wait_times (self world_busy_final)))%nat.
Proof.
  split; [vm_compute; reflexivity |]. split; [reflexivity |].
  apply (draws_consumed cfg_small rnd_busy 40 world_busy_final).
  vm_compute; reflexivity.
Defined.

(* ================================================================ *)
(** * Part VIII: the aggregator's ratios and the statistics module *)
(* ================================================================ *)

Lemma round_comp x y n : x == y -> round x n == round y n.
Proof.
  intros E. apply Qle_antisym; apply round_mono; lra.
Qed.

Lemma rejection_probability_of_bounds s :
  0 <= rejection_probability_of s <= 1.
Proof.
  unfold rejection_probability_of.
  destruct (0 <? customers_served s + customers_rejected s)%nat eqn:E;
    [| lra].
  apply Nat.ltb_lt in E.
  set (r := inject_Z (Z.of_nat (customers_rejected s))).
  set (t := inject_Z (Z.of_nat (customers_served s + customers_rejected s))).
  assert (R0 : 0 <= r)
    by (unfold r; change 0 with (inject_Z 0); rewrite <- Zle_Qle; lia).
  assert (RT : r <= t) by (unfold r, t; rewrite <- Zle_Qle; lia).
  assert (T0 : 0 < t)
    by (unfold t; change 0 with (inject_Z 0); rewrite <- Zlt_Qlt; lia).
  split; [apply Qdiv_nonneg; lra | apply Qle_shift_div_r; lra].
Qed.

(** X8. Whatever the engine's counters are, the reported rejection
    probability lies between 0 and 1, and it is 0 when no customer was
    rejected (in particular when nobody arrived). *)
Theorem rejection_probability_in_unit_interval
        (np_sqrt : Q -> Q) (cfg : Config) (s : Sim) :
  let r := calculate_metrics np_sqrt cfg s in
  0 <= res_rejection_probability r <= 1
  /\ (customers_rejected s = 0%nat -> res_rejection_probability r == 0).
Proof.
  cbn [calculate_metrics res_rejection_probability].
  pose proof (rejection_probability_of_bounds s) as [L U].
  split; [split |].
  - apply round4_nonneg. exact L.
  - apply Qle_trans with (round 1 4); [apply round_mono; exact U |].
    assert (E1 : round 1 4 = 1) by (vm_compute; reflexivity).
    rewrite E1. lra.
  - intros E. transitivity (round 0 4); [| vm_compute; reflexivity].
    apply round_comp. unfold rejection_probability_of. rewrite E.
    destruct (0 <? customers_served s + 0)%nat; [| reflexivity].
    unfold Qdiv. simpl. ring.
Qed.

Lemma rejection_probability_in_unit_interval_witness :
  customers_rejected (self world_busy_final) = 0%nat
  /\ (0 < customers_served (self world_busy_final))%nat
  /\ res_rejection_probability
       (calculate_metrics sqrt_stub cfg_small (self world_busy_final)) == 0.
Proof.
  split; [reflexivity |]. split; [vm_compute; lia |].
  apply (rejection_probability_in_unit_interval
           sqrt_stub cfg_small (self world_busy_final)).
  reflexivity.
Defined.

(** ** Order statistics *)

Lemma insert_sorted_perm x l : Permutation (insert_sorted x l) (x :: l).
Proof.
  induction l as [| y l IH]; simpl; [reflexivity |].
  destruct (Qle_bool x y); [reflexivity |].
  rewrite IH. apply perm_swap.
Qed.

Lemma sorted_perm l : Permutation (sorted l) l.
Proof.
  induction l as [| x l IH]; simpl; [constructor |].
  rewrite insert_sorted_perm. constructor. exact IH.
Qed.

Lemma insert_sorted_sorted x l :
  StronglySorted Qle l -> StronglySorted Qle (insert_sorted x l).
Proof.
  induction 1 as [| y l Hs IH Hy]; simpl.
  - repeat constructor.
  - destruct (Qle_bool x y) eqn:E.
    + apply Qle_bool_iff in E. constructor.
      * constructor; assumption.
      * constructor; [exact E |].
        eapply Forall_impl; [| exact Hy]. intros z Hz. simpl in Hz. lra.
    + assert (Hyx : y <= x).
      { destruct (Qlt_le_dec y x) as [Lt | Le]; [lra |].
        apply Qle_bool_iff in Le. congruence. }
      constructor; [exact IH |].
      rewrite Forall_forall. intros z Hz.
      apply (Permutation_in _ (insert_sorted_perm x l)) in Hz.
      destruct Hz as [<- | Hz]; [exact Hyx |].
      rewrite Forall_forall in Hy. apply Hy. exact Hz.
Qed.

Lemma sorted_sorted l : StronglySorted Qle (sorted l).
Proof.
  induction l as [| x l IH]; simpl; [constructor |].
  apply insert_sorted_sorted. exact IH.
Qed.

Lemma sorted_nth (s : list Q) :
  StronglySorted Qle s ->
  forall i j, (i <= j < length s)%nat -> nth i s 0 <= nth j s 0.
Proof.
  induction 1 as [| x s Hs IH Hx]; intros i j [Hij Hj]; simpl in Hj;
    [lia |].
  destruct i, j; simpl; try lia.
  - lra.
  - rewrite Forall_forall in Hx. apply Hx, nth_In. lia.
  - apply IH. lia.
Qed.

Lemma fold_left_Qmin_le l :
  forall x, fold_left Qmin l x <= x
            /\ Forall (fun y => fold_left Qmin l x <= y) l.
Proof.
  induction l as [| y l IH]; intros x; simpl; [split; [lra | constructor] |].
  destruct (IH (Qmin x y)) as [A B].
  pose proof (Q.le_min_l x y). pose proof (Q.le_min_r x y).
  split; [lra |]. constructor; [lra | exact B].
Qed.

Lemma fold_left_Qmax_ge l :
  forall x, x <= fold_left Qmax l x
            /\ Forall (fun y => y <= fold_left Qmax l x) l.
Proof.
  induction l as [| y l IH]; intros x; simpl; [split; [lra | constructor] |].
  destruct (IH (Qmax x y)) as [A B].
  pose proof (Q.le_max_l x y). pose proof (Q.le_max_r x y).
  split; [lra |]. constructor; [lra | exact B].
Qed.

Lemma np_min_le l x : In x l -> np_min l <= x.
Proof.
  destruct l as [| y l]; [intros [] |]. simpl.
  destruct (fold_left_Qmin_le l y) as [A B]. rewrite Forall_forall in B.
  intros [<- | H]; [exact A | apply B; exact H].
Qed.

Lemma np_max_ge l x : In x l -> x <= np_max l.
Proof.
  destruct l as [| y l]; [intros [] |]. simpl.
  destruct (fold_left_Qmax_ge l y) as [A B]. rewrite Forall_forall in B.
  intros [<- | H]; [exact A | apply B; exact H].
Qed.

Lemma Qlen_cons {A : Type} (x : A) (l : list A) : Qlen (x :: l) == Qlen l + 1.
Proof.
  unfold Qlen. simpl length.
  rewrite Nat2Z.inj_succ, <- Z.add_1_r, inject_Z_plus. reflexivity.
Qed.

Lemma Qlen_pos {A : Type} (l : list A) : l <> [] -> 1 <= Qlen l.
Proof.
  destruct l as [| x l]; [congruence |]. intros _.
  rewrite Qlen_cons. pose proof (Qlen_nonneg l). lra.
Qed.

Lemma Qsum_upper (m : Q) l :
  Forall (fun x => x <= m) l -> Qsum l <= m * Qlen l.
Proof.
  induction 1 as [| x l Hx _ IH].
  - change (Qlen (@nil Q)) with 0. simpl. lra.
  - rewrite Qlen_cons. simpl. lra.
Qed.

Lemma np_var_nonneg l : 0 <= np_var l.
Proof.
  unfold np_var. apply np_mean_nonneg. rewrite Forall_map, Forall_forall.
  intros x _. apply Qsquare_nonneg.
Qed.

Section Interpolation.

Variable s : list Q.
Hypothesis Hs : StronglySorted Qle s.

Lemma floor_in_range pos :
  0 <= pos -> pos <= Qlen s - 1 ->
  (Z.to_nat (Qfloor pos) < length s)%nat
  /\ 0 <= pos - inject_Z (Qfloor pos) < 1.
Proof.
  intros H0 H1.
  pose proof (Qfloor_le pos) as F1. pose proof (Qlt_floor pos) as F2.
  rewrite inject_Z_plus in F2. change (inject_Z 1) with 1 in F2.
  assert (Z0 : (0 <= Qfloor pos)%Z)
    by (apply (Qfloor_resp_le 0 pos) in H0; exact H0).
  assert (Z1 : (Qfloor pos < Z.of_nat (length s))%Z).
  { rewrite Zlt_Qlt. unfold Qlen in H1. lra. }
  split; [lia | lra].
Qed.

Lemma upper_neighbour lo :
  (lo < length s)%nat ->
  nth lo s 0 <= nth (S lo) s (nth lo s 0)
  /\ In (nth (S lo) s (nth lo s 0)) s
  /\ forall j, (lo < j < length s)%nat ->
               nth (S lo) s (nth lo s 0) <= nth j s 0.
Proof.
  intros Hlo.
  destruct (Nat.lt_ge_cases (S lo) (length s)) as [Lt | Ge].
  - rewrite (nth_indep s (nth lo s 0) 0 Lt).
    split; [apply sorted_nth; [exact Hs | lia] |].
    split; [apply nth_In; exact Lt |].
    intros j Hj. apply sorted_nth; [exact Hs | lia].
  - rewrite (nth_overflow s (nth lo s 0) Ge).
    split; [lra |]. split; [apply nth_In; exact Hlo |].
    intros j Hj. lia.
Qed.

Lemma interpolate_between pos :
  0 <= pos -> pos <= Qlen s - 1 ->
  let lo := Z.to_nat (Qfloor pos) in
  nth lo s 0 <= interpolate s pos <= nth (S lo) s (nth lo s 0).
Proof.
  intros H0 H1 lo.
  destruct (floor_in_range pos H0 H1) as [Hlo [F0 F1]].
  destruct (upper_neighbour lo Hlo) as [Hab _].
  unfold interpolate. fold lo.
  set (a := nth lo s 0) in *. set (b := nth (S lo) s a) in *.
  set (f := pos - inject_Z (Qfloor pos)) in *.
  assert (P : 0 <= f * (b - a)) by (apply Qmult_le_0_compat; lra).
  assert (R : f * (b - a) <= 1 * (b - a))
    by (apply Qmult_le_compat_r; lra).
  lra.
Qed.

Lemma interpolate_mono p1 p2 :
  0 <= p1 -> p1 <= p2 -> p2 <= Qlen s - 1 ->
  interpolate s p1 <= interpolate s p2.
Proof.
  intros H0 H12 H2.
  assert (H1 : p1 <= Qlen s - 1) by lra.
  assert (H0' : 0 <= p2) by lra.
  destruct (floor_in_range p1 H0 H1) as [L1 _].
  destruct (floor_in_range p2 H0' H2) as [L2 _].
  pose proof (Qfloor_resp_le _ _ H12) as Hf.
  assert (Z0 : (0 <= Qfloor p1)%Z)
    by (apply (Qfloor_resp_le 0 p1) in H0; exact H0).
  destruct (Z.eq_dec (Qfloor p1) (Qfloor p2)) as [E | N].
  - destruct (upper_neighbour _ L1) as [Hab _].
    unfold interpolate. rewrite <- E.
    set (a := nth (Z.to_nat (Qfloor p1)) s 0) in *.
    set (b := nth (S (Z.to_nat (Qfloor p1))) s a) in *.
    assert (R : (p1 - inject_Z (Qfloor p1)) * (b - a)
                <= (p2 - inject_Z (Qfloor p1)) * (b - a))
      by (apply Qmult_le_compat_r; lra).
    lra.
  - pose proof (interpolate_between p1 H0 H1) as [_ U].
    pose proof (interpolate_between p2 H0' H2) as [L _].
    destruct (upper_neighbour _ L1) as (_ & _ & M).
    specialize (M (Z.to_nat (Qfloor p2))).
    cbv zeta in U, L. assert (J : (Z.to_nat (Qfloor p1)
                                < Z.to_nat (Qfloor p2) < length s)%nat)
      by lia.
    specialize (M J). lra.
Qed.

End Interpolation.

Lemma np_percentile_interpolate l q :
  np_percentile l q = interpolate (sorted l) (q / 100 * (Qlen l - 1)).
Proof. reflexivity. Qed.

Lemma Qlen_sorted l : Qlen (sorted l) = Qlen l.
Proof. unfold Qlen. rewrite (Permutation_length (sorted_perm l)). reflexivity. Qed.

(** The percentiles of a non-empty series are ordered like their ranks
    and lie between its minimum and its maximum. *)
Lemma np_percentile_mono l q1 q2 :
  l <> [] -> 0 <= q1 -> q1 <= q2 -> q2 <= 100 ->
  np_percentile l q1 <= np_percentile l q2.
Proof.
  intros Hl H0 H12 H2. rewrite !np_percentile_interpolate.
  change (q1 / 100) with (q1 * (1 # 100)).
  change (q2 / 100) with (q2 * (1 # 100)).
  pose proof (Qlen_pos l Hl) as Hn.
  set (n1 := Qlen l - 1) in *.
  assert (N : 0 <= n1) by (unfold n1; lra).
  assert (A : 0 <= q1 * (1 # 100) * n1)
    by (apply Qmult_le_0_compat; [lra | exact N]).
  assert (B : q1 * (1 # 100) * n1 <= q2 * (1 # 100) * n1)
    by (apply Qmult_le_compat_r; [lra | exact N]).
  assert (C : q2 * (1 # 100) * n1 <= 1 * n1)
    by (apply Qmult_le_compat_r; [lra | exact N]).
  apply interpolate_mono; [apply sorted_sorted | exact A | exact B |].
  rewrite Qlen_sorted. fold n1. lra.
Qed.

Lemma np_percentile_bounds l q :
  l <> [] -> 0 <= q -> q <= 100 ->
  np_min l <= np_percentile l q <= np_max l.
Proof.
  intros Hl H0 H1. rewrite np_percentile_interpolate.
  change (q / 100) with (q * (1 # 100)).
  pose proof (Qlen_pos l Hl) as Hn.
  set (n1 := Qlen l - 1) in *.
  assert (N : 0 <= n1) by (unfold n1; lra).
  assert (A : 0 <= q * (1 # 100) * n1)
    by (apply Qmult_le_0_compat; [lra | exact N]).
  assert (C : q * (1 # 100) * n1 <= 1 * n1)
    by (apply Qmult_le_compat_r; [lra | exact N]).
  assert (C' : q * (1 # 100) * n1 <= Qlen (sorted l) - 1)
    by (rewrite Qlen_sorted; fold n1; lra).
  pose proof (interpolate_between (sorted l) (sorted_sorted l) _ A C')
    as [L U].
  destruct (floor_in_range (sorted l) _ A C') as [Hlo _].
  destruct (upper_neighbour (sorted l) (sorted_sorted l) _ Hlo)
    as (_ & Hin & _).
  cbv zeta in L, U.
  assert (I1 : In (nth (Z.to_nat (Qfloor (q * (1 # 100) * n1)))
                       (sorted l) 0) l).
  { apply (Permutation_in _ (sorted_perm l)), nth_In. exact Hlo. }
  apply (Permutation_in _ (sorted_perm l)) in Hin.
  apply np_min_le in I1. apply np_max_ge in Hin. lra.
Qed.

(** ** The statistical analysis *)

Lemma summary_ordered (l : list Q) :
  l <> [] ->
  np_min l <= np_percentile l 25
  /\ np_percentile l 25 <= np_median l
  /\ np_median l <= np_percentile l 75
  /\ np_percentile l 75 <= np_max l.
Proof.
  intros Hl. unfold np_median.
  split; [apply np_percentile_bounds; [exact Hl | lra | lra] |].
  split; [apply np_percentile_mono; [exact Hl | lra | lra | lra] |].
  split; [apply np_percentile_mono; [exact Hl | lra | lra | lra] |].
  apply np_percentile_bounds; [exact Hl | lra | lra].
Qed.

Lemma length_pos_nonempty {A : Type} (l : list A) :
  (0 <? length l)%nat = true -> l <> [].
Proof. destruct l; [discriminate | discriminate]. Qed.

(** X9. The order statistics [analyze] reports are consistent with one
    another for every pair of series, empty ones included: minimum,
    lower quartile, median, upper quartile and maximum of the waiting
    times come in this order, and so do minimum, median and maximum of
    the service times; neither variance is negative.  (Nothing is said
    of the means: each statistic is rounded on its own, and a mean
    computed in floating point can leave the range of the data by one
    unit in the last place, which the rounding may turn into 0.01.) *)
Theorem descriptive_statistics_ordered
        (np_sqrt : Q -> Q) (stats_skew stats_kurtosis : list Q -> Q)
        (sa : StatisticalAnalysis) :
  let d := descriptive_statistics np_sqrt stats_skew stats_kurtosis sa in
  (ws_min (fst d) <= ws_q25 (fst d)
   /\ ws_q25 (fst d) <= ws_median (fst d)
   /\ ws_median (fst d) <= ws_q75 (fst d)
   /\ ws_q75 (fst d) <= ws_max (fst d))
  /\ 0 <= ws_variance (fst d)
  /\ ss_min (snd d) <= ss_median (snd d) <= ss_max (snd d)
  /\ 0 <= ss_variance (snd d).
Proof.
  unfold descriptive_statistics.
  cbn [fst snd ws_min ws_q25 ws_median ws_q75 ws_max ws_variance
       ss_min ss_median ss_max ss_variance].
  pose proof (np_var_nonneg (sa_wait_times sa)) as Vw.
  pose proof (np_var_nonneg (sa_service_times sa)) as Vs.
  assert (W : (0 <? length (sa_wait_times sa))%nat = true ->
              np_min (sa_wait_times sa) <= np_percentile (sa_wait_times sa) 25
              /\ np_percentile (sa_wait_times sa) 25
                 <= np_median (sa_wait_times sa)
              /\ np_median (sa_wait_times sa)
                 <= np_percentile (sa_wait_times sa) 75
              /\ np_percentile (sa_wait_times sa) 75
                 <= np_max (sa_wait_times sa))
    by (intros E; apply summary_ordered, length_pos_nonempty, E).
  assert (S : (0 <? length (sa_service_times sa))%nat = true ->
              np_min (sa_service_times sa)
              <= np_percentile (sa_service_times sa) 25
              /\ np_percentile (sa_service_times sa) 25
                 <= np_median (sa_service_times sa)
              /\ np_median (sa_service_times sa)
                 <= np_percentile (sa_service_times sa) 75
              /\ np_percentile (sa_service_times sa) 75
                 <= np_max (sa_service_times sa))
    by (intros E; apply summary_ordered, length_pos_nonempty, E).
  destruct (0 <? length (sa_wait_times sa))%nat;
    destruct (0 <? length (sa_service_times sa))%nat;
    try (destruct (W eq_refl) as (W1 & W2 & W3 & W4));
    try (destruct (S eq_refl) as (S1 & S2 & S3 & S4));
    repeat match goal with
           | |- _ /\ _ => split
           | |- round _ 2 <= round _ 2 => apply round_mono
           | |- 0 <= round _ 2 => apply round2_nonneg
           end;
    try assumption; try lra.
Qed.

Lemma Qgt_bool_iff (x y : Q) : negb (Qle_bool x y) = true <-> y < x.
Proof.
  rewrite negb_true_iff. split.
  - intros E. destruct (Qlt_le_dec y x) as [Lt | Le]; [exact Lt |].
    apply Qle_bool_iff in Le. congruence.
  - intros Lt. destruct (Qle_bool x y) eqn:E; [| reflexivity].
    apply Qle_bool_iff in E. lra.
Qed.

Lemma Qgt_bool_false_iff (x y : Q) : negb (Qle_bool x y) = false <-> x <= y.
Proof. rewrite negb_false_iff. apply Qle_bool_iff. Qed.

(** X10. Which analyses [analyze] includes is decided by the lengths of
    the two series alone, except for the exponential fit, which also
    needs a positive mean service time: the normality test needs three
    waiting times, the confidence interval and the t-test two, the
    correlation two of each kind. *)
Theorem analyses_present
        (np_sqrt : Q -> Q) (stats_skew stats_kurtosis : list Q -> Q)
        (stats_shapiro : list Q -> Q * Q)
        (stats_kstest_expon : list Q -> Q -> Q -> Q * Q)
        (stats_t_ppf : Q -> nat -> Q)
        (stats_ttest_1samp : list Q -> Q -> Q * Q)
        (stats_pearsonr : list Q -> list Q -> pyfloat * pyfloat)
        (sa : StatisticalAnalysis) :
  let a := analyze np_sqrt stats_skew stats_kurtosis stats_shapiro
                   stats_kstest_expon stats_t_ppf stats_ttest_1samp
                   stats_pearsonr sa in
  let nw := length (sa_wait_times sa) in
  let ns := length (sa_service_times sa) in
  (an_wait_times_normality a <> None <-> (3 <= nw)%nat)
  /\ (an_service_times_exponential a <> None
      <-> (3 <= ns)%nat /\ 0 < np_mean (sa_service_times sa))
  /\ (an_wait_time_ci a <> None <-> (2 <= nw)%nat)
  /\ (an_wait_time_ttest a <> None <-> (2 <= nw)%nat)
  /\ (an_wait_vs_service a <> None <-> (2 <= nw)%nat /\ (2 <= ns)%nat).
Proof.
  intros a nw ns. subst a.
  unfold analyze, test_distributions, confidence_intervals, hypothesis_tests,
    correlation_analysis, slice_to.
  cbn [an_wait_times_normality an_service_times_exponential an_wait_time_ci
       an_wait_time_ttest an_wait_vs_service fst snd].
  fold nw ns.
  split; [| split; [| split; [| split]]].
  - destruct (3 <=? nw)%nat eqn:E.
    + apply Nat.leb_le in E.
      destruct (stats_shapiro _) as [s p].
      split; [intros _; exact E | intros _; discriminate].
    + apply Nat.leb_gt in E. split; [congruence | lia].
  - destruct (3 <=? ns)%nat eqn:E.
    + apply Nat.leb_le in E. unfold Qpos_bool.
      destruct (negb (Qle_bool (np_mean (sa_service_times sa)) 0)) eqn:P.
      * apply Qgt_bool_iff in P.
        destruct (stats_kstest_expon _ _ _) as [s p].
        split; [intros _; split; assumption | intros _; discriminate].
      * apply Qgt_bool_false_iff in P.
        split; [congruence | intros [_ H]; lra].
    + apply Nat.leb_gt in E. split; [congruence | intros [H _]; lia].
  - destruct (nw <? 2)%nat eqn:E.
    + apply Nat.ltb_lt in E. split; [congruence | lia].
    + apply Nat.ltb_ge in E.
      split; [intros _; exact E | intros _; discriminate].
  - destruct (2 <=? nw)%nat eqn:E.
    + apply Nat.leb_le in E.
      destruct (stats_ttest_1samp _ _) as [s p].
      split; [intros _; exact E | intros _; discriminate].
    + apply Nat.leb_gt in E. split; [congruence | lia].
  - destruct (nw <? 2)%nat eqn:E1; destruct (ns <? 2)%nat eqn:E2;
      cbn [orb];
      ltb_prop E1; ltb_prop E2;
      try (split; [congruence | lia]).
    assert (M : (2 <=? Nat.min nw ns)%nat = true)
      by (apply Nat.leb_le; lia).
    rewrite M. destruct (stats_pearsonr _ _) as [c p].
    split; [intros _; split; assumption | intros _; discriminate].
Qed.

(** X11. The strength a correlation is labelled with depends on its
    magnitude only, so a coefficient and its opposite get the same
    strength; "positiva" is reserved for coefficients above zero, so zero
    is labelled "negativa" like the negative ones.  A coefficient that is
    NaN, which is what a constant series gives, is labelled strong and
    negative: every comparison it enters is false. *)
Theorem correlation_labels (r : Q) :
  fst (interpret_correlation (Finite (- r)))
  = fst (interpret_correlation (Finite r))
  /\ (snd (interpret_correlation (Finite r)) = Positiva <-> 0 < r)
  /\ (fst (interpret_correlation (Finite r)) = Fuerte <-> 7 # 10 <= Qabs r)
  /\ (fst (interpret_correlation (Finite r)) = Debil <-> Qabs r < 3 # 10)
  /\ interpret_correlation NaN = (Fuerte, Negativa).
Proof.
  unfold interpret_correlation, pyfloat_abs, pyfloat_lt, pyfloat_gt.
  cbn [fst snd].
  assert (E : Qle_bool (3 # 10) (Qabs (- r)) = Qle_bool (3 # 10) (Qabs r)
              /\ Qle_bool (7 # 10) (Qabs (- r))
                 = Qle_bool (7 # 10) (Qabs r)).
  { split; apply Qleb_comp; try reflexivity; apply Qabs_opp. }
  destruct E as [E3 E7]. rewrite E3, E7.
  split; [reflexivity |].
  split; [| split; [| split; [| reflexivity]]].
  - destruct (negb (Qle_bool r 0)) eqn:P.
    + apply Qgt_bool_iff in P. split; [intros _; exact P | reflexivity].
    + apply Qgt_bool_false_iff in P. split; [discriminate | lra].
  - destruct (negb (Qle_bool (3 # 10) (Qabs r))) eqn:P3;
      destruct (negb (Qle_bool (7 # 10) (Qabs r))) eqn:P7;
      try apply Qgt_bool_iff in P3; try apply Qgt_bool_false_iff in P3;
      try apply Qgt_bool_iff in P7; try apply Qgt_bool_false_iff in P7;
      (split; intros H; try discriminate H; try reflexivity; try lra).
  - destruct (negb (Qle_bool (3 # 10) (Qabs r))) eqn:P3;
      destruct (negb (Qle_bool (7 # 10) (Qabs r))) eqn:P7;
      try apply Qgt_bool_iff in P3; try apply Qgt_bool_false_iff in P3;
      try apply Qgt_bool_iff in P7; try apply Qgt_bool_false_iff in P7;
      (split; intros H; try discriminate H; try reflexivity; try lra).
Qed.

(** X12. The correlation pairs the two series by position and cuts the
    longer one to the length of the shorter: the entries of the longer
    series past that length have no effect on the result. *)
Theorem correlation_uses_common_prefix
        (stats_pearsonr : list Q -> list Q -> pyfloat * pyfloat)
        (sa : StatisticalAnalysis) :
  let n := Nat.min (length (sa_wait_times sa))
                   (length (sa_service_times sa)) in
  correlation_analysis stats_pearsonr sa
  = correlation_analysis
      stats_pearsonr
      {| sa_results := sa_results sa;
         sa_wait_times := firstn n (sa_wait_times sa);
         sa_service_times := firstn n (sa_service_times sa) |}.
Proof.
  intros n. unfold correlation_analysis, slice_to.
  cbn [sa_wait_times sa_service_times].
  rewrite !length_firstn. fold n.
  assert (E1 : Nat.min n (length (sa_wait_times sa)) = n) by lia.
  assert (E2 : Nat.min n (length (sa_service_times sa)) = n) by lia.
  rewrite E1, E2, Nat.min_id.
  assert (F : forall l : list Q, firstn n (firstn n l) = firstn n l).
  { intros l. rewrite firstn_firstn, Nat.min_id. reflexivity. }
  rewrite !F.
  destruct (length (sa_wait_times sa) <? 2)%nat eqn:A;
    destruct (length (sa_service_times sa) <? 2)%nat eqn:B;
    ltb_prop A; ltb_prop B; cbn [orb].
  - assert (N : (n <? 2)%nat = true) by (apply Nat.ltb_lt; lia).
    rewrite N. reflexivity.
  - assert (N : (n <? 2)%nat = true) by (apply Nat.ltb_lt; lia).
    rewrite N. reflexivity.
  - assert (N : (n <? 2)%nat = true) by (apply Nat.ltb_lt; lia).
    rewrite N. reflexivity.
  - assert (N : (n <? 2)%nat = false) by (apply Nat.ltb_ge; lia).
    rewrite N. reflexivity.
Qed.

(* ================================================================ *)
(** * Part IX: the demand predictor *)
(* ================================================================ *)

(** ** The time series *)

Lemma length_np_histogram a edges :
  length (np_histogram a edges) = pred (length edges).
Proof.
  induction edges as [| lo edges IH]; [reflexivity |].
  destruct edges as [| hi rest]; [reflexivity |].
  change (length (np_histogram a (lo :: hi :: rest)))
    with (S (length (np_histogram a (hi :: rest)))).
  rewrite IH. reflexivity.
Qed.

Lemma Qceiling_unique (x : Q) (c : Z) :
  inject_Z (c - 1) < x -> x <= inject_Z c -> Qceiling x = c.
Proof.
  intros L U.
  pose proof (Qle_ceiling x) as A. pose proof (Qceiling_lt x) as B.
  assert (C1 : inject_Z (Qceiling x - 1) < inject_Z c) by lra.
  assert (C2 : inject_Z (c - 1) < inject_Z (Qceiling x)) by lra.
  rewrite <- Zlt_Qlt in C1, C2. lia.
Qed.

Lemma Qceiling_succ (x : Q) : Qceiling (x + 1) = (Qceiling x + 1)%Z.
Proof.
  pose proof (Qle_ceiling x) as A. pose proof (Qceiling_lt x) as B.
  apply Qceiling_unique.
  - replace (Qceiling x + 1 - 1)%Z with (Qceiling x - 1 + 1)%Z by lia.
    rewrite inject_Z_plus. change (inject_Z 1) with 1. lra.
  - rewrite inject_Z_plus. change (inject_Z 1) with 1. lra.
Qed.

Lemma number_of_edges (max_time : Q) :
  let interval := Qmax 1 (max_time / 20) in
  pred (Z.to_nat (Qceiling ((max_time + interval - 0) / interval)))
  = Nat.min 20 (Z.to_nat (Qceiling max_time)).
Proof.
  intros interval.
  change (max_time / 20) with (max_time * (1 # 20)) in interval.
  pose proof (Qle_ceiling max_time) as A.
  destruct (Q.max_spec 1 (max_time * (1 # 20))) as [[Lt E] | [Le E]];
    fold interval in E.
  - assert (E21 : (max_time + interval - 0) / interval == inject_Z 21).
    { rewrite E. change (inject_Z 21) with 21. field. lra. }
    rewrite (Qceiling_comp _ _ E21), Qceiling_Z.
    assert (C : (20 < Qceiling max_time)%Z).
    { rewrite Zlt_Qlt. change (inject_Z 20) with 20. lra. }
    lia.
  - assert (E1 : (max_time + interval - 0) / interval == max_time + 1).
    { rewrite E. field. }
    rewrite (Qceiling_comp _ _ E1), Qceiling_succ.
    assert (C : (Qceiling max_time <= 20)%Z).
    { change 20%Z with (Qceiling (inject_Z 20)).
      apply Qceiling_resp_le. change (inject_Z 20) with 20. lra. }
    lia.
Qed.

Lemma length_time_series (arrival_times : list Q) :
  length (fst (prepare_time_series arrival_times))
  = Nat.min 20 (Z.to_nat (Qceiling (np_max arrival_times))).
Proof.
  unfold prepare_time_series.
  destruct arrival_times as [| t l]; [reflexivity |].
  set (a := t :: l).
  change (length a =? 0)%nat with false. cbn [fst].
  rewrite length_map, length_seq, length_np_histogram.
  unfold np_arange. rewrite length_map, length_seq.
  apply number_of_edges.
Qed.

(** X14. The predictor answers ["insufficient_data"] exactly when it is
    given fewer than five timestamps or none of them is later than 2,
    which leaves fewer than three bins. *)
Theorem insufficient_data_iff
        (np_sqrt : Q -> Q) (arrival_times : list Q) (forecast_periods : nat) :
  predict_demand np_sqrt arrival_times forecast_periods = insufficient_data
  <-> (length arrival_times < 5)%nat \/ np_max arrival_times <= 2.
Proof.
  pose proof (length_time_series arrival_times) as HX.
  pose proof (Qle_ceiling (np_max arrival_times)) as A.
  pose proof (Qceiling_lt (np_max arrival_times)) as B.
  unfold predict_demand.
  destruct (prepare_time_series arrival_times) as [X y]. cbn [fst] in HX.
  destruct (length arrival_times <? 5)%nat eqn:E5.
  - apply Nat.ltb_lt in E5. split; [intros _; left; exact E5 | reflexivity].
  - apply Nat.ltb_ge in E5.
    destruct (length X <? 3)%nat eqn:E3.
    + apply Nat.ltb_lt in E3. split; [intros _; right | reflexivity].
      assert (C : (Qceiling (np_max arrival_times) <= 2)%Z) by lia.
      rewrite Zle_Qle in C. change (inject_Z 2) with 2 in C. lra.
    + apply Nat.ltb_ge in E3. split; [discriminate |].
      intros [H | H]; [lia |].
      assert (C : (Qceiling (np_max arrival_times) - 1 < 2)%Z).
      { rewrite Zlt_Qlt. change (inject_Z 2) with 2. lra. }
      lia.
Qed.

Lemma Qle_bool_false (a b : Q) : Qle_bool a b = false -> b < a.
Proof.
  intros E. destruct (Qlt_le_dec b a) as [Lt | Le]; [exact Lt |].
  apply Qle_bool_iff in Le. congruence.
Qed.

Lemma count_if_split {A : Type} (p q r : A -> bool) (l : list A) :
  (forall x, In x l ->
             ((if p x then 1 else 0) + (if q x then 1 else 0)
              = (if r x then 1 else 0))%nat) ->
  (count_if p l + count_if q l = count_if r l)%nat.
Proof.
  unfold count_if. induction l as [| a l IH]; intros H; [reflexivity |].
  assert (IH' := IH (fun x Hx => H x (or_intror Hx))).
  specialize (H a (or_introl eq_refl)). simpl.
  destruct (p a), (q a), (r a); simpl in *; lia.
Qed.

(** The bins of a histogram with increasing edges partition the closed
    range from the first edge to the last. *)
Lemma histogram_total (a : list Q) (d : Q) :
  forall edges,
    StronglySorted Qle edges -> (2 <= length edges)%nat ->
    list_sum (np_histogram a edges)
    = count_if (fun t => Qle_bool (hd d edges) t
                         && Qle_bool t (last edges d)) a.
Proof.
  induction edges as [| lo edges IH]; intros Hs Hl; [simpl in Hl; lia |].
  destruct edges as [| hi rest]; [simpl in Hl; lia |].
  destruct rest as [| r rest].
  - simpl. rewrite Nat.add_0_r. reflexivity.
  - change (np_histogram a (lo :: hi :: r :: rest))
      with (count_if (fun t => Qle_bool lo t && negb (Qle_bool hi t)) a
            :: np_histogram a (hi :: r :: rest)).
    change (last (lo :: hi :: r :: rest) d) with (last (hi :: r :: rest) d).
    match goal with
    | |- list_sum (?c :: ?t) = _ =>
        change (list_sum (c :: t)) with (c + list_sum t)%nat
    end.
    cbn [hd].
    inversion Hs as [| ? ? Hs' Hlo]; subst.
    rewrite IH; [| exact Hs' | simpl; lia]. cbn [hd].
    assert (H1 : lo <= hi) by (inversion Hlo; assumption).
    assert (H2 : hi <= last (hi :: r :: rest) d).
    { inversion Hs' as [| ? ? _ Hhi]; subst.
      rewrite Forall_forall in Hhi. apply Hhi.
      change (last (hi :: r :: rest) d) with (last (r :: rest) d).
      destruct (@exists_last _ (r :: rest)) as (l' & z & E);
        [discriminate |].
      rewrite E, last_last. apply in_or_app. right. left. reflexivity. }
    set (z := last (hi :: r :: rest) d) in *.
    apply count_if_split. intros x _.
    destruct (Qle_bool lo x) eqn:E1; destruct (Qle_bool hi x) eqn:E2;
      destruct (Qle_bool x z) eqn:E3; simpl; try reflexivity; exfalso;
      try apply Qle_bool_iff in E1; try apply Qle_bool_iff in E2;
      try apply Qle_bool_iff in E3;
      try apply Qle_bool_false in E1; try apply Qle_bool_false in E2;
      try apply Qle_bool_false in E3; lra.
Qed.

Lemma sorted_map_seq (f : nat -> Q) (n : nat) :
  (forall j k, (j <= k)%nat -> f j <= f k) ->
  forall s, StronglySorted Qle (map f (seq s n)).
Proof.
  intros Hf. induction n as [| n IH]; intros s; simpl; constructor.
  - apply IH.
  - rewrite Forall_map, Forall_forall. intros k Hk.
    apply in_seq in Hk. apply Hf. lia.
Qed.

Lemma Qsum_counts (counts : list nat) :
  Qsum (map Q_of_nat counts) == Q_of_nat (list_sum counts).
Proof.
  induction counts as [| c counts IH]; simpl; [reflexivity |].
  rewrite IH. unfold Q_of_nat.
  rewrite Nat2Z.inj_add, inject_Z_plus. reflexivity.
Qed.

Lemma count_if_le {A : Type} (p : A -> bool) (l : list A) :
  (count_if p l <= length l)%nat.
Proof.
  unfold count_if. induction l as [| a l IH]; simpl; [lia |].
  destruct (p a); simpl; lia.
Qed.

Lemma histogram_le (a : list Q) (edges : list Q) :
  StronglySorted Qle edges ->
  (list_sum (np_histogram a edges) <= length a)%nat.
Proof.
  intros Hs. destruct edges as [| lo [| hi rest]]; try (simpl; lia).
  rewrite (histogram_total a 0); [apply count_if_le | exact Hs | simpl; lia].
Qed.

(** X15. No arrival is counted twice.  Whatever the increasing bin edges
    are, the bins of the histogram partition the range from the first
    edge to the last: the counts add up to the number of timestamps in
    that range, hence to at most the number of timestamps; and so do the
    counts of the time series the predictor fits.  (Whether the last
    edge reaches the latest timestamp, so that nothing is left out,
    depends on the rounding of the edges.) *)
Theorem arrivals_binned_at_most_once (arrival_times : list Q) :
  (forall edges d,
      StronglySorted Qle edges -> (2 <= length edges)%nat ->
      list_sum (np_histogram arrival_times edges)
      = count_if (fun t => Qle_bool (hd d edges) t
                           && Qle_bool t (last edges d)) arrival_times
      /\ (list_sum (np_histogram arrival_times edges)
          <= length arrival_times)%nat)
  /\ Qsum (snd (prepare_time_series arrival_times))
     <= Q_of_nat (length arrival_times).
Proof.
  split.
  - intros edges d Hs Hl.
    split; [apply histogram_total; assumption | apply histogram_le, Hs].
  - unfold prepare_time_series.
    destruct arrival_times as [| t0 l0]; [apply Qle_refl |].
    set (a := t0 :: l0).
    change (length a =? 0)%nat with false. cbn [snd].
    set (interval := Qmax 1 (np_max a / 20)).
    assert (I1 : 1 <= interval) by apply Q.le_max_l.
    rewrite Qsum_counts. unfold Q_of_nat. rewrite <- Zle_Qle.
    apply inj_le, histogram_le. unfold np_arange.
    apply sorted_map_seq. intros j k Hjk. unfold Q_of_nat.
    assert (inject_Z (Z.of_nat j) <= inject_Z (Z.of_nat k))
      by (rewrite <- Zle_Qle; lia).
    assert (inject_Z (Z.of_nat j) * interval
            <= inject_Z (Z.of_nat k) * interval)
      by (apply Qmult_le_compat_r; lra).
    lra.
Qed.

Lemma arrivals_binned_at_most_once_witness :
  StronglySorted Qle unit_edges /\ (2 <= length unit_edges)%nat
  /\ np_histogram three_stamps unit_edges = [1; 1]%nat
  /\ (list_sum (np_histogram three_stamps unit_edges)
      <= length three_stamps)%nat.
Proof.
  assert (S : StronglySorted Qle unit_edges)
    by (repeat constructor; unfold Qle; simpl; lia).
  split; [exact S |]. split; [simpl; lia |].
  split; [vm_compute; reflexivity |].
  apply (proj1 (arrivals_binned_at_most_once three_stamps)
               unit_edges 0 S).
  simpl; lia.
Defined.

Lemma map_fst_combine (f : Q -> Q) :
  forall X y : list Q,
    length X = length y ->
    map (fun p => f (fst p)) (combine X y) = map f X.
Proof.
  induction X as [| x X IH]; intros [| v y] H; simpl in *;
    try discriminate; [reflexivity |].
  rewrite IH; [reflexivity | lia].
Qed.

Lemma map_snd_combine (f : Q -> Q) :
  forall X y : list Q,
    length X = length y ->
    map (fun p => f (snd p)) (combine X y) = map f y.
Proof.
  induction X as [| x X IH]; intros [| v y] H; simpl in *;
    try discriminate; [reflexivity |].
  rewrite IH; [reflexivity | lia].
Qed.

Lemma Qsum_map_squares_nonneg {A : Type} (g : A -> Q) (l : list A) :
  0 <= Qsum (map (fun p => g p * g p) l).
Proof.
  apply Qsum_nonneg. rewrite Forall_map, Forall_forall.
  intros p _. apply Qsquare_nonneg.
Qed.

(** The residual sum of squares of a line through the point of means. *)
Lemma residuals_expand (xm ym b : Q) (ps : list (Q * Q)) :
  Qsum (map (fun p => (snd p - (ym - b * xm + b * fst p))
                      * (snd p - (ym - b * xm + b * fst p))) ps)
  == Qsum (map (fun p => (snd p - ym) * (snd p - ym)) ps)
     - 2 * b * Qsum (map (fun p => (fst p - xm) * (snd p - ym)) ps)
     + b * b * Qsum (map (fun p => (fst p - xm) * (fst p - xm)) ps).
Proof.
  induction ps as [| p ps IH]; simpl; [ring |]. rewrite IH. ring.
Qed.

(** The coefficient of determination of a least-squares line on the data
    it was fitted to lies between 0 and 1. *)
Lemma score_fit_bounds (X y : list Q) :
  length X = length y -> 0 <= score (fit X y) X y <= 1.
Proof.
  intros Hlen. unfold score, predict, fit. cbn [coef_ intercept_].
  set (xm := np_mean X). set (ym := np_mean y).
  rewrite <- (map_fst_combine (fun x => (x - xm) * (x - xm)) X y Hlen).
  rewrite <- (map_snd_combine (fun v => (v - ym) * (v - ym)) X y Hlen).
  set (ps := combine X y).
  set (sxy := Qsum (map (fun p => (fst p - xm) * (snd p - ym)) ps)).
  set (sxx := Qsum (map (fun p => (fst p - xm) * (fst p - xm)) ps)).
  set (syy := Qsum (map (fun p => (snd p - ym) * (snd p - ym)) ps)).
  set (b := sxy / sxx).
  set (ss_res :=
         Qsum (map (fun p => (snd p - (ym - b * xm + b * fst p))
                             * (snd p - (ym - b * xm + b * fst p))) ps)).
  assert (Sxx : 0 <= sxx)
    by apply (Qsum_map_squares_nonneg (fun p => fst p - xm)).
  assert (Syy : 0 <= syy)
    by apply (Qsum_map_squares_nonneg (fun p => snd p - ym)).
  assert (Res : 0 <= ss_res)
    by apply (Qsum_map_squares_nonneg
                (fun p => snd p - (ym - b * xm + b * fst p))).
  assert (E : ss_res == syy - 2 * b * sxy + b * b * sxx)
    by apply residuals_expand.
  assert (Le : ss_res <= syy).
  { destruct (Qeq_dec sxx 0) as [Z | NZ].
    - assert (B0 : b == 0).
      { unfold b, Qdiv. rewrite Z. change (/ 0) with 0. ring. }
      rewrite E, B0. lra.
    - assert (G : syy - 2 * b * sxy + b * b * sxx == syy - sxy * sxy / sxx)
        by (unfold b; field; exact NZ).
      assert (P : 0 <= sxy * sxy / sxx)
        by (apply Qdiv_nonneg; [apply Qsquare_nonneg | exact Sxx]).
      rewrite E, G. lra. }
  destruct (Qeq_bool syy 0) eqn:T.
  - destruct (Qeq_bool ss_res 0); lra.
  - apply Qeq_bool_neq in T.
    assert (Pos : 0 < syy).
    { destruct (Qlt_le_dec 0 syy) as [Lt | Ge]; [exact Lt |].
      exfalso. apply T. lra. }
    assert (R0 : 0 <= ss_res / syy) by (apply Qdiv_nonneg; lra).
    assert (R1 : ss_res / syy <= 1) by (apply Qle_shift_div_r; lra).
    lra.
Qed.

Lemma time_series_lengths (arrival_times : list Q) :
  length (fst (prepare_time_series arrival_times))
  = length (snd (prepare_time_series arrival_times)).
Proof.
  unfold prepare_time_series.
  destruct (length arrival_times =? 0)%nat; [reflexivity |].
  cbn [fst snd]. rewrite !length_map, length_seq. reflexivity.
Qed.

(** X16. The confidence the predictor reports (the coefficient of
    determination of the fitted line, also reported as [r_squared]) lies
    between 0 and 1 for every list of timestamps. *)
Theorem confidence_in_unit_interval
        (np_sqrt : Q -> Q) (arrival_times : list Q) (forecast_periods : nat) :
  let f := predict_demand np_sqrt arrival_times forecast_periods in
  0 <= fc_confidence f <= 1
  /\ match fc_details f with
     | Some d => fd_r_squared d = fc_confidence f
     | None => fc_confidence f = 0
     end.
Proof.
  pose proof (time_series_lengths arrival_times) as Hlen.
  unfold predict_demand.
  destruct (length arrival_times <? 5)%nat;
    [simpl; split; [lra | reflexivity] |].
  destruct (prepare_time_series arrival_times) as [X y].
  cbn [fst snd] in Hlen.
  destruct (length X <? 3)%nat; [simpl; split; [lra | reflexivity] |].
  cbn [fc_confidence fc_details fd_r_squared].
  pose proof (score_fit_bounds X y Hlen) as [L U].
  assert (E1 : round 1 4 = 1) by (vm_compute; reflexivity).
  split; [split | reflexivity].
  - apply round4_nonneg. exact L.
  - apply Qle_trans with (round 1 4); [apply round_mono; exact U |].
    rewrite E1. lra.
Qed.

(** ** Arrival patterns *)

Lemma length_np_diff (l : list Q) : length (np_diff l) = pred (length l).
Proof.
  induction l as [| x l IH]; [reflexivity |].
  destruct l as [| y l]; [reflexivity |].
  change (np_diff (x :: y :: l)) with ((y - x) :: np_diff (y :: l)).
  simpl length in *. rewrite IH. reflexivity.
Qed.

(** The differences of consecutive entries telescope. *)
Lemma Qsum_np_diff (l : list Q) : Qsum (np_diff l) == last l 0 - hd 0 l.
Proof.
  induction l as [| x l IH]; [reflexivity |].
  destruct l as [| y l]; [simpl; ring |].
  change (np_diff (x :: y :: l)) with ((y - x) :: np_diff (y :: l)).
  change (last (x :: y :: l) 0) with (last (y :: l) 0).
  simpl Qsum. rewrite IH. simpl hd. ring.
Qed.

Lemma fold_left_Qmin_In (l : list Q) :
  forall x, In (fold_left Qmin l x) (x :: l).
Proof.
  induction l as [| y l IH]; intros x; [left; reflexivity |]. simpl.
  destruct (IH (Qmin x y)) as [E | H]; [| right; right; exact H].
  rewrite <- E. unfold Qmin, GenericMinMax.gmin.
  destruct (x ?= y); [left | left | right; left]; reflexivity.
Qed.

Lemma fold_left_Qmax_In (l : list Q) :
  forall x, In (fold_left Qmax l x) (x :: l).
Proof.
  induction l as [| y l IH]; intros x; [left; reflexivity |]. simpl.
  destruct (IH (Qmax x y)) as [E | H]; [| right; right; exact H].
  rewrite <- E. unfold Qmax, GenericMinMax.gmax.
  destruct (x ?= y); [left | right; left | left]; reflexivity.
Qed.

Lemma np_min_In (l : list Q) : l <> [] -> In (np_min l) l.
Proof.
  destruct l as [| x l]; [congruence |]. intros _.
  apply fold_left_Qmin_In.
Qed.

Lemma np_max_In (l : list Q) : l <> [] -> In (np_max l) l.
Proof.
  destruct l as [| x l]; [congruence |]. intros _.
  apply fold_left_Qmax_In.
Qed.

Lemma sorted_nonempty (l : list Q) : l <> [] -> sorted l <> [].
Proof.
  intros Hl E. apply Hl.
  apply Permutation_nil. rewrite <- E. apply sorted_perm.
Qed.

Lemma hd_sorted (l : list Q) : l <> [] -> hd 0 (sorted l) == np_min l.
Proof.
  intros Hl.
  pose proof (sorted_sorted l) as Hs. pose proof (sorted_perm l) as Hp.
  pose proof (sorted_nonempty l Hl) as Hn.
  assert (I1 : In (np_min l) (sorted l))
    by (apply (Permutation_in _ (Permutation_sym Hp)), np_min_In, Hl).
  destruct (sorted l) as [| x s]; [congruence |]. simpl.
  apply Qle_antisym.
  - destruct I1 as [<- | I1]; [lra |].
    inversion Hs as [| ? ? _ Hx]; subst.
    rewrite Forall_forall in Hx. apply Hx. exact I1.
  - apply np_min_le. apply (Permutation_in _ Hp). left. reflexivity.
Qed.

Lemma last_sorted (l : list Q) : l <> [] -> last (sorted l) 0 == np_max l.
Proof.
  intros Hl.
  pose proof (sorted_sorted l) as Hs. pose proof (sorted_perm l) as Hp.
  pose proof (sorted_nonempty l Hl) as Hn.
  assert (I1 : In (np_max l) (sorted l))
    by (apply (Permutation_in _ (Permutation_sym Hp)), np_max_In, Hl).
  destruct (@exists_last _ (sorted l) Hn) as (s & z & E).
  rewrite E in *. rewrite last_last.
  apply Qle_antisym.
  - apply np_max_ge. apply (Permutation_in _ Hp).
    apply in_or_app. right. left. reflexivity.
  - apply in_app_or in I1. destruct I1 as [I1 | [<- | []]]; [| lra].
    apply In_nth with (d := 0) in I1. destruct I1 as (i & Hi & <-).
    pose proof (sorted_nth _ Hs i (length s)) as M.
    rewrite length_app in M. simpl in M.
    rewrite (app_nth1 s [z] 0 Hi) in M.
    rewrite (app_nth2 s [z] 0 (Nat.le_refl _)), Nat.sub_diag in M.
    apply M. lia.
Qed.

(** X17. With ten timestamps or more, the share of "peak" intervals the
    predictor reports lies between 0 and 1, and the average inter-arrival
    time it reports is not negative and not above the span between the
    earliest and the latest timestamp, whatever order the timestamps
    come in. *)
Theorem patterns_of_ten_or_more (np_sqrt : Q -> Q) (arrival_times : list Q) :
  (10 <= length arrival_times)%nat ->
  let p := analyze_patterns np_sqrt arrival_times in
  (exists pct, pt_peak_percentage p = Some pct /\ 0 <= pct <= 1)
  /\ (exists avg,
        pt_avg_interarrival p = Some avg
        /\ 0 <= avg
        /\ avg <= round (np_max arrival_times - np_min arrival_times) 2).
Proof.
  intros H10. unfold analyze_patterns.
  assert (E10 : (length arrival_times <? 10)%nat = false)
    by (apply Nat.ltb_ge; exact H10).
  rewrite E10. cbn [pt_peak_percentage pt_avg_interarrival].
  assert (Hl : arrival_times <> [])
    by (intros ->; simpl in H10; lia).
  set (intervals := np_diff (sorted arrival_times)).
  assert (Li : length intervals = pred (length arrival_times)).
  { unfold intervals. rewrite length_np_diff.
    rewrite (Permutation_length (sorted_perm arrival_times)). reflexivity. }
  assert (Pi : (0 <? length intervals)%nat = true)
    by (apply Nat.ltb_lt; lia).
  rewrite Pi.
  assert (Qp : 1 <= Qlen intervals).
  { unfold Qlen. change 1 with (inject_Z 1). rewrite <- Zle_Qle. lia. }
  split.
  - eexists. split; [reflexivity |].
    set (c := count_if _ intervals).
    assert (C0 : 0 <= Q_of_nat c)
      by (unfold Q_of_nat; change 0 with (inject_Z 0);
          rewrite <- Zle_Qle; lia).
    assert (C1 : Q_of_nat c <= Qlen intervals).
    { unfold Q_of_nat, Qlen. rewrite <- Zle_Qle.
      pose proof (count_if_le
                    (fun i => negb (Qle_bool
                                      (np_mean intervals
                                       - np_sqrt (np_var intervals)) i))
                    intervals). fold c in H. lia. }
    assert (E1 : round 1 2 = 1) by (vm_compute; reflexivity).
    split.
    + apply round2_nonneg, Qdiv_nonneg; lra.
    + apply Qle_trans with (round 1 2); [| rewrite E1; lra].
      apply round_mono, Qle_shift_div_r; lra.
  - eexists. split; [reflexivity |].
    assert (Sp : Qsum intervals
                 == np_max arrival_times - np_min arrival_times).
    { unfold intervals.
      rewrite Qsum_np_diff, hd_sorted, last_sorted by exact Hl.
      reflexivity. }
    assert (Span : 0 <= np_max arrival_times - np_min arrival_times).
    { pose proof (np_max_ge _ _ (np_min_In arrival_times Hl)). lra. }
    split.
    + apply round2_nonneg. unfold np_mean. apply Qdiv_nonneg; lra.
    + apply round_mono. unfold np_mean.
      apply Qle_shift_div_r; [lra |]. rewrite Sp.
      assert (M : 0 <= (np_max arrival_times - np_min arrival_times)
                       * (Qlen intervals - 1))
        by (apply Qmult_le_0_compat; lra).
      lra.
Qed.

Lemma patterns_of_ten_or_more_witness :
  (10 <= length ten_arrivals)%nat
  /\ pt_avg_interarrival (analyze_patterns sqrt_stub ten_arrivals) = Some 1
  /\ round (np_max ten_arrivals - np_min ten_arrivals) 2 = 9
  /\ exists avg,
      pt_avg_interarrival (analyze_patterns sqrt_stub ten_arrivals) = Some avg
      /\ 0 <= avg
      /\ avg <= round (np_max ten_arrivals - np_min ten_arrivals) 2.
Proof.
  split; [simpl; lia |]. split; [vm_compute; reflexivity |].
  split; [vm_compute; reflexivity |].
  apply (patterns_of_ten_or_more sqrt_stub ten_arrivals). simpl; lia.
Defined.

(* ================================================================ *)
(** * Part X: the application's recommendations and optimize endpoint *)
(* ================================================================ *)

Lemma max_queue_below_capacity cfg rnd fuel wf :
  run_engine cfg rnd fuel = Ok wf ->
  (0 < max_queue_length (self wf))%nat ->
  (Z.of_nat (max_queue_length (self wf)) < queue_capacity cfg)%Z.
Proof.
  intros Hr Hpos.
  destruct (final_observations cfg rnd fuel wf Hr)
    as ([_ _ _ _ _ _ _ _ M9 M10 _ _] & _).
  rewrite M10 in *.
  assert (Hne : queue_lengths (self wf) <> [])
    by (intros E; rewrite E in Hpos; simpl in Hpos; lia).
  assert (L : (list_max (queue_lengths (self wf))
               < Z.to_nat (queue_capacity cfg))%nat).
  { apply list_max_lt; [exact Hne |].
    eapply Forall_impl; [| exact M9]. simpl. intros q Hq. lia. }
  lia.
Qed.

Lemma reported_utilization_bounds np_sqrt cfg rnd fuel wf :
  run_engine cfg rnd fuel = Ok wf ->
  0 <= res_server_utilization (calculate_metrics np_sqrt cfg (self wf)) <= 1.
Proof.
  intros Hr. destruct (busy_time_bounded cfg rnd fuel wf Hr) as [B1 B2].
  cbn [calculate_metrics res_server_utilization]. unfold utilization_of.
  assert (R1 : round 1 4 = 1) by (vm_compute; reflexivity).
  destruct (Qpos_bool (inject_Z (num_servers cfg) * sim_time cfg)) eqn:P.
  - apply Qgt_bool_iff in P. split.
    + apply round4_nonneg, Qle_shift_div_l; [exact P | lra].
    + apply Qle_trans with (round 1 4); [| rewrite R1; lra].
      apply round_mono, Qle_shift_div_r; [exact P | lra].
  - split; [apply round4_nonneg; lra |].
    apply Qle_trans with (round 1 4); [| rewrite R1; lra].
    apply round_mono. lra.
Qed.

Lemma in_generate_recommendations (results : Result) (num_servers : Z)
      (x : Severity * Advice) :
  In x (generate_recommendations results num_servers)
  <-> (x = (Warning, HighUtilization (res_server_utilization results))
       /\ 9 # 10 < res_server_utilization results)
      \/ (x = (Info, LowUtilization (res_server_utilization results))
          /\ res_server_utilization results < 5 # 10)
      \/ (x = (Warning, LongWait (res_avg_wait_time results))
          /\ 10 < res_avg_wait_time results)
      \/ (x = (Alert, LongQueue (res_max_queue_length results))
          /\ (20 < res_max_queue_length results)%nat)
      \/ (x = (Alert, CustomersRejected (res_customers_rejected results))
          /\ (0 < res_customers_rejected results)%nat).
Proof.
  unfold generate_recommendations. rewrite !in_app_iff.
  destruct (negb (Qle_bool (res_server_utilization results) (9 # 10)))
    eqn:Hi;
    [apply Qgt_bool_iff in Hi | apply Qgt_bool_false_iff in Hi];
    (destruct (negb (Qle_bool (5 # 10) (res_server_utilization results)))
       eqn:Lo;
     [apply Qgt_bool_iff in Lo | apply Qgt_bool_false_iff in Lo]);
    (destruct (negb (Qle_bool (res_avg_wait_time results) 10)) eqn:Wt;
     [apply Qgt_bool_iff in Wt | apply Qgt_bool_false_iff in Wt]);
    (destruct (20 <? res_max_queue_length results)%nat eqn:Lq;
     [apply Nat.ltb_lt in Lq | apply Nat.ltb_ge in Lq]);
    (destruct (0 <? res_customers_rejected results)%nat eqn:Rj;
     [apply Nat.ltb_lt in Rj | apply Nat.ltb_ge in Rj]);
    simpl; intuition (try congruence; try lra; try lia; auto).
Qed.

(** X20. The recommendations the simulate endpoint attaches to a run: a
    queue alert quotes a maximum above 20 that is below the queue
    capacity, so a capacity of 21 or less never gives one; a rejection
    alert quotes the number of rejected customers and appears exactly
    when there is one; a utilization warning quotes a value above 0.9 and
    at most 1, a low-utilization note a value from 0 up to but excluding
    0.5. *)
Theorem recommendations_of_a_run
        (np_sqrt : Q -> Q) (cfg : Config) (rnd : nat -> Q) (fuel : nat)
        (results : Result) :
  run np_sqrt cfg rnd fuel = Ok results ->
  let recommendations :=
    generate_recommendations results (num_servers cfg) in
  (forall n, In (Alert, LongQueue n) recommendations ->
             (20 < n)%nat /\ (Z.of_nat n < queue_capacity cfg)%Z)
  /\ (forall k, In (Alert, CustomersRejected k) recommendations
                <-> k = res_customers_rejected results /\ (0 < k)%nat)
  /\ (forall u, In (Warning, HighUtilization u) recommendations ->
                9 # 10 < u /\ u <= 1)
  /\ (forall u, In (Info, LowUtilization u) recommendations ->
                0 <= u /\ u < 1 # 2).
Proof.
  intros Hr. apply run_returns in Hr. destruct Hr as (wf & Hr & ->).
  pose proof (reported_utilization_bounds np_sqrt cfg rnd fuel wf Hr)
    as [U0 U1].
  pose proof (max_queue_below_capacity cfg rnd fuel wf Hr) as Hq.
  set (results := calculate_metrics np_sqrt cfg (self wf)) in *.
  assert (Em : res_max_queue_length results = max_queue_length (self wf))
    by reflexivity.
  cbv zeta. split; [| split; [| split]].
  - intros n H. apply in_generate_recommendations in H.
    destruct H as [[E _] | [[E _] | [[E _] | [[E L] | [E _]]]]];
      try discriminate E.
    injection E as E'. rewrite E'. split; [exact L |].
    rewrite Em in *. apply Hq. lia.
  - intros k. rewrite in_generate_recommendations. split.
    + intros [[E _] | [[E _] | [[E _] | [[E _] | [E L]]]]];
        try discriminate E.
      injection E as E'. rewrite E'. split; [reflexivity | exact L].
    + intros [-> L]. right. right. right. right. split; [reflexivity | exact L].
  - intros u H. apply in_generate_recommendations in H.
    destruct H as [[E L] | [[E _] | [[E _] | [[E _] | [E _]]]]];
      try discriminate E.
    injection E as E'. rewrite E'. split; [exact L | exact U1].
  - intros u H. apply in_generate_recommendations in H.
    destruct H as [[E _] | [[E L] | [[E _] | [[E _] | [E _]]]]];
      try discriminate E.
    injection E as E'. rewrite E'. split; [exact U0 |].
    apply Qlt_le_trans with (5 # 10); [exact L | lra].
Qed.

Lemma recommendations_of_a_run_witness :
  (run sqrt_stub cfg_crowded rnd_unit 400 = Ok result_crowded
   /\ generate_recommendations result_crowded (num_servers cfg_crowded)
      = [(Info, LowUtilization 0); (Alert, LongQueue 21);
         (Alert, CustomersRejected 16)]
   /\ ((20 < 21)%nat /\ (Z.of_nat 21 < queue_capacity cfg_crowded)%Z)
   /\ (16%nat = res_customers_rejected result_crowded /\ (0 < 16)%nat)
   /\ (0 <= 0 /\ 0 < 1 # 2))
  /\ (run sqrt_stub cfg_steady rnd_unit 400 = Ok result_steady
      /\ generate_recommendations result_steady (num_servers cfg_steady)
         = [(Warning, HighUtilization (19 # 20))]
      /\ (9 # 10 < 19 # 20 /\ 19 # 20 <= 1)).
Proof.
  assert (Rc : run sqrt_stub cfg_crowded rnd_unit 400 = Ok result_crowded)
    by (vm_compute; reflexivity).
  assert (Rs : run sqrt_stub cfg_steady rnd_unit 400 = Ok result_steady)
    by (vm_compute; reflexivity).
  assert (Gc : generate_recommendations result_crowded
                                        (num_servers cfg_crowded)
               = [(Info, LowUtilization 0); (Alert, LongQueue 21);
                  (Alert, CustomersRejected 16)])
    by (vm_compute; reflexivity).
  assert (Gs : generate_recommendations result_steady
                                        (num_servers cfg_steady)
               = [(Warning, HighUtilization (19 # 20))])
    by (vm_compute; reflexivity).
  destruct (recommendations_of_a_run
              sqrt_stub cfg_crowded rnd_unit 400 result_crowded Rc)
    as (Q1 & R1 & _ & L1).
  destruct (recommendations_of_a_run
              sqrt_stub cfg_steady rnd_unit 400 result_steady Rs)
    as (_ & _ & H2 & _).
  rewrite Gc in Q1, R1, L1. rewrite Gs in H2.
  split.
  - split; [exact Rc |]. split; [exact Gc |].
    split; [apply Q1; simpl; auto |].
    split; [apply R1; simpl; auto |].
    apply L1. simpl. auto.
  - split; [exact Rs |]. split; [exact Gs |].
    apply H2. simpl. auto.
Defined.

(** ** The optimize endpoint *)

Lemma key_lt_irrefl (a : option Q) : key_lt a a = false.
Proof.
  destruct a as [x |]; [| reflexivity]. simpl.
  apply Qgt_bool_false_iff. lra.
Qed.

Lemma key_lt_trans (a b c : option Q) :
  key_lt a b = true -> key_lt b c = true -> key_lt a c = true.
Proof.
  destruct a as [x |], b as [y |], c as [z |]; simpl; try discriminate;
    try reflexivity.
  rewrite !Qgt_bool_iff. lra.
Qed.

Lemma key_lt_le_trans (a b c : option Q) :
  key_lt a b = true -> key_lt c b = false -> key_lt a c = true.
Proof.
  destruct a as [x |], b as [y |], c as [z |]; simpl; try discriminate;
    try reflexivity.
  rewrite !Qgt_bool_iff, Qgt_bool_false_iff. lra.
Qed.

(** [min] returns an item of the list whose key no item undercuts. *)
Lemma py_min_least {A : Type} (key : A -> option Q) :
  forall rest best,
    In (py_min key best rest) (best :: rest)
    /\ key_lt (key best) (key (py_min key best rest)) = false
    /\ forall x, In x rest ->
                 key_lt (key x) (key (py_min key best rest)) = false.
Proof.
  induction rest as [| a rest IH]; intros best.
  - simpl. split; [left; reflexivity |].
    split; [apply key_lt_irrefl | intros x []].
  - unfold py_min. simpl fold_left.
    destruct (key_lt (key a) (key best)) eqn:E.
    + fold (py_min key a rest). destruct (IH a) as (I & B & R).
      split; [right; exact I |]. split.
      * destruct (key_lt (key best) (key (py_min key a rest))) eqn:F;
          [| reflexivity].
        rewrite (key_lt_trans _ _ _ E F) in B. discriminate.
      * intros x [<- | Hx]; [exact B | apply R; exact Hx].
    + fold (py_min key best rest). destruct (IH best) as (I & B & R).
      split; [destruct I as [I | I]; [left; exact I | right; right; exact I] |].
      split; [exact B |].
      intros x [<- | Hx]; [| apply R; exact Hx].
      destruct (key_lt (key a) (key (py_min key best rest))) eqn:F;
        [| reflexivity].
      rewrite (key_lt_le_trans _ _ _ F B) in E. discriminate.
Qed.

(** Among items with equal keys [min] keeps the first. *)
Lemma py_min_first {A : Type} (key : A -> option Q) :
  forall rest first,
    (forall x, In x rest -> key_lt (key x) (key first) = false) ->
    py_min key first rest = first.
Proof.
  induction rest as [| a rest IH]; intros first H; [reflexivity |].
  unfold py_min. simpl fold_left.
  rewrite (H a (or_introl eq_refl)). apply IH.
  intros x Hx. apply H. right. exact Hx.
Qed.

Lemma optimize_runs_servers np_sqrt arrival_rate service_rate rnd fuel :
  forall servers offset results rows,
    optimize_runs np_sqrt arrival_rate service_rate rnd fuel servers offset
                  results = Ok rows ->
    map or_servers rows = map or_servers results ++ servers.
Proof.
  induction servers as [| c servers IH]; intros offset results rows H.
  - simpl in H. injection H as <-. rewrite app_nil_r. reflexivity.
  - cbn [optimize_runs] in H.
    destruct (run_engine _ _ fuel) as [w | e |]; try discriminate H.
    apply IH in H. rewrite H, map_app, <- app_assoc. reflexivity.
Qed.

Lemma optimize_key_positive (x : OptimizeRow) :
  0 < or_avg_wait x -> optimize_key x = Some (or_avg_wait x).
Proof.
  intros H. unfold optimize_key.
  apply Qgt_bool_iff in H. rewrite H. reflexivity.
Qed.

Lemma optimize_key_none (x : OptimizeRow) :
  or_avg_wait x <= 0 -> optimize_key x = None.
Proof.
  intros H. unfold optimize_key.
  apply Qgt_bool_false_iff in H. rewrite H. reflexivity.
Qed.

(** X21. When the optimize endpoint returns, its table has one row per
    server count from 1 to 5, in this order, and the configuration it
    calls optimal is a row of the table with the smallest average wait
    among the rows whose average wait is positive: a row with an average
    wait of zero is never preferred to a row where customers waited.
    When no row has a positive average wait, the row for one server is
    returned. *)
Theorem optimal_configuration
        (np_sqrt : Q -> Q) (arrival_rate service_rate : Q) (rnd : nat -> Q)
        (fuel : nat) (results : list OptimizeRow) (optimal : OptimizeRow) :
  optimize np_sqrt arrival_rate service_rate rnd fuel
  = Ok (results, optimal) ->
  map or_servers results = [1; 2; 3; 4; 5]%Z
  /\ In optimal results
  /\ (forall r, In r results -> 0 < or_avg_wait r ->
                0 < or_avg_wait optimal
                /\ or_avg_wait optimal <= or_avg_wait r)
  /\ ((forall r, In r results -> or_avg_wait r <= 0) ->
      or_servers optimal = 1%Z).
Proof.
  unfold optimize. intros H.
  destruct (optimize_runs _ _ _ _ _ _ _ _) as [rows | e |] eqn:R;
    try discriminate H.
  apply optimize_runs_servers in R. simpl in R.
  destruct rows as [| first rest]; [discriminate R |].
  injection H as <- <-.
  destruct (py_min_least optimize_key rest first) as (I & B & L).
  split; [exact R |]. split; [exact I |]. split.
  - intros r Hr Hpos.
    assert (K : key_lt (optimize_key r)
                       (optimize_key (py_min optimize_key first rest))
                = false)
      by (destruct Hr as [<- | Hr]; [exact B | apply L; exact Hr]).
    rewrite (optimize_key_positive r Hpos) in K.
    unfold optimize_key in K at 1.
    destruct (negb (Qle_bool
                      (or_avg_wait (py_min optimize_key first rest)) 0))
      eqn:P; [| discriminate K].
    apply Qgt_bool_iff in P. simpl in K. apply Qgt_bool_false_iff in K.
    split; assumption.
  - intros Hall.
    rewrite py_min_first.
    + simpl in R. injection R as R _. exact R.
    + intros x Hx.
      rewrite (optimize_key_none x (Hall x (or_intror Hx))). reflexivity.
Qed.

Lemma optimal_configuration_witness :
  optimize sqrt_stub (1 # 100) (1 # 150) rnd_unit 100 = Ok optimize_slow
  /\ map or_avg_wait (fst optimize_slow) = [50; 0; 0; 0; 0]
  /\ or_servers (snd optimize_slow) = 1%Z
  /\ or_avg_wait (snd optimize_slow) = 50
  /\ In (snd optimize_slow) (fst optimize_slow).
Proof.
  split; [vm_compute; reflexivity |]. split; [reflexivity |].
  split; [reflexivity |]. split; [reflexivity |].
  destruct (optimal_configuration
              sqrt_stub (1 # 100) (1 # 150) rnd_unit 100
              (fst optimize_slow) (snd optimize_slow)) as (_ & I & _);
    [vm_compute; reflexivity | exact I].
Defined.

(** A run returns for every number of iterations from some bound on, and
    the bound does not depend on the draws. *)
Lemma run_engine_fuel (cfg : Config) (delta : Q) :
  0 < arrival_rate cfg -> 0 < service_rate cfg -> 0 < delta ->
  (0 < num_servers cfg)%Z -> 0 < sim_time cfg ->
  exists N, forall rnd fuel,
      (forall n, delta <= rnd n) -> (N <= fuel)%nat ->
      exists wf, run_engine cfg rnd fuel = Ok wf.
Proof.
  intros Ha Hs Hd Hc Ht. unfold run_engine.
  destruct (start_world cfg) as [w0 | e |] eqn:E.
  - exists (S (work cfg (min_gap cfg delta) w0)).
    intros rnd fuel Hrnd Hfuel.
    pose proof (inv_start cfg w0 E) as (I & _).
    apply (env_run_returns cfg rnd delta Ha Hs Hd Hrnd); [exact I | | lia].
    apply start_world_ok in E. destruct E as (_ & _ & ->). reflexivity.
  - exfalso. unfold start_world in E.
    destruct (num_servers cfg <=? 0)%Z eqn:C;
      [apply Z.leb_le in C; lia |].
    simpl in E. destruct (Qle_bool (sim_time cfg) 0) eqn:T; [| discriminate].
    apply Qle_bool_iff in T. lra.
  - unfold start_world in E.
    destruct (num_servers cfg <=? 0)%Z; [discriminate |].
    simpl in E. destruct (Qle_bool (sim_time cfg) 0); discriminate.
Qed.

Lemma optimize_runs_return np_sqrt (arrival_rate service_rate delta : Q) :
  0 < arrival_rate -> 0 < service_rate -> 0 < delta ->
  forall servers,
    Forall (fun c => (0 < c)%Z) servers ->
    exists N, forall rnd fuel offset results,
        (forall n, delta <= rnd n) -> (N <= fuel)%nat ->
        exists rows,
          optimize_runs np_sqrt arrival_rate service_rate rnd fuel servers
                        offset results = Ok rows.
Proof.
  intros Ha Hs Hd. induction 1 as [| c servers Hc _ [N2 IH]].
  - exists 0%nat. intros rnd fuel offset results _ _.
    exists results. reflexivity.
  - destruct (run_engine_fuel
                (mkConfig arrival_rate service_rate c 480 50) delta)
      as [N1 H1]; try assumption; [simpl; lra |].
    exists (Nat.max N1 N2). intros rnd fuel offset results Hrnd Hfuel.
    cbn [optimize_runs].
    destruct (H1 (fun n => rnd (offset + n)%nat) fuel) as [wf E];
      [intros n; apply Hrnd | lia |].
    rewrite E. apply IH; [exact Hrnd | lia].
Qed.

(** X22. For positive rates and draws bounded away from zero, the
    optimize endpoint returns a table and an optimal row, given enough
    iterations of the event loop: none of its five runs raises. *)
Theorem optimize_returns
        (np_sqrt : Q -> Q) (arrival_rate service_rate delta : Q)
        (rnd : nat -> Q) :
  0 < arrival_rate -> 0 < service_rate -> 0 < delta ->
  (forall n, delta <= rnd n) ->
  exists fuel results optimal,
    optimize np_sqrt arrival_rate service_rate rnd fuel
    = Ok (results, optimal).
Proof.
  intros Ha Hs Hd Hrnd.
  destruct (optimize_runs_return np_sqrt arrival_rate service_rate delta
                                 Ha Hs Hd [1; 2; 3; 4; 5]%Z) as [N H];
    [repeat constructor |].
  destruct (H rnd N 0%nat [] Hrnd (Nat.le_refl N)) as [rows E].
  exists N. unfold optimize. rewrite E.
  apply optimize_runs_servers in E.
  destruct rows as [| first rest]; [discriminate E |].
  eexists. eexists. reflexivity.
Qed.

Lemma optimize_returns_witness :
  exists fuel results optimal,
    optimize sqrt_stub (1 # 100) (1 # 150) rnd_unit fuel
    = Ok (results, optimal).
Proof.
  apply (optimize_returns sqrt_stub (1 # 100) (1 # 150) 1 rnd_unit).
  - reflexivity.
  - reflexivity.
  - reflexivity.
  - intros n. unfold rnd_unit. apply Qle_refl.
Defined.

(* ================================================================ *)
(** * Part XI: further consistency of reported figures *)
(* ================================================================ *)

Lemma round_half_even_integer (x : Q) (k : Z) :
  x == inject_Z k -> round_half_even x = k.
Proof.
  intros E. unfold round_half_even.
  rewrite (Qfloor_comp _ _ E), Qfloor_Z.
  destruct (Qcompare_spec (x - inject_Z k) (1 # 2)) as [H | H | H];
    [exfalso; lra | reflexivity | exfalso; lra].
Qed.

(** Rounding leaves an integer unchanged. *)
Lemma round_integer (k : Z) (n : nat) : round (inject_Z k) n == inject_Z k.
Proof.
  rewrite round_spec. pose proof (pow10_pos n) as P. unfold pow10 in *.
  rewrite (round_half_even_integer _ (k * 10 ^ Z.of_nat n)).
  - rewrite inject_Z_mult. field. lra.
  - rewrite inject_Z_mult. reflexivity.
Qed.

(** X23. In the result of a run the average of the queue lengths seen at
    admission is not negative and not above the maximum queue length
    reported beside it. *)
Theorem queue_average_below_maximum
        (np_sqrt : Q -> Q) (cfg : Config) (rnd : nat -> Q) (fuel : nat)
        (results : Result) :
  run np_sqrt cfg rnd fuel = Ok results ->
  0 <= res_avg_queue_length results
  /\ res_avg_queue_length results
     <= Q_of_nat (res_max_queue_length results).
Proof.
  intros Hr. apply run_returns in Hr. destruct Hr as (wf & Hr & ->).
  destruct (final_observations cfg rnd fuel wf Hr)
    as ([_ _ _ _ _ _ _ _ _ M10 _ _] & _).
  cbn [calculate_metrics res_avg_queue_length res_max_queue_length].
  rewrite M10. unfold Q_of_nat.
  set (samples := queue_lengths (self wf)).
  set (l := map (fun n => inject_Z (Z.of_nat n)) samples).
  assert (L0 : Forall (fun t => 0 <= t) l).
  { unfold l. rewrite Forall_map, Forall_forall. intros n _.
    change 0 with (inject_Z 0). rewrite <- Zle_Qle. lia. }
  assert (L1 : Forall (fun t => t <= inject_Z (Z.of_nat (list_max samples)))
                      l).
  { unfold l. rewrite Forall_map.
    eapply Forall_impl; [| apply list_max_bounds].
    intros n Hn. simpl in Hn. rewrite <- Zle_Qle. lia. }
  assert (M0 : 0 <= inject_Z (Z.of_nat (list_max samples)))
    by (change 0 with (inject_Z 0); rewrite <- Zle_Qle; lia).
  assert (A : 0 <= avg_of l <= inject_Z (Z.of_nat (list_max samples))).
  { unfold avg_of. destruct l as [| x l'] eqn:El; simpl is_empty;
      [split; [lra | exact M0] |].
    rewrite <- El in *.
    assert (Hne : l <> []) by (rewrite El; discriminate).
    pose proof (Qlen_pos l Hne) as Hn.
    split; [apply np_mean_nonneg; exact L0 |].
    unfold np_mean. apply Qle_shift_div_r; [lra |].
    apply Qsum_upper. exact L1. }
  destruct A as [A0 A1]. split.
  - apply round2_nonneg. exact A0.
  - rewrite <- (round_integer (Z.of_nat (list_max samples)) 2).
    apply round_mono. exact A1.
Qed.

Lemma queue_average_below_maximum_witness :
  run sqrt_stub cfg_small rnd_busy 40 = Ok result_busy
  /\ res_avg_queue_length result_busy = 1 # 4
  /\ res_max_queue_length result_busy = 1%nat
  /\ res_avg_queue_length result_busy
     <= Q_of_nat (res_max_queue_length result_busy).
Proof.
  split; [vm_compute; reflexivity |]. split; [reflexivity |].
  split; [reflexivity |].
  apply (queue_average_below_maximum sqrt_stub cfg_small rnd_busy 40).
  vm_compute; reflexivity.
Defined.

(** X24. Asked for at least one period, the predictor returns as many
    predictions as periods asked for when it has five timestamps or more
    and one of them is later than 2; with fewer timestamps or none later
    than 2 it returns no prediction, whatever the number of periods. *)
Theorem forecast_length
        (np_sqrt : Q -> Q) (arrival_times : list Q) (forecast_periods : nat) :
  let f := predict_demand np_sqrt arrival_times forecast_periods in
  ((0 < forecast_periods)%nat ->
   (5 <= length arrival_times)%nat /\ 2 < np_max arrival_times ->
   length (fc_predictions f) = forecast_periods)
  /\ ((length arrival_times < 5)%nat \/ np_max arrival_times <= 2 ->
      fc_predictions f = []).
Proof.
  pose proof (length_time_series arrival_times) as HX.
  pose proof (Qle_ceiling (np_max arrival_times)) as A.
  pose proof (Qceiling_lt (np_max arrival_times)) as B.
  unfold predict_demand.
  destruct (prepare_time_series arrival_times) as [X y]. cbn [fst] in HX.
  destruct (length arrival_times <? 5)%nat eqn:E5;
    [apply Nat.ltb_lt in E5 | apply Nat.ltb_ge in E5].
  - split; [intros _ [H _]; lia | reflexivity].
  - destruct (length X <? 3)%nat eqn:E3;
      [apply Nat.ltb_lt in E3 | apply Nat.ltb_ge in E3].
    + split; [| reflexivity]. intros _ [_ H].
      assert (C : (2 < Qceiling (np_max arrival_times))%Z).
      { rewrite Zlt_Qlt. change (inject_Z 2) with 2. lra. }
      lia.
    + cbn [fc_predictions]. rewrite !length_map, length_seq.
      split; [reflexivity |].
      intros [H | H]; [lia |].
      assert (C : (Qceiling (np_max arrival_times) - 1 < 2)%Z).
      { rewrite Zlt_Qlt. change (inject_Z 2) with 2. lra. }
      lia.
Qed.

Lemma forecast_length_witness :
  (0 < 3)%nat
  /\ (5 <= length six_arrivals)%nat /\ 2 < np_max six_arrivals
  /\ length (fc_predictions (predict_demand sqrt_stub six_arrivals 3))
     = 3%nat.
Proof.
  split; [lia |]. split; [simpl; lia |]. split; [vm_compute; reflexivity |].
  apply (forecast_length sqrt_stub six_arrivals 3); [lia |].
  split; [simpl; lia | vm_compute; reflexivity].
Defined.
